(** * The tenant campaign engine of listmonk: pipes, workers and their invariants

    A shallow embedding of [internal/manager/tenant_pipe.go], of the
    [tenantInstanceManager] methods of [internal/manager/tenant_factory.go]
    and of [TenantManager.loadTenantConfig] ([internal/core/tenant_core.go]),
    followed by the properties of the dispatch engine that the specification
    states about them.

    Conventions.
    - Go's [int], [int64] and [uint64] are integers of [Z] with the
      wrap-around written out ([int64], [uint64] below).
    - A [*tenantPipe] is an index into the list [objs] of all pipe objects of
      an instance, so that the registry, the queued messages, the batch queue
      and the goroutine that waits for completion share one object.
    - Calls that leave the engine (Store, Messenger, notification callback)
      and the channel operations are appended to the [trace] of the instance;
      the answers of the outside world come in with the event that triggers
      the call.
    - [log.Printf] lines are not modelled. *)

From Stdlib Require Import ZArith Bool Lia Ascii DecimalString DecimalZ.
From stdpp Require Import base gmap strings list.

Local Open Scope Z_scope.

(** ** Machine integers *)

Definition two64 : Z := 18446744073709551616.
Definition two63 : Z := 9223372036854775808.

(** Conversion to [uint64]: the value modulo 2^64. *)
Definition uint64 (z : Z) : Z := z mod two64.

(** Conversion to [int] / [int64] (two's complement). *)
Definition int64 (z : Z) : Z := (z + two63) mod two64 - two63.

(** [time.Second] as a [time.Duration] (nanoseconds). *)
Definition Second : Z := 1000000000.

(** ** models *)

(** Modelled from the spec: the campaign status constants of the [models]
    package ([models.CampaignStatusRunning] and the like), whose declaration
    is not part of the sources at hand; section 4.3 of the specification
    names the statuses. *)
Definition CampaignStatusRunning : string := "running".
Definition CampaignStatusScheduled : string := "scheduled".
Definition CampaignStatusPaused : string := "paused".
Definition CampaignStatusCancelled : string := "cancelled".
Definition CampaignStatusFinished : string := "finished".

(** An attachment is identified by the media id it was loaded from. *)
Definition Attachment : Type := Z.

(** The fields of [models.Campaign] that the engine reads or writes. *)
Record Campaign := mkCampaign {
  campID : Z;
  campName : string;
  campMessenger : string;
  campStatus : string;
  campSent : Z;
  campToSend : Z;
  campMediaIDs : list Z;
  campAttachments : list Attachment
}.

Record Subscriber := mkSubscriber {
  subID : Z;
  subEmail : string
}.

(** ** Config and TenantConfig *)

Record Config := mkConfig {
  BatchSize : Z;
  Concurrency : Z;
  MessageRate : Z;
  MaxSendErrors : Z;
  SlidingWindow : bool;
  SlidingWindowDuration : Z;
  SlidingWindowRate : Z;
  FromEmail : string;
  RootURL : string;
  ScanCampaigns : bool
}.

Record TenantConfig := mkTenantConfig {
  base : Config;
  TenantID : Z;
  TenantFromEmail : string;
  TenantSMTPHost : string;
  TenantSMTPPort : Z;
  TenantSMTPUsername : string;
  TenantSMTPPassword : string;
  TenantSMTPTLS : bool;
  TenantSMTPSkipVerify : bool;
  TenantRootURL : string;
  TenantUnsubURL : string;
  TenantOptinURL : string;
  TenantMessageURL : string;
  TenantArchiveURL : string;
  TenantMaxBatchSize : Z;
  TenantMaxConcurrency : Z;
  TenantMessageRate : Z;
  TenantMaxSendErrors : Z
}.

(** ** sync.WaitGroup

    The counter of a wait group is the number of [Add(1)] calls minus the
    number of [Done] calls; both numbers are kept, so that they can be
    counted. [Wait] returns when the counter is zero. *)
Record WaitGroup := mkWG { wgAdds : Z; wgDones : Z }.

Definition wgCounter (w : WaitGroup) : Z := wgAdds w - wgDones w.
Definition wgAdd1 (w : WaitGroup) : WaitGroup := mkWG (wgAdds w + 1) (wgDones w).
Definition wgDone (w : WaitGroup) : WaitGroup := mkWG (wgAdds w) (wgDones w + 1).

(** ** tenantPipe *)

(** [rate] stands for the rolling counter of [ratecounter]: the sum of its
    [Incr] calls. [waiter] is the goroutine started by [newTenantPipe]:
    [true] while it is blocked in [wg.Wait], [false] once it has run
    [cleanup]. *)
Record tenantPipe := mkPipe {
  tenantID : Z;
  camp : Campaign;
  rate : Z;
  wg : WaitGroup;
  sent : Z;
  lastID : Z;
  errors : Z;
  stopped : bool;
  withErrors : bool;
  waiter : bool
}.

Definition set_rate (v : Z) (p : tenantPipe) : tenantPipe :=
  mkPipe (tenantID p) (camp p) v (wg p) (sent p) (lastID p) (errors p)
         (stopped p) (withErrors p) (waiter p).
Definition set_wg (v : WaitGroup) (p : tenantPipe) : tenantPipe :=
  mkPipe (tenantID p) (camp p) (rate p) v (sent p) (lastID p) (errors p)
         (stopped p) (withErrors p) (waiter p).
Definition set_sent (v : Z) (p : tenantPipe) : tenantPipe :=
  mkPipe (tenantID p) (camp p) (rate p) (wg p) v (lastID p) (errors p)
         (stopped p) (withErrors p) (waiter p).
Definition set_lastID (v : Z) (p : tenantPipe) : tenantPipe :=
  mkPipe (tenantID p) (camp p) (rate p) (wg p) (sent p) v (errors p)
         (stopped p) (withErrors p) (waiter p).
Definition set_errors (v : Z) (p : tenantPipe) : tenantPipe :=
  mkPipe (tenantID p) (camp p) (rate p) (wg p) (sent p) (lastID p) v
         (stopped p) (withErrors p) (waiter p).
Definition set_stopped (v : bool) (p : tenantPipe) : tenantPipe :=
  mkPipe (tenantID p) (camp p) (rate p) (wg p) (sent p) (lastID p) (errors p)
         v (withErrors p) (waiter p).
Definition set_withErrors (v : bool) (p : tenantPipe) : tenantPipe :=
  mkPipe (tenantID p) (camp p) (rate p) (wg p) (sent p) (lastID p) (errors p)
         (stopped p) v (waiter p).
Definition set_waiter (v : bool) (p : tenantPipe) : tenantPipe :=
  mkPipe (tenantID p) (camp p) (rate p) (wg p) (sent p) (lastID p) (errors p)
         (stopped p) (withErrors p) v.

(** [tenantPipe.Stop]; the load of the stopped flag and the stores to the
    two flags are one step. *)
Definition Stop (withErrs : bool) (tp : tenantPipe) : tenantPipe :=
  if stopped tp then tp
  else
    let tp := if withErrs then set_withErrors true tp else tp in
    set_stopped true tp.

(** [tenantPipe.OnError]; [maxErrors] is [tp.m.cfg.TenantMaxSendErrors]. *)
Definition OnError (maxErrors : Z) (tp : tenantPipe) : tenantPipe :=
  if maxErrors <? 1 then tp
  else
    let count := uint64 (errors tp + 1) in
    let tp := set_errors count tp in
    if int64 count <? maxErrors then tp
    else Stop true tp.

(** The parts of [worker] that run on the pipe of a dequeued campaign
    message. [workerDiscard]: the pipe is stopped, the message is dropped.
    [workerPushed]: [Push] has returned, with an error or not; the wait group
    is released and an error is counted. [workerStore]: after a successful
    push to subscriber [id], the watermark is stored if [id] exceeds [cur],
    the value that [lastID.Load()] returned, and the rate and sent counters
    are advanced. *)
Definition workerDiscard (tp : tenantPipe) : tenantPipe :=
  set_wg (wgDone (wg tp)) tp.

Definition workerPushed (maxErrors : Z) (pushErr : bool) (tp : tenantPipe)
    : tenantPipe :=
  let tp := set_wg (wgDone (wg tp)) tp in
  if pushErr then OnError maxErrors tp else tp.

Definition workerStore (id cur : Z) (tp : tenantPipe) : tenantPipe :=
  let tp := if cur <? uint64 id then set_lastID (uint64 id) tp else tp in
  let tp := set_rate (rate tp + 1) tp in
  set_sent (int64 (sent tp + 1)) tp.

(** The statistics update when nothing intervenes between the load of the
    watermark and the store. *)
Definition onSent (id : Z) (tp : tenantPipe) : tenantPipe :=
  workerStore id (lastID tp) tp.

(** ** TenantCampaignMessage *)

(** The rendered subject and bodies are left out; [msgPipe] is the
    back-reference [pipe *tenantPipe] ([None] for [nil]). *)
Record TenantCampaignMessage := mkMsg {
  msgTenantID : Z;
  msgCampaign : Campaign;
  msgSubscriber : Subscriber;
  msgPipe : option nat
}.

(** ** The trace of an instance *)

Inductive outcome := Discarded | Delivered | Failed.

Inductive action :=
| NextTenantCampaigns (tenant : Z) (ids counts : list Z)
| NextTenantSubscribers (tenant campaign limit : Z)
| GetTenantCampaign (tenant campaign : Z)
| UpdateTenantCampaignStatus (tenant campaign : Z) (status : string)
| UpdateTenantCampaignCounts (tenant campaign toSend nsent lastSubID : Z)
| fnNotify (tenant campaign : Z) (status reason : string)
| MessengerPush (messenger : string) (subscriber : Z)
| Enqueue (pipe : nat) (subscriber : Z) (time : Z)
| Dequeue (pipe : nat) (o : outcome)
| BatchEnd (pipe : nat)
| WindowRestart (start : Z)
| Sleep (d : Z)
| Cleanup (pipe : nat).

(** ** tenantInstanceManager *)

(** Where a worker stands with the message it has received: the message has
    passed the stopped check and its [Push] has not returned, or [Push] has
    succeeded and [lastID.Load()] has returned [cur]. *)
Inductive phase := Pushing | Loaded (cur : Z).

(** [messengers] holds the keys of the map of messengers. [inflight] holds
    the messages that the workers have received and not yet finished, one
    per busy worker. [clock] is the monotonic clock, in nanoseconds, as far
    as the batching producer has read it; [slidingStart] is a reading of
    it. *)
Record tenantInstanceManager := mkInstance {
  tim_tenantID : Z;
  cfg : TenantConfig;
  messengers : gset string;
  objs : list tenantPipe;
  pipes : gmap Z nat;
  nextPipes : list nat;
  campMsgQ : list TenantCampaignMessage;
  inflight : list (TenantCampaignMessage * phase);
  slidingCount : Z;
  slidingStart : Z;
  clock : Z;
  trace : list action
}.

Definition set_messengers (v : gset string) (t : tenantInstanceManager) :=
  mkInstance (tim_tenantID t) (cfg t) v (objs t) (pipes t) (nextPipes t)
             (campMsgQ t) (inflight t) (slidingCount t) (slidingStart t) (clock t) (trace t).
Definition set_objs (v : list tenantPipe) (t : tenantInstanceManager) :=
  mkInstance (tim_tenantID t) (cfg t) (messengers t) v (pipes t) (nextPipes t)
             (campMsgQ t) (inflight t) (slidingCount t) (slidingStart t) (clock t) (trace t).
Definition set_pipes (v : gmap Z nat) (t : tenantInstanceManager) :=
  mkInstance (tim_tenantID t) (cfg t) (messengers t) (objs t) v (nextPipes t)
             (campMsgQ t) (inflight t) (slidingCount t) (slidingStart t) (clock t) (trace t).
Definition set_nextPipes (v : list nat) (t : tenantInstanceManager) :=
  mkInstance (tim_tenantID t) (cfg t) (messengers t) (objs t) (pipes t) v
             (campMsgQ t) (inflight t) (slidingCount t) (slidingStart t) (clock t) (trace t).
Definition set_campMsgQ (v : list TenantCampaignMessage) (t : tenantInstanceManager) :=
  mkInstance (tim_tenantID t) (cfg t) (messengers t) (objs t) (pipes t) (nextPipes t)
             v (inflight t) (slidingCount t) (slidingStart t) (clock t) (trace t).
Definition set_inflight (v : list (TenantCampaignMessage * phase))
    (t : tenantInstanceManager) :=
  mkInstance (tim_tenantID t) (cfg t) (messengers t) (objs t) (pipes t) (nextPipes t)
             (campMsgQ t) v (slidingCount t) (slidingStart t) (clock t) (trace t).
Definition set_slidingCount (v : Z) (t : tenantInstanceManager) :=
  mkInstance (tim_tenantID t) (cfg t) (messengers t) (objs t) (pipes t) (nextPipes t)
             (campMsgQ t) (inflight t) v (slidingStart t) (clock t) (trace t).
Definition set_slidingStart (v : Z) (t : tenantInstanceManager) :=
  mkInstance (tim_tenantID t) (cfg t) (messengers t) (objs t) (pipes t) (nextPipes t)
             (campMsgQ t) (inflight t) (slidingCount t) v (clock t) (trace t).
Definition set_clock (v : Z) (t : tenantInstanceManager) :=
  mkInstance (tim_tenantID t) (cfg t) (messengers t) (objs t) (pipes t) (nextPipes t)
             (campMsgQ t) (inflight t) (slidingCount t) (slidingStart t) v (trace t).
Definition set_trace (v : list action) (t : tenantInstanceManager) :=
  mkInstance (tim_tenantID t) (cfg t) (messengers t) (objs t) (pipes t) (nextPipes t)
             (campMsgQ t) (inflight t) (slidingCount t) (slidingStart t) (clock t) v.

(** A store through a [*tenantPipe]. *)
Definition updPipe (a : nat) (f : tenantPipe → tenantPipe)
    (t : tenantInstanceManager) : tenantInstanceManager :=
  set_objs (alter f a (objs t)) t.

Definition emit (x : action) (t : tenantInstanceManager) : tenantInstanceManager :=
  set_trace (trace t ++ [x]) t.

(** [createTenantInstance], with [now] the reading of [time.Now()]. *)
Definition createTenantInstance (tenant : Z) (c : TenantConfig) (now : Z)
    : tenantInstanceManager :=
  mkInstance tenant c ∅ [] ∅ [] [] [] 0 now now [].

(** [tenantInstanceManager.AddMessenger]; [None] is the error. *)
Definition AddMessenger (name : string) (t : tenantInstanceManager)
    : option tenantInstanceManager :=
  if bool_decide (name ∈ messengers t) then None
  else Some (set_messengers ({[name]} ∪ messengers t) t).

(** The capacity of the [nextPipes] channel ([createTenantInstance]). *)
Definition nextPipesCap : nat := 1000.

(** The non-blocking send [select { case tim.nextPipes <- tp: default: }]. *)
Definition submit (a : nat) (t : tenantInstanceManager) : tenantInstanceManager :=
  if (length (nextPipes t) <? nextPipesCap)%nat
  then set_nextPipes (nextPipes t ++ [a]) t
  else t.

(** *** newTenantPipe *)

(** What the world answers while a pipe is built for a due campaign:
    whether [CompileTemplate] fails, and [store.GetAttachment]. *)
Record dueCampaign := mkDue {
  dueCamp : Campaign;
  tplErr : bool;
  getAttachment : Z → option Attachment
}.

(** [attachMedia]: [None] is the error of the first failing fetch. *)
Fixpoint attachMedia (get : Z → option Attachment) (mids : list Z)
    (atts : list Attachment) : option (list Attachment) :=
  match mids with
  | [] => Some atts
  | mid :: rest =>
      match get mid with
      | None => None
      | Some a => attachMedia get rest (atts ++ [a])
      end
  end.

Definition withAttachments (atts : list Attachment) (c : Campaign) : Campaign :=
  mkCampaign (campID c) (campName c) (campMessenger c) (campStatus c)
             (campSent c) (campToSend c) (campMediaIDs c) atts.

(** [newTenantPipe]: the second component is the new [*tenantPipe], [None]
    for an error. *)
Definition newTenantPipe (d : dueCampaign) (t : tenantInstanceManager)
    : tenantInstanceManager * option nat :=
  let c := dueCamp d in
  if negb (bool_decide (campMessenger c ∈ messengers t)) then
    (emit (UpdateTenantCampaignStatus (tim_tenantID t) (campID c)
             CampaignStatusCancelled) t, None)
  else if tplErr d then (t, None)
  else
    match attachMedia (getAttachment d) (campMediaIDs c) (campAttachments c) with
    | None => (t, None)
    | Some atts =>
        let tp := mkPipe (tim_tenantID t) (withAttachments atts c) 0
                         (wgAdd1 (mkWG 0 0)) 0 0 0 false false true in
        let a := length (objs t) in
        (set_pipes (<[campID c := a]> (pipes t)) (set_objs (objs t ++ [tp]) t),
         Some a)
    end.

(** *** NextSubscribers *)

(** One subscriber of a fetched batch, with what the world does while the
    loop handles it: whether rendering fails, the time that passes until the
    message is in the queue and [time.Since] is read ([elapsed]), the time
    between that reading and [time.Now()] when the window restarts ([lag]),
    and how much longer than asked [time.Sleep] takes ([oversleep]). *)
Record subInput := mkSubInput {
  inSub : Subscriber;
  renderErr : bool;
  elapsed : N;
  lag : N;
  oversleep : N
}.

(** [SlidingWindowDuration.Seconds() > 1]: the float64 sum of the whole
    seconds and of the remaining nanoseconds over 1e9 exceeds 1 exactly when
    the duration exceeds one second. *)
Definition hasSliding (c : TenantConfig) : bool :=
  SlidingWindow (base c)
  && (0 <? SlidingWindowRate (base c))
  && (Second <? SlidingWindowDuration (base c)).

(** The body of [if hasSliding { ... }], entered with the clock at the
    reading of [time.Since]. *)
Definition slide (i : subInput) (t : tenantInstanceManager) : tenantInstanceManager :=
  let D := SlidingWindowDuration (base (cfg t)) in
  let diff := clock t - slidingStart t in
  if D <=? diff then
    let now := clock t + Z.of_N (lag i) in
    emit (WindowRestart now)
      (set_slidingCount 0 (set_slidingStart now (set_clock now t)))
  else
    let n := int64 (slidingCount t + 1) in
    if SlidingWindowRate (base (cfg t)) <=? n then
      let wait := D - diff in
      emit (Sleep wait)
        (set_clock (clock t + wait + Z.of_N (oversleep i)) (set_slidingCount 0 t))
    else set_slidingCount n t.

(** The body of the loop [for _, s := range subs] for the pipe at [a] with
    campaign snapshot [c]: a subscriber whose message fails to render is
    skipped; otherwise [newTenantMessage] adds to the wait group of the pipe,
    the message is sent to [campMsgQ], and the sliding window is checked. *)
Definition pushOne (a : nat) (c : Campaign) (i : subInput)
    (t : tenantInstanceManager) : tenantInstanceManager :=
  if renderErr i then t
  else
    let t := updPipe a (λ p, set_wg (wgAdd1 (wg p)) p) t in
    let msg := mkMsg (tim_tenantID t) c (inSub i) (Some a) in
    let t := set_clock (clock t + Z.of_N (elapsed i)) t in
    let t := emit (Enqueue a (subID (inSub i)) (clock t))
                  (set_campMsgQ (campMsgQ t ++ [msg]) t) in
    if hasSliding (cfg t) then slide i t else t.

Definition pushBatch (a : nat) (c : Campaign) (subs : list subInput)
    (t : tenantInstanceManager) : tenantInstanceManager :=
  foldl (λ t i, pushOne a c i t) t subs.

(** [NextSubscribers] for the pipe at [a]: [resp] is the answer of
    [store.NextTenantSubscribers] ([None] for an error); the result is the
    pair [(has, err)] with [None] for an error. *)
Definition NextSubscribers (a : nat) (c : Campaign) (resp : option (list subInput))
    (t : tenantInstanceManager) : tenantInstanceManager * option bool :=
  let t := emit (NextTenantSubscribers (tim_tenantID t) (campID c)
                   (TenantMaxBatchSize (cfg t))) t in
  match resp with
  | None => (t, None)
  | Some [] => (t, Some false)
  | Some subs => (pushBatch a c subs t, Some true)
  end.

(** *** run: one turn of the loop that receives from [nextPipes] *)
Definition runIter (resp : option (list subInput)) (t : tenantInstanceManager)
    : tenantInstanceManager :=
  match nextPipes t with
  | [] => t
  | a :: rest =>
      let t := set_nextPipes rest t in
      match objs t !! a with
      | None => t
      | Some tp =>
          match NextSubscribers a (camp tp) resp t with
          | (t, None) => t
          | (t, Some true) => submit a t
          | (t, Some false) =>
              emit (BatchEnd a) (updPipe a (λ p, set_wg (wgDone (wg p)) p) t)
          end
      end
  end.

(** *** worker *)

(** One turn of the loop of a worker takes three events. [workerRecv]: a
    free worker (there are [TenantMaxConcurrency] of them) receives from
    [campMsgQ] and reads the stopped flag of the pipe; the message of a
    stopped pipe is dropped, any other is on its way to its messenger
    ([MessengerPush] records it where it passes the check; the call of
    [Push] comes after the assembly of the outgoing message and the
    per-second pause of the worker, which touch neither the pipe nor the
    instance and are left out). [workerPush]: the [Push] of the message in
    flight at position [k] returns, with an error when [pushErr]; the wait
    group of the pipe is released ([Dequeue] records the outcome where [Done]
    is called), an error is counted, and after a success the watermark is
    loaded. The step takes [wg.Done()] and [OnError()] of a failed push
    together; [workerDone] and [workerOnError] below are the two calls one
    by one. [workerFinish]: the comparison with the loaded watermark, the
    store, and the counters. *)
Definition workerRecv (t : tenantInstanceManager) : tenantInstanceManager :=
  match campMsgQ t with
  | [] => t
  | msg :: rest =>
      if (length (inflight t) <? Z.to_nat (TenantMaxConcurrency (cfg t)))%nat then
        let t := set_campMsgQ rest t in
        let push := MessengerPush (campMessenger (msgCampaign msg))
                                  (subID (msgSubscriber msg)) in
        match msgPipe msg with
        | None => set_inflight (inflight t ++ [(msg, Pushing)]) (emit push t)
        | Some a =>
            match objs t !! a with
            | None => t
            | Some tp =>
                if stopped tp then
                  emit (Dequeue a Discarded) (updPipe a workerDiscard t)
                else
                  set_inflight (inflight t ++ [(msg, Pushing)]) (emit push t)
            end
        end
      else t
  end.

Definition workerPush (k : nat) (pushErr : bool) (t : tenantInstanceManager)
    : tenantInstanceManager :=
  match inflight t !! k with
  | Some (msg, Pushing) =>
      match msgPipe msg with
      | None => set_inflight (delete k (inflight t)) t
      | Some a =>
          match objs t !! a with
          | None => t
          | Some tp =>
              let t := updPipe a (workerPushed (TenantMaxSendErrors (cfg t)) pushErr) t in
              if pushErr then
                emit (Dequeue a Failed) (set_inflight (delete k (inflight t)) t)
              else
                emit (Dequeue a Delivered)
                  (set_inflight (<[k := (msg, Loaded (lastID tp))]> (inflight t)) t)
          end
      end
  | _ => t
  end.

Definition workerFinish (k : nat) (t : tenantInstanceManager) : tenantInstanceManager :=
  match inflight t !! k with
  | Some (msg, Loaded cur) =>
      match msgPipe msg with
      | None => t
      | Some a =>
          set_inflight (delete k (inflight t))
            (updPipe a (workerStore (subID (msgSubscriber msg)) cur) t)
      end
  | _ => t
  end.

(** *** StopCampaign *)
Definition StopCampaign (id : Z) (t : tenantInstanceManager) : tenantInstanceManager :=
  match pipes t !! id with
  | Some a => updPipe a (Stop false) t
  | None => t
  end.

(** *** getCurrentCampaigns and scanCampaigns *)

(** The body of the loop [for _, p := range tim.pipes]: the id and the sent
    counter of the pipe are appended, and the counter is reset. *)
Definition collect (acc : tenantInstanceManager * (list Z * list Z)) (e : Z * nat)
    : tenantInstanceManager * (list Z * list Z) :=
  match objs acc.1 !! e.2 with
  | Some p => (updPipe e.2 (set_sent 0) acc.1,
               (acc.2.1 ++ [campID (camp p)], acc.2.2 ++ [sent p]))
  | None => acc
  end.

Definition getCurrentCampaigns (t : tenantInstanceManager)
    : tenantInstanceManager * (list Z * list Z) :=
  foldl collect (t, ([], [])) (map_to_list (pipes t)).

(** The body of the loop [for _, c := range campaigns] of [scanCampaigns]. *)
Definition startCampaign (t : tenantInstanceManager) (d : dueCampaign)
    : tenantInstanceManager :=
  match newTenantPipe d t with
  | (t, Some a) => submit a t
  | (t, None) => t
  end.

(** One tick of [scanCampaigns]; [resp] is the answer of
    [store.NextTenantCampaigns] ([None] for an error). *)
Definition scanTick (resp : option (list dueCampaign)) (t : tenantInstanceManager)
    : tenantInstanceManager :=
  let r := getCurrentCampaigns t in
  let t := emit (NextTenantCampaigns (tim_tenantID r.1) r.2.1 r.2.2) r.1 in
  match resp with
  | None => t
  | Some cs => foldl startCampaign t cs
  end.

(** *** cleanup *)

(** [cleanup] of the pipe [tp]; [resp] is the answer of
    [store.GetTenantCampaign] ([None] for an error). The deferred removal
    from the registry comes last. *)
Definition cleanup (a : nat) (tp : tenantPipe) (resp : option Campaign)
    (t : tenantInstanceManager) : tenantInstanceManager :=
  let id := campID (camp tp) in
  let t := emit (Cleanup a) t in
  let t := emit (UpdateTenantCampaignCounts (tenantID tp) id 0
                   (sent tp) (int64 (lastID tp))) t in
  let t :=
    if withErrors tp then
      emit (fnNotify (tenantID tp) id CampaignStatusPaused "Too many errors")
        (emit (UpdateTenantCampaignStatus (tenantID tp) id CampaignStatusPaused) t)
    else if stopped tp then t
    else
      let t := emit (GetTenantCampaign (tenantID tp) id) t in
      match resp with
      | None => t
      | Some c =>
          if String.eqb (campStatus c) CampaignStatusRunning
             || String.eqb (campStatus c) CampaignStatusScheduled
          then
            emit (fnNotify (tenantID tp) (campID c) CampaignStatusFinished "")
              (emit (UpdateTenantCampaignStatus (tenantID tp) id
                       CampaignStatusFinished) t)
          else emit (fnNotify (tenantID tp) (campID c) (campStatus c) "") t
      end in
  set_pipes (delete id (pipes t)) t.

(** The goroutine of [newTenantPipe]: [tp.wg.Wait(); tp.cleanup()]. *)
Definition waitIter (a : nat) (resp : option Campaign) (t : tenantInstanceManager)
    : tenantInstanceManager :=
  match objs t !! a with
  | Some tp =>
      if waiter tp && (wgCounter (wg tp) =? 0)
      then cleanup a tp resp (updPipe a (set_waiter false) t)
      else t
  | None => t
  end.

(** ** The engine as a transition system

    An event is one turn of one of the goroutines of an instance, together
    with the answers of the outside world; an event whose goroutine is
    blocked leaves the instance as it is. *)
Inductive event :=
| EvScan (resp : option (list dueCampaign))
| EvRun (resp : option (list subInput))
| EvRecv
| EvPush (k : nat) (pushErr : bool)
| EvFinish (k : nat)
| EvStop (id : Z)
| EvWait (a : nat) (resp : option Campaign)
| EvAddMessenger (name : string).

Definition step (e : event) (t : tenantInstanceManager) : tenantInstanceManager :=
  match e with
  | EvScan resp => if ScanCampaigns (base (cfg t)) then scanTick resp t else t
  | EvRun resp => runIter resp t
  | EvRecv => workerRecv t
  | EvPush k pushErr => workerPush k pushErr t
  | EvFinish k => workerFinish k t
  | EvStop id => StopCampaign id t
  | EvWait a resp => waitIter a resp t
  | EvAddMessenger name => default t (AddMessenger name t)
  end.

Definition exec (evs : list event) (t : tenantInstanceManager) : tenantInstanceManager :=
  foldl (λ t e, step e t) t evs.

(** * Properties *)

(** ** How the pipe objects evolve

    Every store that an event performs through a [*tenantPipe] is one of the
    operations of [pipeOp]; a pipe object, once allocated, stays at its
    address and changes by these operations only. *)
Inductive pipeOp (T : Z) : event → tenantPipe → tenantPipe → Prop :=
| op_add resp p : pipeOp T (EvRun resp) p (set_wg (wgAdd1 (wg p)) p)
| op_batchEnd resp p : pipeOp T (EvRun resp) p (set_wg (wgDone (wg p)) p)
| op_discard p : stopped p = true → pipeOp T EvRecv p (workerDiscard p)
| op_pushed k err p : pipeOp T (EvPush k err) p (workerPushed T err p)
| op_store k id cur p : pipeOp T (EvFinish k) p (workerStore id cur p)
| op_stop id p : pipeOp T (EvStop id) p (Stop false p)
| op_scan resp p : pipeOp T (EvScan resp) p (set_sent 0 p)
| op_wait a resp p : pipeOp T (EvWait a resp) p (set_waiter false p).

Definition evolves (O : relation tenantPipe) (t t' : tenantInstanceManager) : Prop :=
  cfg t' = cfg t ∧
  ∀ a p, objs t !! a = Some p → ∃ p', objs t' !! a = Some p' ∧ rtc O p p'.

Section Evolves.
Variable O : relation tenantPipe.

Lemma evolves_refl t : evolves O t t.
Proof. split; [done|]. intros a p H. exists p. split; [done|apply rtc_refl]. Qed.

Lemma evolves_trans t1 t2 t3 : evolves O t1 t2 → evolves O t2 t3 → evolves O t1 t3.
Proof.
  intros [Hc1 H1] [Hc2 H2]. split; [congruence|].
  intros a p Hp. destruct (H1 a p Hp) as (p1 & Hp1 & R1).
  destruct (H2 a p1 Hp1) as (p2 & Hp2 & R2).
  exists p2. split; [done|by etrans].
Qed.

Lemma evolves_objs t t' : cfg t' = cfg t → objs t' = objs t → evolves O t t'.
Proof.
  intros Hc Ho. split; [done|]. intros a p H. exists p. rewrite Ho.
  split; [done|apply rtc_refl].
Qed.

Lemma evolves_alloc t t' l : cfg t' = cfg t → objs t' = objs t ++ l → evolves O t t'.
Proof.
  intros Hc Ho. split; [done|]. intros a p H. exists p. rewrite Ho.
  split; [by apply lookup_app_l_Some|apply rtc_refl].
Qed.

Lemma evolves_updPipe t a f :
  (∀ p, objs t !! a = Some p → O p (f p)) → evolves O t (updPipe a f t).
Proof.
  intros Hf. split; [done|]. intros b p H. simpl.
  destruct (decide (a = b)) as [->|Hne].
  - exists (f p). rewrite list_lookup_alter_eq, H. split; [done|].
    by apply rtc_once, Hf.
  - exists p. rewrite list_lookup_alter_ne by done. split; [done|apply rtc_refl].
Qed.

Lemma foldl_evolves {A} (f : tenantInstanceManager → A → tenantInstanceManager) l :
  (∀ t x, evolves O t (f t x)) → ∀ t, evolves O t (foldl f t l).
Proof.
  intros Hf. induction l as [|x l IH]; intros t; simpl; [apply evolves_refl|].
  eapply evolves_trans; [apply Hf|apply IH].
Qed.
End Evolves.

Lemma evolves_mono (O O' : relation tenantPipe) t t' :
  (∀ p p', O p p' → O' p p') → evolves O t t' → evolves O' t t'.
Proof.
  intros HO [Hc H]. split; [done|]. intros a p Hp.
  destruct (H a p Hp) as (p' & Hp' & Hr). exists p'. split; [done|].
  clear Hp Hp'. induction Hr as [|x y z Hxy _ IH]; [apply rtc_refl|].
  eapply rtc_l; [by apply HO|done].
Qed.

Lemma slide_objs i t : objs (slide i t) = objs t.
Proof. unfold slide. repeat case_match; done. Qed.

Lemma slide_cfg i t : cfg (slide i t) = cfg t.
Proof. unfold slide. repeat case_match; done. Qed.

Lemma pushOne_cfg a c i t : cfg (pushOne a c i t) = cfg t.
Proof. unfold pushOne. repeat case_match; try done. by rewrite slide_cfg. Qed.

Lemma pushBatch_cfg a c subs t : cfg (pushBatch a c subs t) = cfg t.
Proof.
  unfold pushBatch. revert t. induction subs as [|i subs IH]; intros t; simpl; [done|].
  by rewrite IH, pushOne_cfg.
Qed.

Section StepEvolves.
Variable T : Z.

Lemma pushOne_evolves resp a c i t :
  evolves (pipeOp T (EvRun resp)) t (pushOne a c i t).
Proof.
  unfold pushOne. destruct (renderErr i); [apply evolves_refl|].
  eapply evolves_trans;
    [apply (evolves_updPipe _ t a); intros p _; apply op_add|].
  case_match.
  - apply evolves_objs; [by rewrite slide_cfg|by rewrite slide_objs].
  - by apply evolves_objs.
Qed.

Lemma submit_evolves O a t : evolves O t (submit a t).
Proof. unfold submit. case_match; by apply evolves_objs. Qed.

Lemma runIter_evolves resp t : evolves (pipeOp T (EvRun resp)) t (runIter resp t).
Proof.
  unfold runIter. destruct (nextPipes t) as [|a rest]; [apply evolves_refl|].
  simpl. destruct (objs t !! a) as [tp|]; [|by apply evolves_objs].
  unfold NextSubscribers. destruct resp as [[|i subs]|].
  - eapply evolves_trans; [|apply evolves_objs; [|reflexivity]; done].
    eapply evolves_trans; [|apply evolves_updPipe; intros p _; apply op_batchEnd].
    by apply evolves_objs.
  - eapply evolves_trans; [|apply submit_evolves].
    eapply evolves_trans;
      [|apply foldl_evolves; intros; apply pushOne_evolves].
    by apply evolves_objs.
  - by apply evolves_objs.
Qed.

Lemma workerRecv_evolves t : evolves (pipeOp T EvRecv) t (workerRecv t).
Proof.
  unfold workerRecv. destruct (campMsgQ t) as [|msg rest]; [apply evolves_refl|].
  case_match; [|apply evolves_refl]. simpl.
  destruct (msgPipe msg) as [a|]; [|by apply evolves_objs].
  destruct (objs t !! a) as [tp|] eqn:Ha; [|by apply evolves_objs].
  destruct (stopped tp) eqn:Hs; [|by apply evolves_objs].
  eapply evolves_trans; [|apply evolves_objs; [|reflexivity]; done].
  eapply (evolves_trans _ _ (set_campMsgQ rest t)); [by apply evolves_objs|].
  apply evolves_updPipe. simpl. intros p Hp. apply op_discard. congruence.
Qed.

Lemma workerFinish_evolves k t : evolves (pipeOp T (EvFinish k)) t (workerFinish k t).
Proof.
  unfold workerFinish.
  destruct (inflight t !! k) as [[msg [|cur]]|]; try apply evolves_refl.
  destruct (msgPipe msg) as [a|]; [|apply evolves_refl].
  eapply evolves_trans;
    [apply (evolves_updPipe _ t a); intros p _; apply op_store|].
  by apply evolves_objs.
Qed.

Lemma StopCampaign_evolves id t : evolves (pipeOp T (EvStop id)) t (StopCampaign id t).
Proof.
  unfold StopCampaign. destruct (pipes t !! id) as [a|]; [|apply evolves_refl].
  apply evolves_updPipe. intros p _. apply op_stop.
Qed.

Lemma collect_evolves resp acc e :
  evolves (pipeOp T (EvScan resp)) acc.1 (collect acc e).1.
Proof.
  unfold collect. destruct (objs acc.1 !! e.2); [|apply evolves_refl].
  apply evolves_updPipe. intros q _. apply op_scan.
Qed.

Lemma getCurrentCampaigns_evolves resp t :
  evolves (pipeOp T (EvScan resp)) t (getCurrentCampaigns t).1.
Proof.
  unfold getCurrentCampaigns.
  assert (H : ∀ l acc, evolves (pipeOp T (EvScan resp)) acc.1 (foldl collect acc l).1).
  { induction l as [|e l IH]; intros acc; simpl; [apply evolves_refl|].
    eapply evolves_trans; [apply collect_evolves|apply IH]. }
  apply (H _ (t, ([], []))).
Qed.

Lemma newTenantPipe_evolves O d t : evolves O t (newTenantPipe d t).1.
Proof.
  unfold newTenantPipe. repeat case_match; simpl; try apply evolves_refl.
  - by apply evolves_objs.
  - by eapply evolves_alloc.
Qed.

Lemma startCampaign_evolves O t d : evolves O t (startCampaign t d).
Proof.
  unfold startCampaign. pose proof (newTenantPipe_evolves O d t) as H.
  destruct (newTenantPipe d t) as [t' [a|]]; [|done].
  eapply evolves_trans; [apply H|apply submit_evolves].
Qed.

Lemma scanTick_evolves resp t : evolves (pipeOp T (EvScan resp)) t (scanTick resp t).
Proof.
  unfold scanTick.
  eapply evolves_trans; [apply getCurrentCampaigns_evolves|].
  destruct resp as [cs|]; [|by apply evolves_objs].
  eapply evolves_trans; [|apply foldl_evolves, startCampaign_evolves].
  by apply evolves_objs.
Qed.

Lemma cleanup_objs a tp resp t : objs (cleanup a tp resp t) = objs t.
Proof. unfold cleanup. repeat case_match; done. Qed.

Lemma cleanup_cfg a tp resp t : cfg (cleanup a tp resp t) = cfg t.
Proof. unfold cleanup. repeat case_match; done. Qed.

Lemma waitIter_evolves a resp t : evolves (pipeOp T (EvWait a resp)) t (waitIter a resp t).
Proof.
  unfold waitIter. destruct (objs t !! a) as [tp|]; [|apply evolves_refl].
  case_match; [|apply evolves_refl].
  eapply evolves_trans;
    [apply (evolves_updPipe _ t a); intros p _; apply op_wait|].
  apply evolves_objs; [apply cleanup_cfg|apply cleanup_objs].
Qed.
End StepEvolves.

Lemma workerPush_evolves k err t :
  evolves (pipeOp (TenantMaxSendErrors (cfg t)) (EvPush k err)) t (workerPush k err t).
Proof.
  unfold workerPush.
  destruct (inflight t !! k) as [[msg [|cur]]|]; try apply evolves_refl.
  destruct (msgPipe msg) as [a|]; [|by apply evolves_objs].
  destruct (objs t !! a) as [tp|]; [|apply evolves_refl].
  eapply evolves_trans;
    [apply (evolves_updPipe _ t a); intros p _; apply (op_pushed _ k err)|].
  destruct err; by apply evolves_objs.
Qed.

Lemma step_evolves e t :
  evolves (pipeOp (TenantMaxSendErrors (cfg t)) e) t (step e t).
Proof.
  destruct e; simpl.
  - case_match; [apply scanTick_evolves|apply evolves_refl].
  - apply runIter_evolves.
  - apply workerRecv_evolves.
  - apply workerPush_evolves.
  - apply workerFinish_evolves.
  - apply StopCampaign_evolves.
  - apply waitIter_evolves.
  - unfold AddMessenger. case_match; simpl; [apply evolves_refl|by apply evolves_objs].
Qed.

Lemma step_cfg e t : cfg (step e t) = cfg t.
Proof. apply step_evolves. Qed.

Lemma exec_cfg evs t : cfg (exec evs t) = cfg t.
Proof.
  unfold exec. revert t. induction evs as [|e evs IH]; intros t; simpl; [done|].
  by rewrite IH, step_cfg.
Qed.

Lemma exec_app evs1 evs2 t : exec (evs1 ++ evs2) t = exec evs2 (exec evs1 t).
Proof. apply foldl_app. Qed.

(** The operations of the events of a list. *)
Definition pipeOps (T : Z) (evs : list event) : relation tenantPipe :=
  λ p p', ∃ e, e ∈ evs ∧ pipeOp T e p p'.

Lemma exec_evolves evs t :
  evolves (pipeOps (TenantMaxSendErrors (cfg t)) evs) t (exec evs t).
Proof.
  unfold exec. revert t. induction evs as [|e evs IH]; intros t; simpl.
  - apply evolves_refl.
  - eapply evolves_trans.
    + eapply evolves_mono; [|apply step_evolves].
      intros p p' H. exists e. split; [left|done].
    + eapply evolves_mono; [|apply IH].
      intros p p' (e' & He' & H). exists e'. split; [by right|].
      by rewrite step_cfg in H.
Qed.

(** A relation between the states of a pipe that every operation of the
    events of a run establishes holds between the state before and the state
    after the run. *)
Lemma exec_pipe_invariant (R : relation tenantPipe) evs t a p :
  (∀ q, R q q) →
  (∀ q1 q2 q3, R q1 q2 → R q2 q3 → R q1 q3) →
  (∀ e q q', e ∈ evs → pipeOp (TenantMaxSendErrors (cfg t)) e q q' → R q q') →
  objs t !! a = Some p →
  ∃ p', objs (exec evs t) !! a = Some p' ∧ R p p'.
Proof.
  intros Hrefl Htrans Hop Hp.
  destruct (exec_evolves evs t) as [_ H]. destruct (H a p Hp) as (p' & Hp' & Hr).
  exists p'. split; [done|]. clear Hp Hp' H.
  induction Hr as [|x y z Hxy Hyz IH]; [apply Hrefl|].
  destruct Hxy as (e & He & Hxy). eapply Htrans; [by eapply Hop|apply IH].
Qed.

(** ** The flags of a pipe *)

Lemma Stop_stopped w p : stopped (Stop w p) = true.
Proof. unfold Stop. destruct (stopped p) eqn:H; [done|]. by destruct w. Qed.

Lemma Stop_noop w p : stopped p = true → Stop w p = p.
Proof. unfold Stop. by intros ->. Qed.

Lemma Stop_fields w p :
  tenantID (Stop w p) = tenantID p ∧ camp (Stop w p) = camp p ∧
  rate (Stop w p) = rate p ∧ wg (Stop w p) = wg p ∧ sent (Stop w p) = sent p ∧
  lastID (Stop w p) = lastID p ∧ errors (Stop w p) = errors p ∧
  waiter (Stop w p) = waiter p.
Proof. unfold Stop. destruct (stopped p), w; done. Qed.

Lemma OnError_fields T p :
  tenantID (OnError T p) = tenantID p ∧ camp (OnError T p) = camp p ∧
  rate (OnError T p) = rate p ∧ wg (OnError T p) = wg p ∧
  sent (OnError T p) = sent p ∧ lastID (OnError T p) = lastID p ∧
  waiter (OnError T p) = waiter p.
Proof.
  unfold OnError. repeat case_match; try done.
  destruct (Stop_fields true (set_errors (uint64 (errors p + 1)) p))
    as (-> & -> & -> & -> & -> & -> & _ & ->).
  done.
Qed.

Lemma OnError_errors T p :
  errors (OnError T p) = if T <? 1 then errors p else uint64 (errors p + 1).
Proof.
  unfold OnError. repeat case_match; try done.
  by destruct (Stop_fields true (set_errors (uint64 (errors p + 1)) p))
    as (_&_&_&_&_&_&->&_).
Qed.

(** The flags after [OnError]: they are set together when the count has
    reached the threshold on a pipe that was not stopped, and are left as
    they were otherwise. *)
Lemma OnError_flags T p :
  (1 ≤ T ∧ T ≤ int64 (uint64 (errors p + 1)) ∧ stopped p = false ∧
   stopped (OnError T p) = true ∧ withErrors (OnError T p) = true)
  ∨ ((T < 1 ∨ int64 (uint64 (errors p + 1)) < T ∨ stopped p = true) ∧
     stopped (OnError T p) = stopped p ∧ withErrors (OnError T p) = withErrors p).
Proof.
  unfold OnError.
  destruct (T <? 1) eqn:H1; [right; split; [left; lia|done]|].
  simpl. destruct (int64 (uint64 (errors p + 1)) <? T) eqn:H2;
    [right; split; [right; left; lia|done]|].
  destruct (stopped p) eqn:H3.
  - right. split; [by right; right|]. rewrite Stop_noop by done. done.
  - left. unfold Stop. simpl. rewrite H3. simpl. repeat split; try done; lia.
Qed.

(** Once a pipe is stopped, no operation of the engine changes its flags. *)
Definition flagsKept (q q' : tenantPipe) : Prop :=
  stopped q = true → stopped q' = true ∧ withErrors q' = withErrors q.

Lemma pipeOp_flagsKept T e q q' : pipeOp T e q q' → flagsKept q q'.
Proof.
  intros H Hs. destruct H; simpl; try done.
  - unfold workerPushed. destruct err; [|done].
    destruct (OnError_flags T (set_wg (wgDone (wg p)) p)) as [H|H]; simpl in H.
    + destruct H as (_ & _ & H & _). congruence.
    + destruct H as (_ & -> & ->). done.
  - unfold workerStore. by case_match.
  - by rewrite Stop_noop.
Qed.

Lemma flagsKept_exec evs t a p :
  objs t !! a = Some p → stopped p = true →
  ∃ p', objs (exec evs t) !! a = Some p' ∧
        stopped p' = true ∧ withErrors p' = withErrors p.
Proof.
  intros Hp Hs.
  destruct (exec_pipe_invariant flagsKept evs t a p) as (p' & Hp' & HR); try done.
  - intros q1 q2 q3 H12 H23 H1. destruct (H12 H1) as [H2 E2].
    destruct (H23 H2) as [H3 E3]. split; congruence.
  - intros e q q' _. apply pipeOp_flagsKept.
  - exists p'. split; [done|]. by apply HR.
Qed.

(** ** What an operation adds to the trace *)

Definition added (t t' : tenantInstanceManager) : list action :=
  drop (length (trace t)) (trace t').

Lemma added_app t t' l : trace t' = trace t ++ l → added t t' = l.
Proof. intros H. unfold added. rewrite H. by rewrite drop_app_length. Qed.

(** Modelled from the spec: the Store behind the interface [TenantStore],
    which is not part of the sources at hand, as far as the status of
    campaigns goes: section 6 of the specification lists
    [UpdateCampaignStatus(id, status)], which records the status of the
    campaign of a tenant, and no other call writes it. *)
Definition storeStatus (st : gmap (Z * Z) string) (x : action) : gmap (Z * Z) string :=
  match x with
  | UpdateTenantCampaignStatus tenant id s => <[(tenant, id) := s]> st
  | _ => st
  end.

Definition isNotify (x : action) : bool :=
  match x with fnNotify _ _ _ _ => true | _ => false end.

Definition isStatusUpdate (x : action) : bool :=
  match x with UpdateTenantCampaignStatus _ _ _ => true | _ => false end.

Definition isCountsUpdate (x : action) : bool :=
  match x with UpdateTenantCampaignCounts _ _ _ _ _ => true | _ => false end.

(** The number of actions of a list that satisfy a test. *)
Fixpoint cnt {A} (f : A → bool) (l : list A) : Z :=
  match l with
  | [] => 0
  | x :: l => (if f x then 1 else 0) + cnt f l
  end.

Lemma cnt_app {A} (f : A → bool) l1 l2 : cnt f (l1 ++ l2) = cnt f l1 + cnt f l2.
Proof. induction l1 as [|x l1 IH]; simpl; [done|]. rewrite IH. lia. Qed.

Lemma cnt_nonneg {A} (f : A → bool) l : 0 ≤ cnt f l.
Proof. induction l as [|x l IH]; simpl; [done|]. case_match; lia. Qed.

(** What [cleanup] adds to the trace in its three cases. *)
Lemma cleanup_added_withErrors a tp resp t :
  withErrors tp = true →
  added t (cleanup a tp resp t) =
    [Cleanup a;
     UpdateTenantCampaignCounts (tenantID tp) (campID (camp tp)) 0 (sent tp)
       (int64 (lastID tp));
     UpdateTenantCampaignStatus (tenantID tp) (campID (camp tp)) CampaignStatusPaused;
     fnNotify (tenantID tp) (campID (camp tp)) CampaignStatusPaused "Too many errors"].
Proof.
  intros H. apply added_app. unfold cleanup. rewrite H. simpl.
  by rewrite <- !app_assoc.
Qed.

Lemma cleanup_added_stopped a tp resp t :
  withErrors tp = false → stopped tp = true →
  added t (cleanup a tp resp t) =
    [Cleanup a;
     UpdateTenantCampaignCounts (tenantID tp) (campID (camp tp)) 0 (sent tp)
       (int64 (lastID tp))].
Proof.
  intros H1 H2. apply added_app. unfold cleanup. rewrite H1, H2. simpl.
  by rewrite <- !app_assoc.
Qed.

Lemma cleanup_pipes a tp resp t :
  pipes (cleanup a tp resp t) = delete (campID (camp tp)) (pipes t).
Proof. unfold cleanup. repeat case_match; done. Qed.

Lemma waitIter_fires a resp t tp :
  objs t !! a = Some tp → waiter tp = true → wgCounter (wg tp) = 0 →
  waitIter a resp t = cleanup a tp resp (updPipe a (set_waiter false) t).
Proof.
  intros H1 H2 H3. unfold waitIter. rewrite H1, H2, H3. done.
Qed.

(** ** A small instance for the examples *)

Definition exConfig : TenantConfig :=
  mkTenantConfig
    (mkConfig 100 2 10 2 true (10 * Second) 2 "noreply@example.com"
              "http://localhost:9000" true)
    7 "noreply@example.com" "" 0 "" "" false false "" "" "" "" "" 100 2 10 2.

Definition exInstance : tenantInstanceManager :=
  default (createTenantInstance 7 exConfig 0)
          (AddMessenger "email" (createTenantInstance 7 exConfig 0)).

Definition exCampaign : Campaign :=
  mkCampaign 1 "welcome" "email" CampaignStatusRunning 0 0 [] [].

Definition exDue : dueCampaign := mkDue exCampaign false (λ _, None).

Definition exSub (n : Z) : subInput :=
  mkSubInput (mkSubscriber n "reader@example.com") false 0 0 0.

(** The campaign has been picked up, a batch of three subscribers has been
    queued, and two workers have received a message each. *)
Definition exRunning : tenantInstanceManager :=
  exec [EvScan (Some [exDue]); EvRun (Some [exSub 5; exSub 10; exSub 11]);
        EvRecv; EvRecv] exInstance.

(** ** Manual stop *)

(** C9. [Stop] is idempotent and the first writer wins on the with-errors
    flag: once the stopped flag of a pipe is set, every later [Stop] call,
    [Stop(true)] of the error threshold included, leaves the pipe as it is,
    and along every run of the engine the two flags stay as they are. So a
    pipe that is stopped through [StopCampaign] while its with-errors flag is
    not set is never marked with-errors, whatever errors follow, and when its
    wait group lets [cleanup] run, [cleanup] reports the counts and nothing
    else: no status is written and no notification is sent. *)
Theorem Stop_first_writer_wins (t : tenantInstanceManager) (a : nat) (tp : tenantPipe) :
  objs t !! a = Some tp →
  (stopped tp = true →
     (∀ w, Stop w tp = tp) ∧
     (∀ T, stopped (OnError T tp) = true ∧ withErrors (OnError T tp) = withErrors tp) ∧
     ∀ evs, ∃ tp', objs (exec evs t) !! a = Some tp' ∧
                   stopped tp' = true ∧ withErrors tp' = withErrors tp) ∧
  (withErrors tp = false →
     ∀ id, pipes t !! id = Some a →
     ∀ evs, ∃ tp', objs (exec evs (StopCampaign id t)) !! a = Some tp' ∧
                   stopped tp' = true ∧ withErrors tp' = false ∧
                   ∀ resp t',
                     cnt isStatusUpdate (added t' (cleanup a tp' resp t')) = 0 ∧
                     cnt isNotify (added t' (cleanup a tp' resp t')) = 0).
Proof.
  intros Hobj. split.
  - intros Hs. split; [intros w; by apply Stop_noop|]. split.
    + intros T. destruct (OnError_flags T tp) as [H|H].
      * destruct H as (_ & _ & H & _). congruence.
      * destruct H as (_ & -> & ->). done.
    + intros evs. by apply flagsKept_exec.
  - intros Hw id Hid evs.
    assert (Hobj' : objs (StopCampaign id t) !! a = Some (Stop false tp)).
    { unfold StopCampaign. rewrite Hid. simpl.
      by rewrite list_lookup_alter_eq, Hobj. }
    destruct (flagsKept_exec evs _ a _ Hobj' (Stop_stopped false tp))
      as (tp' & Hp' & Hs' & Hw').
    assert (Hwf : withErrors (Stop false tp) = false).
    { unfold Stop. by destruct (stopped tp). }
    exists tp'. split; [done|]. split; [done|]. split; [congruence|].
    intros resp t'. rewrite cleanup_added_stopped by congruence. done.
Qed.

Lemma Stop_first_writer_wins_witness :
  objs exRunning !! 0%nat = Some (mkPipe 7 exCampaign 0 (mkWG 4 0) 0 0 0 false false true) ∧
  withErrors (mkPipe 7 exCampaign 0 (mkWG 4 0) 0 0 0 false false true) = false ∧
  pipes exRunning !! 1 = Some 0%nat ∧
  ∃ tp', objs (exec [EvPush 0 true; EvPush 0 true] (StopCampaign 1 exRunning)) !! 0%nat
           = Some tp' ∧
         stopped tp' = true ∧ withErrors tp' = false.
Proof.
  assert (H : objs exRunning !! 0%nat
              = Some (mkPipe 7 exCampaign 0 (mkWG 4 0) 0 0 0 false false true))
    by (vm_compute; reflexivity).
  split; [exact H|]. split; [reflexivity|]. split; [vm_compute; reflexivity|].
  destruct (Stop_first_writer_wins exRunning 0%nat _ H) as [_ H2].
  destruct (H2 eq_refl 1 ltac:(vm_compute; reflexivity)
               [EvPush 0 true; EvPush 0 true]) as (tp' & H3 & H4 & H5 & _).
  exists tp'. split; [exact H3|]. split; [exact H4|exact H5].
Defined.

(** C3. A pipe is stopped through [StopCampaign] while its with-errors flag
    is not set (the error threshold has not been reached), and the engine
    runs on. When the wait group of the pipe is at zero and the waiting
    goroutine runs [cleanup], the only call to the Store is the report of the
    final counts: the status of the campaign in the Store is what it was, and
    no notification is sent. *)
Theorem manual_stop_keeps_status (t : tenantInstanceManager) (id : Z) (a : nat)
    (tp : tenantPipe) :
  pipes t !! id = Some a →
  objs t !! a = Some tp →
  withErrors tp = false →
  ∀ evs resp st tp1,
    objs (exec evs (StopCampaign id t)) !! a = Some tp1 →
    waiter tp1 = true →
    wgCounter (wg tp1) = 0 →
    let t1 := exec evs (StopCampaign id t) in
    let t2 := step (EvWait a resp) t1 in
    added t1 t2 =
      [Cleanup a;
       UpdateTenantCampaignCounts (tenantID tp1) (campID (camp tp1)) 0 (sent tp1)
         (int64 (lastID tp1))] ∧
    foldl storeStatus st (added t1 t2) = st ∧
    cnt isNotify (added t1 t2) = 0 ∧
    cnt isStatusUpdate (added t1 t2) = 0 ∧
    cnt isCountsUpdate (added t1 t2) = 1.
Proof.
  intros Hid Hobj Hw evs resp st tp1 Hobj1 Hwait Hzero t1 t2.
  assert (Hobj' : objs (StopCampaign id t) !! a = Some (Stop false tp)).
  { unfold StopCampaign. rewrite Hid. simpl.
    by rewrite list_lookup_alter_eq, Hobj. }
  destruct (flagsKept_exec evs _ a _ Hobj' (Stop_stopped false tp))
    as (tp' & Hp' & Hs' & Hw').
  assert (tp' = tp1) as -> by congruence.
  assert (Hwf : withErrors tp1 = false).
  { rewrite Hw'. unfold Stop. by destruct (stopped tp). }
  assert (E : added t1 t2 =
    [Cleanup a;
     UpdateTenantCampaignCounts (tenantID tp1) (campID (camp tp1)) 0 (sent tp1)
       (int64 (lastID tp1))]).
  { unfold t2. simpl. rewrite (waitIter_fires a resp t1 tp1) by done.
    apply (cleanup_added_stopped a tp1 resp (updPipe a (set_waiter false) t1));
      done. }
  rewrite E. done.
Qed.

Lemma manual_stop_keeps_status_witness :
  pipes exRunning !! 1 = Some 0%nat ∧
  (∃ tp, objs exRunning !! 0%nat = Some tp ∧ withErrors tp = false) ∧
  let t1 := exec [EvPush 0 true; EvPush 0 false; EvFinish 0; EvRecv; EvRun (Some [])]
                 (StopCampaign 1 exRunning) in
  ∃ tp1, objs t1 !! 0%nat = Some tp1 ∧ waiter tp1 = true ∧ wgCounter (wg tp1) = 0 ∧
    added t1 (step (EvWait 0 None) t1) =
      [Cleanup 0;
       UpdateTenantCampaignCounts (tenantID tp1) (campID (camp tp1)) 0 (sent tp1)
         (int64 (lastID tp1))].
Proof.
  split; [vm_compute; reflexivity|].
  split; [eexists; split; [vm_compute; reflexivity|reflexivity]|].
  intros t1. eexists. split; [vm_compute; reflexivity|].
  split; [reflexivity|]. split; [reflexivity|].
  eapply (manual_stop_keeps_status exRunning 1 0%nat _
            ltac:(vm_compute; reflexivity) ltac:(vm_compute; reflexivity) eq_refl
            [EvPush 0 true; EvPush 0 false; EvFinish 0; EvRecv; EvRun (Some [])]
            None ∅ _ ltac:(vm_compute; reflexivity) eq_refl eq_refl).
Defined.

(** ** What a failed delivery changes *)




(** ** The watermark *)

(** Without a step of another worker between the load and the store, a
    completed delivery moves the watermark to the maximum of its value and
    the subscriber id. *)
Lemma onSent_watermark id p : lastID (onSent id p) = Z.max (lastID p) (uint64 id).
Proof.
  unfold onSent, workerStore. destruct (lastID p <? uint64 id) eqn:H; simpl; lia.
Qed.

Lemma workerPush_then_Finish_watermark t k msg a p :
  inflight t !! k = Some (msg, Pushing) → msgPipe msg = Some a →
  objs t !! a = Some p →
  lastID <$> objs (exec [EvPush k false; EvFinish k] t) !! a
  = Some (Z.max (lastID p) (uint64 (subID (msgSubscriber msg)))).
Proof.
  intros Hk Hm Hobj. simpl. unfold workerPush. rewrite Hk, Hm, Hobj. simpl.
  unfold workerFinish. simpl.
  rewrite list_lookup_insert_eq by (by eapply lookup_lt_Some).
  rewrite Hm. simpl. rewrite list_lookup_alter_eq, list_lookup_alter_eq, Hobj.
  simpl. f_equal. unfold workerStore.
  destruct (lastID p <? uint64 (subID (msgSubscriber msg))) eqn:H; simpl; lia.
Qed.

(** C4. The watermark of a pipe can decrease: two workers have each pushed
    a message of the pipe, to the subscribers 5 and 10; both load the
    watermark 0 after their push; the worker of subscriber 10 stores 10; the
    worker of subscriber 5, whose comparison was with the stale 0, then
    stores 5. *)
Lemma watermark_decreases :
  let t1 := exec [EvPush 0 false; EvPush 1 false; EvFinish 1] exRunning in
  lastID <$> objs exRunning !! 0%nat = Some 0 ∧
  lastID <$> objs t1 !! 0%nat = Some 10 ∧
  lastID <$> objs (step (EvFinish 0) t1) !! 0%nat = Some 5.
Proof. vm_compute. repeat split. Qed.

(** ** The sent counter *)


Lemma omap_lookup_ext {B} (f : tenantPipe → B) (o1 o2 : list tenantPipe)
    (l : list (Z * nat)) :
  (∀ e, e ∈ l → o1 !! e.2 = o2 !! e.2) →
  omap (λ e : Z * nat, f <$> o1 !! e.2) l = omap (λ e : Z * nat, f <$> o2 !! e.2) l.
Proof.
  induction l as [|x l IH]; intros H; [done|]. simpl.
  rewrite (H x) by left.
  assert (E : omap (λ e : Z * nat, f <$> o1 !! e.2) l
              = omap (λ e : Z * nat, f <$> o2 !! e.2) l)
    by (apply IH; intros e He; apply H; by right).
  unfold omap in E. by rewrite E.
Qed.

Lemma collect_Some t ids counts (e : Z * nat) q :
  objs t !! e.2 = Some q →
  collect (t, (ids, counts)) e
  = (updPipe e.2 (set_sent 0) t, (ids ++ [campID (camp q)], counts ++ [sent q])).
Proof. intros H. unfold collect. simpl. by rewrite H. Qed.

Lemma collect_None t ids counts (e : Z * nat) :
  objs t !! e.2 = None → collect (t, (ids, counts)) e = (t, (ids, counts)).
Proof. intros H. unfold collect. simpl. by rewrite H. Qed.

Lemma omap_cons {A B} (f : A → option B) x l :
  omap f (x :: l) = match f x with Some y => y :: omap f l | None => omap f l end.
Proof. done. Qed.

(** What [getCurrentCampaigns] returns and does when no two entries of the
    registry hold the same pipe. *)
Lemma collect_fold (l : list (Z * nat)) :
  NoDup l.*2 →
  ∀ t ids counts,
    let r := foldl collect (t, (ids, counts)) l in
    r.2.1 = ids ++ omap (λ e : Z * nat, campID ∘ camp <$> objs t !! e.2) l ∧
    r.2.2 = counts ++ omap (λ e : Z * nat, sent <$> objs t !! e.2) l ∧
    trace r.1 = trace t ∧ tim_tenantID r.1 = tim_tenantID t ∧
    ∀ b p, objs t !! b = Some p →
      objs r.1 !! b = Some (if bool_decide (b ∈ l.*2) then set_sent 0 p else p).
Proof.
  induction l as [|e l IH]; intros Hnd t ids counts r.
  - unfold r. simpl. rewrite !app_nil_r. repeat split; try done.
  - rewrite fmap_cons in Hnd. apply NoDup_cons in Hnd as [Hnotin Hnd].
    specialize (IH Hnd).
    assert (Hother : ∀ x, x ∈ l →
              objs (updPipe e.2 (set_sent 0) t) !! x.2 = objs t !! x.2).
    { intros x Hx. simpl. apply list_lookup_alter_ne. intros E. apply Hnotin.
      rewrite E. apply list_elem_of_fmap. by exists x. }
    rewrite !omap_cons. unfold r. cbn [foldl].
    destruct (objs t !! e.2) as [q|] eqn:Hq.
    + rewrite (collect_Some _ _ _ _ _ Hq).
      destruct (IH (updPipe e.2 (set_sent 0) t) (ids ++ [campID (camp q)])
                   (counts ++ [sent q])) as (E1 & E2 & E3 & E4 & E5).
      rewrite E1, E2, E3, E4.
      rewrite !(omap_lookup_ext _ _ _ _ Hother).
      rewrite <- !app_assoc. repeat split; try done.
      intros b p Hb. rewrite ?fmap_cons. destruct (decide (b = e.2)) as [->|Hne].
      * rewrite (E5 e.2 (set_sent 0 p))
          by (simpl; by rewrite list_lookup_alter_eq, Hb).
        rewrite (bool_decide_eq_true_2 (e.2 ∈ e.2 :: l.*2)) by left.
        by destruct (bool_decide (e.2 ∈ l.*2)).
      * rewrite (E5 b p) by (simpl; by rewrite list_lookup_alter_ne).
        assert (bool_decide (b ∈ l.*2) = bool_decide (b ∈ e.2 :: l.*2)) as ->;
          [|done].
        apply bool_decide_ext. split; [by right|].
        intros H. apply elem_of_cons in H as [H|H]; done.
    + rewrite (collect_None _ _ _ _ Hq).
      destruct (IH t ids counts) as (E1 & E2 & E3 & E4 & E5).
      rewrite E1, E2, E3, E4. repeat split; try done.
      intros b p Hb. rewrite (E5 b p Hb). rewrite ?fmap_cons.
      assert (bool_decide (b ∈ l.*2) = bool_decide (b ∈ e.2 :: l.*2)) as ->;
        [|done].
      apply bool_decide_ext. split; [by right|].
      intros H. apply elem_of_cons in H as [H|H]; [|done].
      congruence.
Qed.







(** ** Pipes that cannot be built *)

(** A due campaign whose template does not compile is skipped, but it is not
    marked cancelled: the only call of the scan to the Store is the fetch of
    the due campaigns. *)
Lemma failed_template_not_cancelled :
  let d := mkDue exCampaign true (λ _, None) in
  newTenantPipe d exInstance = (exInstance, None) ∧
  added exInstance (step (EvScan (Some [d])) exInstance)
  = [NextTenantCampaigns 7 [] []] ∧
  cnt isStatusUpdate (added exInstance (step (EvScan (Some [d])) exInstance)) = 0 ∧
  pipes (step (EvScan (Some [d])) exInstance) = ∅.
Proof. vm_compute. repeat split. Qed.

(** C6, amended. For a due campaign whose messenger name is not registered,
    the body of the scan loop marks the campaign cancelled in the Store and
    does nothing else: no pipe is allocated, registered or submitted, so the
    engine keeps nothing that it could retry. When the messenger is known
    and the template fails to compile or an attachment cannot be fetched,
    the campaign is skipped in the same way but no status is written. These
    are the only ways in which the construction of a pipe fails. *)
Theorem pipe_construction_failure (t : tenantInstanceManager) (d : dueCampaign) :
  (campMessenger (dueCamp d) ∉ messengers t →
     (newTenantPipe d t).2 = None ∧
     startCampaign t d
     = emit (UpdateTenantCampaignStatus (tim_tenantID t) (campID (dueCamp d))
               CampaignStatusCancelled) t ∧
     ∀ st, foldl storeStatus st (added t (startCampaign t d))
           !! (tim_tenantID t, campID (dueCamp d))
           = Some CampaignStatusCancelled) ∧
  (campMessenger (dueCamp d) ∈ messengers t →
     (tplErr d = true ∨
      attachMedia (getAttachment d) (campMediaIDs (dueCamp d))
                  (campAttachments (dueCamp d)) = None) →
     (newTenantPipe d t).2 = None ∧ startCampaign t d = t) ∧
  ((newTenantPipe d t).2 = None →
     campMessenger (dueCamp d) ∉ messengers t ∨ tplErr d = true ∨
     attachMedia (getAttachment d) (campMediaIDs (dueCamp d))
                 (campAttachments (dueCamp d)) = None).
Proof.
  unfold startCampaign, newTenantPipe. split; [|split].
  - intros H. rewrite bool_decide_eq_false_2 by done. simpl.
    split; [done|]. split; [done|]. intros st.
    rewrite (added_app _ _ [UpdateTenantCampaignStatus (tim_tenantID t)
                              (campID (dueCamp d)) CampaignStatusCancelled])
      by done.
    simpl. apply lookup_insert_eq.
  - intros H Hfail. rewrite bool_decide_eq_true_2 by done. simpl.
    destruct (tplErr d); [done|]. destruct Hfail as [Hfail|Hfail]; [done|].
    by rewrite Hfail.
  - case_bool_decide; simpl; [|by left].
    destruct (tplErr d); [by right; left|].
    destruct (attachMedia _ _ _); [done|]. by right; right.
Qed.

Lemma pipe_construction_failure_witness :
  let d := mkDue (mkCampaign 2 "digest" "sms" CampaignStatusRunning 0 0 [] [])
                 false (λ _, None) in
  (campMessenger (dueCamp d) ∉ messengers exInstance) ∧
  (startCampaign exInstance d
   = emit (UpdateTenantCampaignStatus 7 2 CampaignStatusCancelled) exInstance) ∧
  (campMessenger (dueCamp exDue) ∈ messengers exInstance) ∧
  (startCampaign exInstance (mkDue exCampaign true (λ _, None)) = exInstance).
Proof.
  intros d.
  assert (H1 : campMessenger (dueCamp d) ∉ messengers exInstance)
    by (apply (bool_decide_unpack _); vm_compute; exact I).
  assert (H2 : campMessenger (dueCamp exDue) ∈ messengers exInstance)
    by (apply (bool_decide_unpack _); vm_compute; exact I).
  split; [exact H1|].
  split; [apply (pipe_construction_failure exInstance d); exact H1|].
  split; [exact H2|].
  apply (pipe_construction_failure exInstance (mkDue exCampaign true (λ _, None)));
    [exact H2|left; reflexivity].
Defined.

(** ** loadTenantConfig *)

(** The text of [%d] for an [int]. *)
Definition itoa (z : Z) : string := NilZero.string_of_int (Z.to_int z).

Section LoadTenantConfig.

(** A Go [float64], with the comparison [x > 0] and the conversion [int(x)]. *)
Variable float64 : Type.
Variable gt0 : float64 → bool.
Variable toInt : float64 → Z.

(** A value of [map[string]interface{}] by its dynamic type. *)
Inductive value :=
| VNil
| VBool (b : bool)
| VFloat64 (x : float64)
| VString (s : string)
| VOther.

(** [TenantManager.loadTenantConfig]: [gcfg] is [tm.cfg], [resp] the answer
    of [GetTenantSettings] ([None] for an error); [None] is the error. *)
Definition loadTenantConfig (gcfg : Config) (resp : option (gmap string value))
    (tenant : Z) : option TenantConfig :=
  match resp with
  | None => None
  | Some settings =>
      let fromEmail :=
        match settings !! "from_email" with
        | Some (VString s) => s
        | _ => FromEmail gcfg
        end in
      let smtpHost :=
        match settings !! "smtp_host" with Some (VString s) => s | _ => "" end in
      let smtpPort :=
        match settings !! "smtp_port" with Some (VFloat64 x) => toInt x | _ => 0 end in
      let smtpUsername :=
        match settings !! "smtp_username" with Some (VString s) => s | _ => "" end in
      let smtpPassword :=
        match settings !! "smtp_password" with Some (VString s) => s | _ => "" end in
      let root := RootURL gcfg +:+ "/tenant/" +:+ itoa tenant in
      let batchSize :=
        match settings !! "max_batch_size" with
        | Some (VFloat64 x) => if gt0 x then toInt x else BatchSize gcfg
        | _ => BatchSize gcfg
        end in
      let concurrency :=
        match settings !! "max_concurrency" with
        | Some (VFloat64 x) => if gt0 x then toInt x else Concurrency gcfg
        | _ => Concurrency gcfg
        end in
      let msgRate :=
        match settings !! "message_rate" with
        | Some (VFloat64 x) => if gt0 x then toInt x else MessageRate gcfg
        | _ => MessageRate gcfg
        end in
      let maxErrors :=
        match settings !! "max_send_errors" with
        | Some (VFloat64 x) => if gt0 x then toInt x else MaxSendErrors gcfg
        | _ => MaxSendErrors gcfg
        end in
      Some (mkTenantConfig gcfg tenant fromEmail smtpHost smtpPort smtpUsername
              smtpPassword false false
              root
              (root +:+ "/subscription/%s/%s")
              (root +:+ "/subscription/optin/%s?l=%s")
              (root +:+ "/campaign/%s/%s")
              (root +:+ "/archive")
              batchSize concurrency msgRate maxErrors)
  end.

(** In the words of the specification: the stored setting of a tenant under
    a key when it is present and positive, and the global value otherwise. *)
Definition storedPositive (settings : gmap string value) (key : string)
    : option float64 :=
  match settings !! key with
  | Some (VFloat64 x) => if gt0 x then Some x else None
  | _ => None
  end.

Definition effective (settings : gmap string value) (key : string) (global : Z) : Z :=
  match storedPositive settings key with
  | Some x => toInt x
  | None => global
  end.

End LoadTenantConfig.

Arguments VNil {float64}.
Arguments VBool {float64} b.
Arguments VFloat64 {float64} x.
Arguments VString {float64} s.
Arguments VOther {float64}.

Lemma itoa_inj a b : itoa a = itoa b → a = b.
Proof.
  unfold itoa. intros H.
  assert (Hnil : ∀ z, Z.to_int z ≠ Decimal.Pos Decimal.Nil ∧
                      Z.to_int z ≠ Decimal.Neg Decimal.Nil).
  { intros z. split; intros E; pose proof (of_to z) as Hz; rewrite E in Hz;
      simpl in Hz; subst z; vm_compute in E; discriminate E. }
  assert (E : Some (Z.to_int a) = Some (Z.to_int b)).
  { rewrite <- (NilZero.isi (Z.to_int a)) by apply Hnil.
    rewrite <- (NilZero.isi (Z.to_int b)) by apply Hnil. by rewrite H. }
  injection E as E. rewrite <- (of_to a), <- (of_to b). by rewrite E.
Qed.

Lemma string_length_app (s1 s2 : string) :
  String.length (s1 +:+ s2) = (String.length s1 + String.length s2)%nat.
Proof. induction s1 as [|c s1 IH]; simpl; [done|]. by rewrite IH. Qed.

Lemma string_app_inv_tail (a b s : string) : a +:+ s = b +:+ s → a = b.
Proof.
  revert b. induction a as [|c a IH]; intros [|c' b] H; simpl in *.
  - done.
  - apply (f_equal String.length) in H. simpl in H.
    rewrite !string_length_app in H. simpl in H. lia.
  - apply (f_equal String.length) in H. simpl in H.
    rewrite !string_length_app in H. simpl in H. lia.
  - injection H as -> H. f_equal. by apply IH.
Qed.

Lemma tenant_url_inj (root suffix : string) (a b : Z) :
  (root +:+ "/tenant/" +:+ itoa a) +:+ suffix
  = (root +:+ "/tenant/" +:+ itoa b) +:+ suffix → a = b.
Proof.
  intros H. apply string_app_inv_tail in H.
  apply String.app_inj in H. apply (String.app_inj "/tenant/") in H.
  by apply itoa_inj.
Qed.

Section LoadTenantConfigProperties.

Variable float64 : Type.
Variable gt0 : float64 → bool.
Variable toInt : float64 → Z.

(** C8. The tenant configuration that [loadTenantConfig] produces for the
    instance of a tenant takes the batch size, the concurrency, the message
    rate and the maximum of send errors from the stored settings of the
    tenant when the setting is present (as a number) and positive, and from
    the global configuration otherwise; its URL templates (root,
    unsubscribe, optin, message, archive) are values of the tenant: the
    global root URL followed by the id of the tenant and the path, so that
    two tenants never share one. *)
Theorem tenant_config_overrides (gcfg : Config) (settings : gmap string (value float64))
    (tenant : Z) :
  ∃ tc, loadTenantConfig float64 gt0 toInt gcfg (Some settings) tenant = Some tc ∧
    TenantMaxBatchSize tc
      = effective float64 gt0 toInt settings "max_batch_size" (BatchSize gcfg) ∧
    TenantMaxConcurrency tc
      = effective float64 gt0 toInt settings "max_concurrency" (Concurrency gcfg) ∧
    TenantMessageRate tc
      = effective float64 gt0 toInt settings "message_rate" (MessageRate gcfg) ∧
    TenantMaxSendErrors tc
      = effective float64 gt0 toInt settings "max_send_errors" (MaxSendErrors gcfg) ∧
    TenantRootURL tc = RootURL gcfg +:+ "/tenant/" +:+ itoa tenant ∧
    TenantUnsubURL tc = TenantRootURL tc +:+ "/subscription/%s/%s" ∧
    TenantOptinURL tc = TenantRootURL tc +:+ "/subscription/optin/%s?l=%s" ∧
    TenantMessageURL tc = TenantRootURL tc +:+ "/campaign/%s/%s" ∧
    TenantArchiveURL tc = TenantRootURL tc +:+ "/archive" ∧
    ∀ settings' tenant' tc',
      loadTenantConfig float64 gt0 toInt gcfg (Some settings') tenant' = Some tc' →
      TenantRootURL tc' = TenantRootURL tc ∨ TenantUnsubURL tc' = TenantUnsubURL tc ∨
      TenantOptinURL tc' = TenantOptinURL tc ∨
      TenantMessageURL tc' = TenantMessageURL tc ∨
      TenantArchiveURL tc' = TenantArchiveURL tc →
      tenant' = tenant.
Proof.
  eexists. split; [reflexivity|]. simpl.
  unfold effective, storedPositive.
  split; [by repeat case_match|]. split; [by repeat case_match|].
  split; [by repeat case_match|]. split; [by repeat case_match|].
  do 5 (split; [done|]).
  intros settings' tenant' tc' H Hurl. injection H as <-. simpl in Hurl.
  destruct Hurl as [H|[H|[H|[H|H]]]].
  - apply String.app_inj in H. apply (String.app_inj "/tenant/") in H.
    by apply itoa_inj.
  - by apply (tenant_url_inj (RootURL gcfg) "/subscription/%s/%s").
  - by apply (tenant_url_inj (RootURL gcfg) "/subscription/optin/%s?l=%s").
  - by apply (tenant_url_inj (RootURL gcfg) "/campaign/%s/%s").
  - by apply (tenant_url_inj (RootURL gcfg) "/archive").
Qed.

(** The stored setting is used exactly when it is a positive number. *)
Lemma effective_cases (settings : gmap string (value float64)) key global :
  (∀ x, settings !! key = Some (VFloat64 x) → gt0 x = true →
        effective float64 gt0 toInt settings key global = toInt x) ∧
  (settings !! key = None →
        effective float64 gt0 toInt settings key global = global) ∧
  (∀ x, settings !! key = Some (VFloat64 x) → gt0 x = false →
        effective float64 gt0 toInt settings key global = global) ∧
  (∀ s, settings !! key = Some (VString s) →
        effective float64 gt0 toInt settings key global = global).
Proof.
  unfold effective, storedPositive.
  repeat split; intros; repeat case_match; congruence.
Qed.

End LoadTenantConfigProperties.

(** The settings of a tenant that overrides the batch size, and whose other
    limits are absent, not a number, or not positive; numbers are integers
    here. *)
Definition exSettings : gmap string (value Z) :=
  <["max_batch_size" := VFloat64 50]>
    (<["message_rate" := VString "fast"]>
       (<["max_send_errors" := VFloat64 (-1)]> ∅)).

Lemma tenant_config_overrides_witness :
  ∃ tc, loadTenantConfig Z (Z.ltb 0) id (base exConfig) (Some exSettings) 7 = Some tc ∧
    TenantMaxBatchSize tc = 50 ∧ TenantMaxConcurrency tc = 2 ∧
    TenantMessageRate tc = 10 ∧ TenantMaxSendErrors tc = 2 ∧
    TenantRootURL tc = "http://localhost:9000/tenant/7".
Proof.
  destruct (tenant_config_overrides Z (Z.ltb 0) id (base exConfig) exSettings 7)
    as (tc & H & H1 & H2 & H3 & H4 & H5 & _).
  exists tc. split; [exact H|].
  rewrite H1, H2, H3, H4, H5. vm_compute. repeat split.
Defined.

(** ** The sliding window *)

(** The times at which messages were sent to [campMsgQ], and the starts of
    the windows, in the order of the trace. *)
Definition pushTime (x : action) : option Z :=
  match x with Enqueue _ _ tm => Some tm | _ => None end.

Definition restartOf (x : action) : option Z :=
  match x with WindowRestart s => Some s | _ => None end.

Definition pushTimes (l : list action) : list Z := omap pushTime l.
Definition windowStarts (l : list action) : list Z := omap restartOf l.

Definition isSleep (x : action) : bool :=
  match x with Sleep _ => true | _ => false end.

(** [tm] lies in the window of length [D] that starts at [s]. *)
Definition inWindow (s D tm : Z) : bool := (s <=? tm) && (tm <? s + D).

(** What the sliding window depends on. *)
Definition slideView (t : tenantInstanceManager) : Z * Z * Z * list Z * list Z :=
  (clock t, slidingStart t, slidingCount t, pushTimes (trace t),
   windowStarts (trace t)).

Lemma slideView_emit x t :
  pushTime x = None → restartOf x = None → slideView (emit x t) = slideView t.
Proof.
  intros H1 H2. unfold slideView, pushTimes, windowStarts. simpl.
  rewrite !omap_app. simpl. rewrite H1, H2. by rewrite !app_nil_r.
Qed.

Ltac quiet :=
  unfold slideView, pushTimes, windowStarts; simpl;
  rewrite ?omap_app; simpl; rewrite ?app_nil_r; done.

Lemma submit_slideView a t : slideView (submit a t) = slideView t.
Proof. unfold submit. by case_match. Qed.

Lemma startCampaign_slideView t d : slideView (startCampaign t d) = slideView t.
Proof.
  unfold startCampaign, newTenantPipe.
  repeat case_match; simplify_eq; rewrite ?submit_slideView; try done.
  by apply slideView_emit.
Qed.

Lemma collect_slideView acc e : slideView (collect acc e).1 = slideView acc.1.
Proof. unfold collect. by case_match. Qed.

Lemma scanTick_slideView resp t : slideView (scanTick resp t) = slideView t.
Proof.
  unfold scanTick, getCurrentCampaigns.
  assert (H : ∀ l acc, slideView (foldl collect acc l).1 = slideView acc.1).
  { induction l as [|e l IH]; intros acc; simpl; [done|].
    by rewrite IH, collect_slideView. }
  assert (H' : ∀ cs t0, slideView (foldl startCampaign t0 cs) = slideView t0).
  { induction cs as [|d cs IH]; intros t0; simpl; [done|].
    by rewrite IH, startCampaign_slideView. }
  cbv zeta. destruct resp as [cs|]; rewrite ?H'; (rewrite slideView_emit; [|done..]);
    apply H.
Qed.

Lemma cleanup_slideView a tp resp t : slideView (cleanup a tp resp t) = slideView t.
Proof. unfold cleanup. repeat case_match; quiet. Qed.

(** Only the loop of [run] touches the sliding window. *)
Lemma step_slideView e t :
  (∀ resp, e ≠ EvRun resp) → slideView (step e t) = slideView t.
Proof.
  intros Hrun. destruct e; simpl.
  - case_match; [apply scanTick_slideView|done].
  - by destruct (Hrun resp).
  - unfold workerRecv. repeat case_match; quiet.
  - unfold workerPush. repeat case_match; quiet.
  - unfold workerFinish. repeat case_match; quiet.
  - unfold StopCampaign. by case_match.
  - unfold waitIter. repeat case_match; try done.
    by rewrite cleanup_slideView.
  - unfold AddMessenger. by case_match.
Qed.

Lemma cnt_snoc {A} (f : A → bool) l x :
  cnt f (l ++ [x]) = cnt f l + (if f x then 1 else 0).
Proof. rewrite cnt_app. simpl. lia. Qed.

Lemma cnt_none {A} (f : A → bool) l : Forall (λ x, f x = false) l → cnt f l = 0.
Proof.
  induction 1 as [|x l Hx _ IH]; simpl; [done|]. rewrite Hx, IH. done.
Qed.

Lemma inWindow_true s D tm : inWindow s D tm = true ↔ s ≤ tm < s + D.
Proof. unfold inWindow. rewrite andb_true_iff, Z.leb_le, Z.ltb_lt. done. Qed.

Lemma inWindow_false s D tm : inWindow s D tm = false ↔ tm < s ∨ s + D ≤ tm.
Proof.
  unfold inWindow. rewrite andb_false_iff, Z.leb_gt, Z.ltb_ge. done.
Qed.

Lemma hasSliding_true c :
  hasSliding c = true →
  SlidingWindow (base c) = true ∧ 0 < SlidingWindowRate (base c) ∧
  Second < SlidingWindowDuration (base c).
Proof.
  unfold hasSliding. rewrite !andb_true_iff, !Z.ltb_lt. tauto.
Qed.

Lemma int64_small z : - two63 ≤ z < two63 → int64 z = z.
Proof.
  intros H. unfold int64, two64, two63 in *. rewrite Z.mod_small by lia. lia.
Qed.

Section SlidingWindow.

(** The duration [D] and the ceiling [R] of the window, and the time [now0]
    at which the instance was created. *)
Variable D R now0 : Z.

(** What holds of the sliding window between two pushes: the count is below
    the ceiling; no message was pushed at or after the end of the window;
    the window holds at most one push more than the count says (the push on
    which its start was taken), or the producer has slept to its end with at
    most [R + 1] pushes in it; every earlier window has ended and holds at
    most [R + 1] pushes. *)
Definition windowInv (v : Z * Z * Z * list Z * list Z) : Prop :=
  let '(clk, start, count, pushes, starts) := v in
  0 ≤ count < R ∧ start ≤ clk ∧
  Forall (λ tm, tm ≤ clk ∧ tm < start + D) pushes ∧
  (cnt (inWindow start D) pushes ≤ count + 1 ∨
   (start + D ≤ clk ∧ cnt (inWindow start D) pushes ≤ R + 1)) ∧
  Forall (λ s, s = start ∨
               (s + D ≤ start ∧ cnt (inWindow s D) pushes ≤ R + 1))
         (now0 :: starts).

Lemma windowInv_bound clk start count pushes starts s :
  windowInv (clk, start, count, pushes, starts) →
  s ∈ now0 :: starts → cnt (inWindow s D) pushes ≤ R + 1.
Proof.
  intros (H1 & H2 & H3 & H4 & H5) Hs.
  rewrite Forall_forall in H5. destruct (H5 s Hs) as [->|[_ H]]; lia.
Qed.

Lemma pushOne_windowInv a c i t :
  hasSliding (cfg t) = true →
  D = SlidingWindowDuration (base (cfg t)) →
  R = SlidingWindowRate (base (cfg t)) →
  R < two63 →
  windowInv (slideView t) → windowInv (slideView (pushOne a c i t)).
Proof.
  intros Hs HD HR Hmax Hinv. unfold pushOne.
  destruct (renderErr i); [done|]. simpl. rewrite Hs.
  destruct (hasSliding_true _ Hs) as (_ & HRpos & HDpos).
  rewrite <- HD in HDpos. unfold Second in HDpos.
  unfold slide. simpl. rewrite <- HD, <- HR.
  destruct Hinv as (K1 & K3 & K2 & K4 & K5).
  set (clk1 := clock t + Z.of_N (elapsed i)).
  assert (Hclk : clock t ≤ clk1) by (unfold clk1; lia).
  rewrite Forall_forall in K2.
  destruct (D <=? clk1 - slidingStart t) eqn:Hdiff.
  - (* the window has elapsed: it restarts *)
    apply Z.leb_le in Hdiff.
    set (clk2 := clk1 + Z.of_N (lag i)).
    assert (Hclk2 : clk1 ≤ clk2) by (unfold clk2; lia).
    unfold slideView, pushTimes, windowStarts. simpl.
    rewrite !omap_app. simpl. rewrite !app_nil_r.
    fold (pushTimes (trace t)). fold (windowStarts (trace t)).
    assert (Hold0 : ∀ s, slidingStart t + D ≤ s →
              cnt (inWindow s D) (pushTimes (trace t)) = 0).
    { intros s Hle. apply cnt_none. apply Forall_forall. intros tm Htm.
      apply inWindow_false. destruct (K2 tm Htm). lia. }
    split; [lia|]. split; [lia|]. split; [|split].
    + apply Forall_app. split.
      * apply Forall_forall. intros tm Htm. destruct (K2 tm Htm). lia.
      * apply Forall_singleton. lia.
    + left. rewrite cnt_snoc, Hold0 by lia. case_match; lia.
    + assert (Hcur : cnt (inWindow (slidingStart t) D)
                         (pushTimes (trace t) ++ [clk1]) ≤ R + 1).
      { rewrite cnt_snoc.
        assert (inWindow (slidingStart t) D clk1 = false) as ->
          by (apply inWindow_false; lia).
        destruct K4 as [K4|[_ K4]]; lia. }
      rewrite Forall_forall in K5. apply Forall_forall. intros s Hin.
      rewrite app_comm_cons in Hin. apply elem_of_app in Hin as [Hin|Hin].
      * destruct (K5 s Hin) as [->|[Hle Hc]].
        -- right. split; [lia|exact Hcur].
        -- right. split; [lia|]. rewrite cnt_snoc.
           assert (inWindow s D clk1 = false) as ->
             by (apply inWindow_false; lia). lia.
      * apply list_elem_of_singleton in Hin. by left.
  - (* within the window *)
    apply Z.leb_gt in Hdiff.
    assert (K4' : cnt (inWindow (slidingStart t) D) (pushTimes (trace t))
                  ≤ slidingCount t + 1) by (destruct K4 as [K4|[K4 _]]; lia).
    rewrite int64_small by lia.
    assert (Hpast : ∀ s, s + D ≤ slidingStart t →
              cnt (inWindow s D) (pushTimes (trace t) ++ [clk1])
              = cnt (inWindow s D) (pushTimes (trace t))).
    { intros s Hle. rewrite cnt_snoc.
      assert (inWindow s D clk1 = false) as ->
        by (apply inWindow_false; lia). lia. }
    assert (Hcur : cnt (inWindow (slidingStart t) D)
                       (pushTimes (trace t) ++ [clk1]) ≤ slidingCount t + 2).
    { rewrite cnt_snoc. case_match; lia. }
    assert (K5' : Forall (λ s, s = slidingStart t ∨
                    (s + D ≤ slidingStart t ∧
                     cnt (inWindow s D) (pushTimes (trace t) ++ [clk1]) ≤ R + 1))
                    (now0 :: windowStarts (trace t))).
    { rewrite Forall_forall in K5. apply Forall_forall. intros s Hin.
      destruct (K5 s Hin) as [->|[Hle Hc]]; [by left|].
      right. split; [lia|]. rewrite Hpast by lia. lia. }
    destruct (R <=? slidingCount t + 1) eqn:Hreach.
    + (* the count reaches the ceiling: sleep to the end of the window *)
      apply Z.leb_le in Hreach.
      unfold slideView, pushTimes, windowStarts. simpl.
      rewrite !omap_app. simpl. rewrite !app_nil_r.
      fold (pushTimes (trace t)). fold (windowStarts (trace t)).
      fold clk1.
      split; [lia|]. split; [lia|]. split; [|split].
      * apply Forall_app. split.
        -- apply Forall_forall. intros tm Htm. destruct (K2 tm Htm). lia.
        -- apply Forall_singleton. lia.
      * right. split; lia.
      * exact K5'.
    + apply Z.leb_gt in Hreach.
      unfold slideView, pushTimes, windowStarts. simpl.
      rewrite !omap_app. simpl. rewrite !app_nil_r.
      fold (pushTimes (trace t)). fold (windowStarts (trace t)).
      fold clk1.
      split; [lia|]. split; [lia|]. split; [|split].
      * apply Forall_app. split.
        -- apply Forall_forall. intros tm Htm. destruct (K2 tm Htm). lia.
        -- apply Forall_singleton. lia.
      * left. lia.
      * exact K5'.
Qed.

End SlidingWindow.

Lemma pushBatch_windowInv D R now0 a c subs t :
  hasSliding (cfg t) = true →
  D = SlidingWindowDuration (base (cfg t)) →
  R = SlidingWindowRate (base (cfg t)) →
  R < two63 →
  windowInv D R now0 (slideView t) →
  windowInv D R now0 (slideView (pushBatch a c subs t)).
Proof.
  unfold pushBatch. revert t.
  induction subs as [|i subs IH]; intros t Hs HD HR Hmax Hinv; simpl; [done|].
  apply IH; rewrite ?pushOne_cfg; try done.
  by apply pushOne_windowInv.
Qed.

Lemma windowInv_eq D R now0 v v' :
  windowInv D R now0 v → v' = v → windowInv D R now0 v'.
Proof. by intros H ->. Qed.

Lemma runIter_windowInv D R now0 resp t :
  hasSliding (cfg t) = true →
  D = SlidingWindowDuration (base (cfg t)) →
  R = SlidingWindowRate (base (cfg t)) →
  R < two63 →
  windowInv D R now0 (slideView t) →
  windowInv D R now0 (slideView (runIter resp t)).
Proof.
  intros Hs HD HR Hmax Hinv. unfold runIter.
  destruct (nextPipes t) as [|a rest]; [done|]. cbv zeta.
  change (objs (set_nextPipes rest t)) with (objs t).
  destruct (objs t !! a) as [tp|];
    [|apply (windowInv_eq D R now0 (slideView t)); [exact Hinv|quiet]].
  unfold NextSubscribers. cbv zeta.
  destruct resp as [[|i subs]|].
  - apply (windowInv_eq D R now0 (slideView t)); [exact Hinv|quiet].
  - rewrite submit_slideView. apply pushBatch_windowInv; try done.
    apply (windowInv_eq D R now0 (slideView t)); [exact Hinv|quiet].
  - apply (windowInv_eq D R now0 (slideView t)); [exact Hinv|quiet].
Qed.

Lemma exec_windowInv D R now0 evs t :
  hasSliding (cfg t) = true →
  D = SlidingWindowDuration (base (cfg t)) →
  R = SlidingWindowRate (base (cfg t)) →
  R < two63 →
  windowInv D R now0 (slideView t) →
  windowInv D R now0 (slideView (exec evs t)).
Proof.
  unfold exec. revert t.
  induction evs as [|e evs IH]; intros t Hs HD HR Hmax Hinv; simpl; [done|].
  apply IH; rewrite ?step_cfg; try done.
  assert (Hcase : (∃ resp, e = EvRun resp) ∨ ∀ resp, e ≠ EvRun resp).
  { destruct e; try (by right); left; by eexists. }
  destruct Hcase as [[resp ->]|Hrun].
  - by apply runIter_windowInv.
  - by rewrite step_slideView.
Qed.

(** *** Any window of length [D]

    A window of length [D] that starts elsewhere than the windows of the
    producer can run across a restart: it then holds counted pushes of the
    window before the restart, the push on which the restart was found due,
    and counted pushes of the window after it. *)

Lemma cnt_mono {A} (f g : A → bool) l :
  (∀ x, f x = true → g x = true) → cnt f l ≤ cnt g l.
Proof.
  intros H. induction l as [|x l IH]; simpl; [lia|].
  destruct (f x) eqn:E; [rewrite (H x E); lia|]. destruct (g x); lia.
Qed.

Lemma cnt_after_mono y y' l : y ≤ y' → cnt (Z.ltb y') l ≤ cnt (Z.ltb y) l.
Proof.
  intros H. apply cnt_mono. intros x Hx. apply Z.ltb_lt in Hx. apply Z.ltb_lt. lia.
Qed.

Lemma cnt_window_after x D y l : y < x → cnt (inWindow x D) l ≤ cnt (Z.ltb y) l.
Proof.
  intros H. apply cnt_mono. intros tm Htm. apply inWindow_true in Htm.
  apply Z.ltb_lt. lia.
Qed.

Lemma cnt_after_none y l : Forall (λ tm, tm ≤ y) l → cnt (Z.ltb y) l = 0.
Proof.
  intros H. apply cnt_none. eapply Forall_impl; [exact H|].
  intros tm Htm. apply Z.ltb_ge. exact Htm.
Qed.

Section AnyWindow.

Variable D R : Z.

(** What holds of the pushes between two of them: none is later than the
    clock; those later than the start of the window are at most the count,
    and those later than [D] before the start of the window at most
    [R + 1] more (or the producer has slept to the end of the window, and
    they are at most [R] and [2 * R + 1]); and no window of length [D]
    holds more than [2 * R + 1] of them. *)
Definition spanInv (v : Z * Z * Z * list Z * list Z) : Prop :=
  let '(clk, start, count, pushes, _) := v in
  0 ≤ count < R ∧ start ≤ clk ∧
  Forall (λ tm, tm ≤ clk) pushes ∧
  ((cnt (Z.ltb start) pushes ≤ count ∧
    cnt (Z.ltb (start - D)) pushes ≤ R + 1 + count) ∨
   (start + D ≤ clk ∧ cnt (Z.ltb start) pushes ≤ R ∧
    cnt (Z.ltb (start - D)) pushes ≤ 2 * R + 1)) ∧
  ∀ x, cnt (inWindow x D) pushes ≤ 2 * R + 1.

Lemma pushOne_spanInv a c i t :
  hasSliding (cfg t) = true →
  D = SlidingWindowDuration (base (cfg t)) →
  R = SlidingWindowRate (base (cfg t)) →
  R < two63 →
  spanInv (slideView t) → spanInv (slideView (pushOne a c i t)).
Proof.
  intros Hs HD HR Hmax Hinv. unfold pushOne.
  destruct (renderErr i); [done|]. simpl. rewrite Hs.
  destruct (hasSliding_true _ Hs) as (_ & HRpos & HDpos).
  rewrite <- HD in HDpos. rewrite <- HR in HRpos. unfold Second in HDpos.
  unfold slide. simpl. rewrite <- HD, <- HR.
  destruct Hinv as (K1 & K2 & K3 & K4 & K5).
  set (clk1 := clock t + Z.of_N (elapsed i)).
  assert (Hclk : clock t ≤ clk1) by (unfold clk1; lia).
  assert (Hm : cnt (Z.ltb (slidingStart t)) (pushTimes (trace t)) ≤ R)
    by (destruct K4 as [[K4 _]|(_ & K4 & _)]; lia).
  assert (Hwin : cnt (Z.ltb (clk1 - D)) (pushTimes (trace t)) ≤ 2 * R →
            ∀ x, cnt (inWindow x D) (pushTimes (trace t) ++ [clk1]) ≤ 2 * R + 1).
  { intros Hlast x. rewrite cnt_snoc.
    destruct (inWindow x D clk1) eqn:E; [|specialize (K5 x); lia].
    apply inWindow_true in E.
    pose proof (cnt_window_after x D (clk1 - D) (pushTimes (trace t))
                  ltac:(lia)). lia. }
  assert (Hle : ∀ y, clock t ≤ y →
            Forall (λ tm, tm ≤ y) (pushTimes (trace t) ++ [clk1]) ∨ y < clk1).
  { intros y Hy. destruct (decide (clk1 ≤ y)) as [H|H]; [left|right; lia].
    apply Forall_app. split; [|by apply Forall_singleton].
    eapply Forall_impl; [exact K3|]. intros tm Htm. simpl in Htm. lia. }
  destruct (D <=? clk1 - slidingStart t) eqn:Hdiff.
  - (* the window has elapsed: it restarts *)
    apply Z.leb_le in Hdiff.
    set (clk2 := clk1 + Z.of_N (lag i)).
    assert (Hclk2 : clk1 ≤ clk2) by (unfold clk2; lia).
    unfold slideView, pushTimes, windowStarts. simpl.
    rewrite !omap_app. simpl. rewrite ?app_nil_r.
    fold (pushTimes (trace t)). fold (windowStarts (trace t)).
    fold clk1. fold clk2.
    assert (Hlast : cnt (Z.ltb (clk1 - D)) (pushTimes (trace t)) ≤ R).
    { pose proof (cnt_after_mono (slidingStart t) (clk1 - D) (pushTimes (trace t))
                    ltac:(lia)). lia. }
    assert (Hall : Forall (λ tm, tm ≤ clk2) (pushTimes (trace t) ++ [clk1])).
    { destruct (Hle clk2 ltac:(lia)) as [H|H]; [done|lia]. }
    split; [lia|]. split; [lia|]. split; [exact Hall|]. split; [|apply Hwin; lia].
    left. split.
    + rewrite (cnt_after_none clk2) by exact Hall. lia.
    + rewrite cnt_snoc.
      pose proof (cnt_after_mono (slidingStart t) (clk2 - D) (pushTimes (trace t))
                    ltac:(lia)).
      case_match; lia.
  - (* within the window *)
    apply Z.leb_gt in Hdiff.
    destruct K4 as [[K4 K4']|[K4 _]]; [|lia].
    rewrite int64_small by lia.
    assert (Hlast : cnt (Z.ltb (clk1 - D)) (pushTimes (trace t)) ≤ 2 * R).
    { pose proof (cnt_after_mono (slidingStart t - D) (clk1 - D)
                    (pushTimes (trace t)) ltac:(lia)). lia. }
    assert (Hall : Forall (λ tm, tm ≤ clk1) (pushTimes (trace t) ++ [clk1])).
    { destruct (Hle clk1 ltac:(lia)) as [H|H]; [done|lia]. }
    assert (H1 : cnt (Z.ltb (slidingStart t)) (pushTimes (trace t) ++ [clk1])
                 ≤ slidingCount t + 1) by (rewrite cnt_snoc; case_match; lia).
    assert (H2 : cnt (Z.ltb (slidingStart t - D)) (pushTimes (trace t) ++ [clk1])
                 ≤ R + 1 + (slidingCount t + 1)) by (rewrite cnt_snoc; case_match; lia).
    destruct (R <=? slidingCount t + 1) eqn:Hreach.
    + (* the count reaches the ceiling: sleep to the end of the window *)
      apply Z.leb_le in Hreach.
      unfold slideView, pushTimes, windowStarts. simpl.
      rewrite !omap_app. simpl. rewrite ?app_nil_r.
      fold (pushTimes (trace t)). fold (windowStarts (trace t)).
      fold clk1.
      split; [lia|]. split; [lia|]. split; [|split; [|apply Hwin; lia]].
      * eapply Forall_impl; [exact Hall|]. intros tm Htm. simpl in Htm. lia.
      * right. split; [lia|]. split; lia.
    + apply Z.leb_gt in Hreach.
      unfold slideView, pushTimes, windowStarts. simpl.
      rewrite !omap_app. simpl. rewrite ?app_nil_r.
      fold (pushTimes (trace t)). fold (windowStarts (trace t)).
      fold clk1.
      split; [lia|]. split; [lia|]. split; [exact Hall|].
      split; [|apply Hwin; lia]. left. split; lia.
Qed.

End AnyWindow.

(** An invariant of the sliding window that the pushes of [run] keep is
    kept by every run of the engine. *)
Lemma runIter_slideView_inv (P : Z * Z * Z * list Z * list Z → Prop) resp t :
  (∀ a c i t', cfg t' = cfg t → P (slideView t') → P (slideView (pushOne a c i t'))) →
  P (slideView t) → P (slideView (runIter resp t)).
Proof.
  intros Hpush Hinv.
  assert (Hq : ∀ t', slideView t' = slideView t → P (slideView t'))
    by (by intros t' ->).
  unfold runIter.
  destruct (nextPipes t) as [|a rest]; [done|]. cbv zeta.
  change (objs (set_nextPipes rest t)) with (objs t).
  destruct (objs t !! a) as [tp|]; [|apply Hq; quiet].
  unfold NextSubscribers. cbv zeta.
  destruct resp as [[|i subs]|]; [apply Hq; quiet| |apply Hq; quiet].
  rewrite submit_slideView. unfold pushBatch.
  set (t0 := emit _ _).
  assert (H0 : cfg t0 = cfg t ∧ P (slideView t0)) by (split; [done|apply Hq; quiet]).
  clearbody t0. revert t0 H0.
  generalize (i :: subs). intros l.
  induction l as [|j l IH]; intros t0 [Hc H0]; simpl; [done|].
  apply IH. split; [by rewrite pushOne_cfg|by apply Hpush].
Qed.

Lemma exec_slideView_inv (P : Z * Z * Z * list Z * list Z → Prop) evs t :
  (∀ a c i t', cfg t' = cfg t → P (slideView t') → P (slideView (pushOne a c i t'))) →
  P (slideView t) → P (slideView (exec evs t)).
Proof.
  unfold exec. revert t.
  induction evs as [|e evs IH]; intros t Hpush Hinv; simpl; [done|].
  apply IH.
  { intros a c i t' Hc. apply Hpush. by rewrite Hc, step_cfg. }
  assert (Hcase : (∃ resp, e = EvRun resp) ∨ ∀ resp, e ≠ EvRun resp).
  { destruct e; try (by right); left; by eexists. }
  destruct Hcase as [[resp ->]|Hrun].
  - change (step (EvRun resp) t) with (runIter resp t).
    by apply runIter_slideView_inv.
  - by rewrite step_slideView.
Qed.

(** *** A producer that is not throttled *)

(** The producer sleeps in [slide] and nowhere else. *)
Ltac calm := simpl; rewrite ?cnt_app; simpl; lia.

Lemma submit_sleeps a t : cnt isSleep (trace (submit a t)) = cnt isSleep (trace t).
Proof. unfold submit. by case_match. Qed.

Lemma startCampaign_sleeps t d :
  cnt isSleep (trace (startCampaign t d)) = cnt isSleep (trace t).
Proof.
  unfold startCampaign, newTenantPipe.
  repeat case_match; simplify_eq; rewrite ?submit_sleeps; calm.
Qed.

Lemma collect_sleeps acc e :
  cnt isSleep (trace (collect acc e).1) = cnt isSleep (trace acc.1).
Proof. unfold collect. by case_match. Qed.

Lemma scanTick_sleeps resp t :
  cnt isSleep (trace (scanTick resp t)) = cnt isSleep (trace t).
Proof.
  unfold scanTick, getCurrentCampaigns.
  assert (H : ∀ l acc, cnt isSleep (trace (foldl collect acc l).1)
                       = cnt isSleep (trace acc.1)).
  { induction l as [|e l IH]; intros acc; simpl; [done|].
    by rewrite IH, collect_sleeps. }
  assert (H' : ∀ cs t0, cnt isSleep (trace (foldl startCampaign t0 cs))
                        = cnt isSleep (trace t0)).
  { induction cs as [|d cs IH]; intros t0; simpl; [done|].
    by rewrite IH, startCampaign_sleeps. }
  cbv zeta. destruct resp as [cs|]; rewrite ?H'; simpl; rewrite cnt_app, H; calm.
Qed.

Lemma cleanup_sleeps a tp resp t :
  cnt isSleep (trace (cleanup a tp resp t)) = cnt isSleep (trace t).
Proof. unfold cleanup. repeat case_match; calm. Qed.

Lemma step_sleeps e t :
  (∀ resp, e ≠ EvRun resp) → cnt isSleep (trace (step e t)) = cnt isSleep (trace t).
Proof.
  intros Hrun. destruct e; simpl.
  - case_match; [apply scanTick_sleeps|done].
  - by destruct (Hrun resp).
  - unfold workerRecv. repeat case_match; calm.
  - unfold workerPush. repeat case_match; calm.
  - unfold workerFinish. repeat case_match; calm.
  - unfold StopCampaign. by case_match.
  - unfold waitIter. repeat case_match; try done.
    by rewrite cleanup_sleeps.
  - unfold AddMessenger. by case_match.
Qed.

(** Without a sliding window to check, a push changes the clock and the
    list of pushes, and nothing else of the producer. *)
Lemma pushOne_unchecked a c i t :
  hasSliding (cfg t) = false →
  cnt isSleep (trace (pushOne a c i t)) = cnt isSleep (trace t) ∧
  windowStarts (trace (pushOne a c i t)) = windowStarts (trace t) ∧
  slidingCount (pushOne a c i t) = slidingCount t.
Proof.
  intros Hs. unfold pushOne. destruct (renderErr i); [done|]. simpl. rewrite Hs.
  unfold windowStarts. simpl. rewrite omap_app, cnt_app. simpl.
  rewrite app_nil_r. split; [lia|done].
Qed.

Lemma runIter_sleeps resp t :
  hasSliding (cfg t) = false →
  cnt isSleep (trace (runIter resp t)) = cnt isSleep (trace t).
Proof.
  intros Hs. unfold runIter.
  destruct (nextPipes t) as [|a rest]; [done|]. cbv zeta.
  change (objs (set_nextPipes rest t)) with (objs t).
  destruct (objs t !! a) as [tp|]; [|done].
  unfold NextSubscribers. cbv zeta.
  destruct resp as [[|i subs]|]; [calm| |calm].
  rewrite submit_sleeps. unfold pushBatch.
  set (t0 := emit _ _).
  assert (H0 : cfg t0 = cfg t ∧ cnt isSleep (trace t0) = cnt isSleep (trace t))
    by (split; [done|unfold t0; calm]).
  clearbody t0. revert t0 H0.
  generalize (i :: subs). intros l.
  induction l as [|j l IH]; intros t0 [Hc H0]; simpl; [done|].
  apply IH. rewrite pushOne_cfg. split; [done|].
  destruct (pushOne_unchecked a (camp tp) j t0) as (-> & _); [by rewrite Hc|done].
Qed.

Lemma exec_sleeps evs t :
  hasSliding (cfg t) = false →
  cnt isSleep (trace (exec evs t)) = cnt isSleep (trace t).
Proof.
  unfold exec. revert t.
  induction evs as [|e evs IH]; intros t Hs; simpl; [done|].
  rewrite IH by (by rewrite step_cfg).
  assert (Hcase : (∃ resp, e = EvRun resp) ∨ ∀ resp, e ≠ EvRun resp).
  { destruct e; try (by right); left; by eexists. }
  destruct Hcase as [[resp ->]|Hrun].
  - by apply runIter_sleeps.
  - by apply step_sleeps.
Qed.

(** The instance right after a message for the subscriber of [i] has been
    sent to [campMsgQ] on behalf of the pipe at [a]: the wait group of the
    pipe has been added to and the clock stands at the reading of
    [time.Since]. *)
Definition afterPush (a : nat) (c : Campaign) (i : subInput)
    (t : tenantInstanceManager) : tenantInstanceManager :=
  let t1 := set_clock (clock t + Z.of_N (elapsed i))
              (updPipe a (λ p, set_wg (wgAdd1 (wg p)) p) t) in
  emit (Enqueue a (subID (inSub i)) (clock t1))
    (set_campMsgQ (campMsgQ t1 ++ [mkMsg (tim_tenantID t) c (inSub i) (Some a)]) t1).

(** The ceiling of the window can be exceeded. With a window of one second
    the producer is never throttled, whatever the ceiling: five messages are
    pushed at the same instant, with a ceiling of one, and the producer
    neither sleeps nor restarts a window. With a window of ten seconds and a
    ceiling of two, the window that starts at ten seconds holds three
    pushes: the one on which the restart was found due, and two counted
    ones. And when the first message of the batch is pushed nine seconds
    after the creation of the instance, the ten seconds that begin there
    hold five pushes: two counted ones before the producer sleeps to the end
    of its window, the one on which the restart is found due, and two
    counted ones after it. *)
Definition exShortWindow : TenantConfig :=
  mkTenantConfig
    (mkConfig 100 2 10 2 true Second 1 "noreply@example.com"
              "http://localhost:9000" true)
    7 "noreply@example.com" "" 0 "" "" false false "" "" "" "" "" 100 2 10 2.

Definition exLate (n : Z) : subInput :=
  mkSubInput (mkSubscriber n "reader@example.com") false 9000000000 0 0.

Lemma sliding_window_exceeds_ceiling :
  let evs := [EvAddMessenger "email"; EvScan (Some [exDue]);
              EvRun (Some [exSub 1; exSub 2; exSub 3; exSub 4; exSub 5])] in
  let evs' := [EvAddMessenger "email"; EvScan (Some [exDue]);
               EvRun (Some [exLate 1; exSub 2; exSub 3; exSub 4; exSub 5])] in
  let t := exec evs (createTenantInstance 7 exShortWindow 0) in
  let t' := exec evs (createTenantInstance 7 exConfig 0) in
  let t'' := exec evs' (createTenantInstance 7 exConfig 0) in
  (SlidingWindow (base (cfg t)) = true ∧
   SlidingWindowDuration (base (cfg t)) = Second ∧
   SlidingWindowRate (base (cfg t)) = 1 ∧
   pushTimes (trace t) = [0; 0; 0; 0; 0] ∧
   cnt (inWindow 0 Second) (pushTimes (trace t)) = 5 ∧
   cnt isSleep (trace t) = 0 ∧
   windowStarts (trace t) = []) ∧
  (hasSliding (cfg t') = true ∧
   SlidingWindowDuration (base (cfg t')) = 10 * Second ∧
   SlidingWindowRate (base (cfg t')) = 2 ∧
   pushTimes (trace t') = [0; 0; 10000000000; 10000000000; 10000000000] ∧
   windowStarts (trace t') = [10000000000] ∧
   cnt (inWindow 10000000000 (10 * Second)) (pushTimes (trace t')) = 3) ∧
  (pushTimes (trace t'')
   = [9000000000; 9000000000; 10000000000; 10000000000; 10000000000] ∧
   windowStarts (trace t'') = [10000000000] ∧
   cnt (inWindow 9000000000 (10 * Second)) (pushTimes (trace t'')) = 5).
Proof. vm_compute. repeat split. Qed.

(** C7, amended. Along every run of an instance. When the sliding window
    is enabled, its duration [D] is longer than one second and its ceiling
    [R] is positive, the producer pushes at most [2 * R + 1] messages within
    any window of length [D], and at most [R + 1] within a window of length
    [D] that begins at one of its own window starts [s] (the creation of
    the instance or a restart). After each message push: when [D] has
    elapsed since the window start, the window start is set to the present
    and the count to zero (that push is not counted); otherwise the count
    is advanced and, when it reaches [R], it is reset and the producer
    sleeps for what remains of the window, [D] minus the time elapsed,
    before it continues. When the window is not checked, as with a duration
    of one second or less, the producer is not throttled: it never sleeps,
    no window restarts, the count stays at zero, and a push is followed by
    nothing else. *)
Theorem sliding_window_throttle (tenant now : Z) (c : TenantConfig)
    (evs : list event) :
  SlidingWindowRate (base c) < two63 →
  let D := SlidingWindowDuration (base c) in
  let R := SlidingWindowRate (base c) in
  let t := exec evs (createTenantInstance tenant c now) in
  (hasSliding c = true →
     (∀ x, cnt (inWindow x D) (pushTimes (trace t)) ≤ 2 * R + 1) ∧
     (∀ s, s ∈ now :: windowStarts (trace t) →
           cnt (inWindow s D) (pushTimes (trace t)) ≤ R + 1) ∧
     0 ≤ slidingCount t < R ∧
     ∀ a cmp i, renderErr i = false →
       let t1 := afterPush a cmp i t in
       let diff := clock t1 - slidingStart t in
       (D ≤ diff →
          pushOne a cmp i t
          = emit (WindowRestart (clock t1 + Z.of_N (lag i)))
              (set_slidingCount 0
                 (set_slidingStart (clock t1 + Z.of_N (lag i))
                    (set_clock (clock t1 + Z.of_N (lag i)) t1)))) ∧
       (diff < D → slidingCount t + 1 = R →
          pushOne a cmp i t
          = emit (Sleep (D - diff))
              (set_clock (clock t1 + (D - diff) + Z.of_N (oversleep i))
                 (set_slidingCount 0 t1))) ∧
       (diff < D → slidingCount t + 1 < R →
          pushOne a cmp i t = set_slidingCount (slidingCount t + 1) t1)) ∧
  (hasSliding c = false →
     cnt isSleep (trace t) = 0 ∧ windowStarts (trace t) = [] ∧
     slidingCount t = 0 ∧
     ∀ a cmp i, renderErr i = false → pushOne a cmp i t = afterPush a cmp i t) ∧
  (D ≤ Second → hasSliding c = false).
Proof.
  intros Hmax D R t.
  assert (Hcfg : cfg t = c) by (unfold t; by rewrite exec_cfg).
  split; [|split].
  - intros Hs.
    destruct (hasSliding_true _ Hs) as (_ & HRpos & HDpos).
    assert (Hinv : windowInv D R now (slideView t)).
    { apply exec_windowInv; try done.
      unfold slideView, windowInv. simpl.
      split; [fold R; lia|]. split; [lia|]. split; [apply Forall_nil; done|].
      split; [left; lia|]. apply Forall_singleton. by left. }
    assert (Hspan : spanInv D R (slideView t)).
    { apply (exec_slideView_inv (spanInv D R)).
      - intros a cmp i t' Hc. simpl in Hc. apply pushOne_spanInv; by rewrite ?Hc.
      - unfold slideView, spanInv. simpl.
        split; [fold R; lia|]. split; [lia|]. split; [apply Forall_nil; done|].
        split; [left; fold R; lia|]. intros x. fold R. lia. }
    split; [|split; [|split]].
    + intros x. unfold slideView in Hspan.
      by destruct Hspan as (_ & _ & _ & _ & H).
    + intros s Hin. eapply windowInv_bound; [exact Hinv|exact Hin].
    + by destruct Hinv as (K1 & _).
    + intros a cmp i Hrender t1 diff.
      destruct Hinv as (K1 & _).
      assert (E : pushOne a cmp i t = slide i t1).
      { unfold pushOne. rewrite Hrender. simpl. by rewrite Hcfg, Hs. }
      rewrite E. unfold slide.
      assert (Hc1 : cfg t1 = c) by (unfold t1; simpl; exact Hcfg).
      rewrite Hc1. fold D R.
      change (slidingStart t1) with (slidingStart t).
      change (slidingCount t1) with (slidingCount t). fold diff.
      simpl in K1. rewrite int64_small by (fold R in Hmax; unfold two63 in *; lia).
      split; [|split].
      * intros H. apply Z.leb_le in H. by rewrite H.
      * intros H1 H2. apply Z.leb_gt in H1. rewrite H1.
        assert ((R <=? slidingCount t + 1) = true) as -> by (apply Z.leb_le; lia).
        done.
      * intros H1 H2. apply Z.leb_gt in H1. rewrite H1.
        assert ((R <=? slidingCount t + 1) = false) as -> by (apply Z.leb_gt; lia).
        done.
  - intros Hs.
    assert (Hsl : cnt isSleep (trace t) = 0) by (unfold t; by rewrite exec_sleeps).
    assert (Hview : (λ v : Z * Z * Z * list Z * list Z,
                       let '(_, _, count, _, starts) := v in
                       count = 0 ∧ starts = []) (slideView t)).
    { apply (exec_slideView_inv
               (λ v, let '(_, _, count, _, starts) := v in count = 0 ∧ starts = [])).
      - intros a cmp i t' Hc [H1 H2]. simpl in Hc.
        destruct (pushOne_unchecked a cmp i t') as (_ & E1 & E2); [by rewrite Hc|].
        unfold slideView. by rewrite E1, E2.
      - done. }
    destruct Hview as [H1 H2].
    split; [done|]. split; [done|]. split; [done|].
    intros a cmp i Hrender. unfold pushOne. rewrite Hrender. simpl.
    by rewrite Hcfg, Hs.
  - intros HD. unfold hasSliding. fold D.
    assert ((Second <? D) = false) as -> by (apply Z.ltb_ge; lia).
    by rewrite andb_false_r.
Qed.

Lemma sliding_window_throttle_witness :
  let evs := [EvAddMessenger "email"; EvScan (Some [exDue]);
              EvRun (Some [exLate 1; exSub 2; exSub 3; exSub 4; exSub 5])] in
  let t := exec evs (createTenantInstance 7 exConfig 0) in
  SlidingWindowRate (base exConfig) < two63 ∧
  hasSliding exConfig = true ∧
  windowStarts (trace t) = [10000000000] ∧
  cnt (inWindow 9000000000 (10 * Second)) (pushTimes (trace t)) ≤ 5 ∧
  cnt (inWindow 10000000000 (10 * Second)) (pushTimes (trace t)) ≤ 3.
Proof.
  intros evs t.
  assert (H1 : hasSliding exConfig = true) by reflexivity.
  assert (H2 : SlidingWindowRate (base exConfig) < two63) by reflexivity.
  assert (H3 : windowStarts (trace t) = [10000000000])
    by (vm_compute; reflexivity).
  split; [exact H2|]. split; [exact H1|]. split; [exact H3|].
  destruct (sliding_window_throttle 7 0 exConfig evs H2) as [H _].
  destruct (H H1) as (Ha & Hb & _).
  fold t in Ha, Hb. rewrite H3 in Hb.
  split.
  - exact (Ha 9000000000).
  - apply Hb. right. left.
Defined.

(** ** The accounts of a pipe *)

(** Tests on the actions of the trace that concern the pipe at [a]. *)
Definition isEnq (a : nat) (x : action) : bool :=
  match x with Enqueue b _ _ => bool_decide (b = a) | _ => false end.
Definition isDeq (a : nat) (x : action) : bool :=
  match x with Dequeue b _ => bool_decide (b = a) | _ => false end.
Definition isFailed (a : nat) (x : action) : bool :=
  match x with Dequeue b Failed => bool_decide (b = a) | _ => false end.
Definition isBatchEnd (a : nat) (x : action) : bool :=
  match x with BatchEnd b => bool_decide (b = a) | _ => false end.
Definition isCleanup (a : nat) (x : action) : bool :=
  match x with Cleanup b => bool_decide (b = a) | _ => false end.

(** The messages of the pipe at [a] in [campMsgQ], and those among the
    messages in flight whose [Push] has not returned. *)
Definition queuedFor (a : nat) (m : TenantCampaignMessage) : bool :=
  bool_decide (msgPipe m = Some a).
Definition pushingFor (a : nat) (m : TenantCampaignMessage * phase) : bool :=
  match m.2 with
  | Pushing => bool_decide (msgPipe m.1 = Some a)
  | Loaded _ => false
  end.

(** The accounts of the pipe at [a]: enqueued, dequeued, batch ends,
    cleanups, failures, queued, being pushed. *)
Record tally := mkTally {
  nEnq : Z; nDeq : Z; nBatchEnd : Z; nCleanup : Z; nFailed : Z;
  nQueued : Z; nPushing : Z
}.

Definition tallyOf (t : tenantInstanceManager) (a : nat) : tally :=
  mkTally (cnt (isEnq a) (trace t)) (cnt (isDeq a) (trace t))
          (cnt (isBatchEnd a) (trace t)) (cnt (isCleanup a) (trace t))
          (cnt (isFailed a) (trace t))
          (cnt (queuedFor a) (campMsgQ t)) (cnt (pushingFor a) (inflight t)).

(** The invariant of a pipe with threshold [T], accounts [y], and [queued]
    telling whether it waits in [nextPipes]. *)
Definition pipeInv (T : Z) (y : tally) (queued : Prop) (p : tenantPipe) : Prop :=
  wgAdds (wg p) = 1 + nEnq y ∧
  wgDones (wg p) = nDeq y + nBatchEnd y ∧
  nEnq y = nDeq y + nQueued y + nPushing y ∧
  0 ≤ nBatchEnd y ≤ 1 ∧
  (queued → nBatchEnd y = 0) ∧
  nCleanup y = (if waiter p then 0 else 1) ∧
  (waiter p = false → wgCounter (wg p) = 0) ∧
  errors p = (if T <? 1 then 0 else uint64 (nFailed y)) ∧
  (1 ≤ T → T ≤ nFailed y → stopped p = true) ∧
  (withErrors p = true → stopped p = true) ∧
  0 ≤ nQueued y ∧ 0 ≤ nPushing y ∧ 0 ≤ nFailed y.

Definition noAccount (y : tally) : Prop :=
  nEnq y = 0 ∧ nDeq y = 0 ∧ nBatchEnd y = 0 ∧ nCleanup y = 0 ∧ nFailed y = 0 ∧
  nQueued y = 0 ∧ nPushing y = 0.

(** The invariant of an instance. *)
Definition Inv (t : tenantInstanceManager) : Prop :=
  (∀ a p, objs t !! a = Some p →
     pipeInv (TenantMaxSendErrors (cfg t)) (tallyOf t a) (a ∈ nextPipes t) p) ∧
  NoDup (nextPipes t) ∧
  (∀ a, (length (objs t) ≤ a)%nat → noAccount (tallyOf t a) ∧ a ∉ nextPipes t).

Lemma cnt_delete {A} (f : A → bool) (l : list A) k x :
  l !! k = Some x → cnt f (delete k l) = cnt f l - (if f x then 1 else 0).
Proof.
  revert k. induction l as [|y l IH]; intros [|k] H; simpl in *; try done.
  - injection H as ->. lia.
  - rewrite (IH k H). lia.
Qed.

Lemma cnt_insert {A} (f : A → bool) (l : list A) k x y :
  l !! k = Some x →
  cnt f (<[k := y]> l) = cnt f l - (if f x then 1 else 0) + (if f y then 1 else 0).
Proof.
  revert k. induction l as [|z l IH]; intros [|k] H; simpl in *; try done.
  - injection H as ->. lia.
  - rewrite (IH k H). lia.
Qed.

Lemma cnt_failed_le a l : cnt (isFailed a) l ≤ cnt (isDeq a) l.
Proof.
  induction l as [|x l IH]; simpl; [done|].
  destruct x as [| | | | | | | |b o| | | |]; simpl; try lia.
  destruct o; simpl; repeat case_bool_decide; lia.
Qed.

(** An operation that changes the pipe at [a] by [f], if there is one, and
    the accounts and the place in [nextPipes] of no other pipe, maintains
    the invariant if it maintains that of the pipe at [a]. *)
Lemma Inv_update (t t' : tenantInstanceManager) (a : nat) (f : tenantPipe → tenantPipe) :
  Inv t →
  cfg t' = cfg t →
  objs t' = alter f a (objs t) →
  NoDup (nextPipes t') →
  (∀ b, b ≠ a ∨ objs t !! a = None →
        tallyOf t' b = tallyOf t b ∧ (b ∈ nextPipes t' → b ∈ nextPipes t)) →
  (∀ p, objs t !! a = Some p →
        pipeInv (TenantMaxSendErrors (cfg t)) (tallyOf t a) (a ∈ nextPipes t) p →
        pipeInv (TenantMaxSendErrors (cfg t)) (tallyOf t' a) (a ∈ nextPipes t') (f p)) →
  Inv t'.
Proof.
  intros (I1 & I2 & I3) Hcfg Hobjs Hnd Hother Hself. split; [|split].
  - intros b p' Hb. rewrite Hcfg. rewrite Hobjs in Hb.
    destruct (decide (b = a)) as [->|Hne].
    + rewrite list_lookup_alter_eq in Hb.
      destruct (objs t !! a) as [p|] eqn:Hp; [|done].
      injection Hb as <-. apply Hself; [done|]. by apply I1.
    + rewrite list_lookup_alter_ne in Hb by done.
      destruct (Hother b (or_introl Hne)) as [-> Hin].
      pose proof (I1 b p' Hb) as H.
      unfold pipeInv in *. intuition.
  - done.
  - intros b Hlen. rewrite Hobjs, length_alter in Hlen.
    destruct (I3 b Hlen) as [H1 H2].
    assert (Hb : b ≠ a ∨ objs t !! a = None).
    { destruct (decide (b = a)) as [->|Hne]; [right|by left].
      by apply lookup_ge_None. }
    destruct (Hother b Hb) as [-> Hin]. split; [done|]. intros H. by apply H2, Hin.
Qed.

(** The accounts do not change when the trace grows by actions that do not
    concern the pipes and the queues stay as they are. *)
Definition isPipeAction (x : action) : bool :=
  match x with
  | Enqueue _ _ _ | Dequeue _ _ | BatchEnd _ | Cleanup _ => true
  | _ => false
  end.

Lemma cnt_quiet (f : nat → action → bool) a l :
  (∀ x, isPipeAction x = false → f a x = false) →
  Forall (λ x, isPipeAction x = false) l → cnt (f a) l = 0.
Proof.
  intros Hf H. apply cnt_none. eapply Forall_impl; [exact H|]. intros x. apply Hf.
Qed.

Lemma tallyOf_quiet t t' l a :
  trace t' = trace t ++ l → Forall (λ x, isPipeAction x = false) l →
  campMsgQ t' = campMsgQ t → inflight t' = inflight t →
  tallyOf t' a = tallyOf t a.
Proof.
  intros Ht Hl Hq Hf. unfold tallyOf. rewrite Ht, Hq, Hf, !cnt_app.
  rewrite !(cnt_quiet _ a l) by (done || by intros []).
  f_equal; lia.
Qed.

Lemma Inv_init tenant c now : Inv (createTenantInstance tenant c now).
Proof.
  split; [|split].
  - intros a p H. done.
  - apply NoDup_nil_2.
  - intros a _. split; [done|]. apply not_elem_of_nil.
Qed.

Lemma Inv_quiet t t' l :
  Inv t → cfg t' = cfg t → objs t' = objs t → nextPipes t' = nextPipes t →
  campMsgQ t' = campMsgQ t → inflight t' = inflight t →
  trace t' = trace t ++ l → Forall (λ x, isPipeAction x = false) l →
  Inv t'.
Proof.
  intros HI Hc Ho Hn Hq Hf Ht Hl.
  apply (Inv_update t t' 0 id HI Hc).
  - rewrite Ho. symmetry. apply list_alter_id. done.
  - rewrite Hn. apply HI.
  - intros b _. rewrite Hn. split; [|done]. by eapply tallyOf_quiet.
  - intros p Hp H. rewrite Hn, (tallyOf_quiet t t' l) by done. done.
Qed.

Lemma Inv_StopCampaign id t : Inv t → Inv (StopCampaign id t).
Proof.
  intros HI. unfold StopCampaign. destruct (pipes t !! id) as [a|]; [|done].
  apply (Inv_update t _ a (Stop false) HI); try done.
  - apply HI.
  - intros p Hp H. unfold pipeInv in *.
    destruct (Stop_fields false p) as (_ & _ & _ & -> & _ & _ & -> & ->).
    rewrite Stop_stopped. intuition.
Qed.

Lemma workerStore_fields id cur p :
  wg (workerStore id cur p) = wg p ∧ errors (workerStore id cur p) = errors p ∧
  stopped (workerStore id cur p) = stopped p ∧
  withErrors (workerStore id cur p) = withErrors p ∧
  waiter (workerStore id cur p) = waiter p.
Proof. unfold workerStore. by case_match. Qed.

Lemma Inv_workerFinish k t : Inv t → Inv (workerFinish k t).
Proof.
  intros HI. unfold workerFinish.
  destruct (inflight t !! k) as [[msg [|cur]]|] eqn:Hk; try done.
  destruct (msgPipe msg) as [a|] eqn:Hm; [|done].
  assert (Ht : ∀ b, tallyOf (set_inflight (delete k (inflight t))
                      (updPipe a (workerStore (subID (msgSubscriber msg)) cur) t)) b
                    = tallyOf t b).
  { intros b. unfold tallyOf. simpl. by rewrite (cnt_delete _ _ _ _ Hk), Z.sub_0_r. }
  apply (Inv_update t _ a (workerStore (subID (msgSubscriber msg)) cur) HI);
    try done.
  - apply HI.
  - intros p Hp H. rewrite Ht. unfold pipeInv in *.
    destruct (workerStore_fields (subID (msgSubscriber msg)) cur p)
      as (-> & -> & -> & -> & ->).
    done.
Qed.

Lemma uint64_succ c : uint64 (uint64 c + 1) = uint64 (c + 1).
Proof. unfold uint64. by rewrite Zplus_mod_idemp_l. Qed.

Lemma uint64_small z : 0 ≤ z < two64 → uint64 z = z.
Proof. intros H. unfold uint64. by apply Z.mod_small. Qed.

(** The pipe keeps its invariant when the [Push] of one of its messages
    returns: the message leaves the messages being pushed, the wait group is
    released, and a failure is counted. *)
Lemma pipeInv_workerPushed T (err : bool) y queued p :
  T < two63 →
  0 < nPushing y →
  pipeInv T y queued p →
  pipeInv T (mkTally (nEnq y) (nDeq y + 1) (nBatchEnd y) (nCleanup y)
                     (nFailed y + (if err then 1 else 0))
                     (nQueued y) (nPushing y - 1))
          queued (workerPushed T err p).
Proof.
  intros HT Hpos (W1 & W2 & W3 & W4 & W5 & W6 & W7 & E1 & E3 & E4 & N1 & N2 & N3).
  assert (Hw : waiter p = true).
  { destruct (waiter p) eqn:Hw; [done|]. specialize (W7 eq_refl).
    unfold wgCounter in W7. lia. }
  rewrite Hw in W6.
  unfold pipeInv, workerPushed. simpl. destruct err.
  - destruct (OnError_fields T (set_wg (wgDone (wg p)) p))
      as (_ & _ & _ & -> & _ & _ & ->).
    rewrite OnError_errors. simpl. rewrite Hw.
    split; [lia|]. split; [lia|]. split; [lia|]. split; [lia|].
    split; [done|]. split; [lia|]. split; [done|].
    split; [|split; [|split]].
    + destruct (T <? 1); [done|]. rewrite E1. apply uint64_succ.
    + intros HT1 Hle.
      destruct (OnError_flags T (set_wg (wgDone (wg p)) p)) as [H|H]; simpl in H.
      * by destruct H as (_ & _ & _ & -> & _).
      * destruct H as (Hc & -> & _).
        destruct (decide (T ≤ nFailed y)) as [Hold|Hnew]; [by apply E3|].
        assert (HF : nFailed y + 1 = T) by lia.
        destruct Hc as [Hc|[Hc|Hc]]; [lia| |done].
        rewrite E1 in Hc. destruct (T <? 1) eqn:HT0; [lia|].
        rewrite uint64_succ, HF in Hc.
        rewrite uint64_small in Hc by (unfold two64, two63 in *; lia).
        rewrite int64_small in Hc by (unfold two63 in *; lia). lia.
    + destruct (OnError_flags T (set_wg (wgDone (wg p)) p)) as [H|H]; simpl in H.
      * by destruct H as (_ & _ & _ & -> & _).
      * destruct H as (_ & -> & ->). done.
    + lia.
  - simpl. split; [lia|]. split; [lia|]. split; [lia|]. split; [lia|].
    split; [done|]. split; [by rewrite Hw|]. split; [by rewrite Hw|].
    rewrite Z.add_0_r. split; [done|]. split; [done|]. split; [done|]. lia.
Qed.

Lemma Inv_same_pipes t t' :
  Inv t → cfg t' = cfg t → objs t' = objs t → NoDup (nextPipes t') →
  (∀ b, tallyOf t' b = tallyOf t b ∧ (b ∈ nextPipes t' → b ∈ nextPipes t)) →
  Inv t'.
Proof.
  intros HI Hc Ho Hnd H. apply (Inv_update t t' 0 id HI Hc).
  - rewrite Ho. symmetry. by apply list_alter_id.
  - exact Hnd.
  - intros b _. apply H.
  - intros p Hp Hp'. destruct (H 0%nat) as [-> Hin].
    unfold pipeInv in *. intuition.
Qed.

Lemma cnt_pos_lookup {A} (f : A → bool) (l : list A) k x :
  l !! k = Some x → f x = true → 0 < cnt f l.
Proof.
  intros Hk Hx. pose proof (cnt_delete f l k x Hk) as H. rewrite Hx in H.
  pose proof (cnt_nonneg f (delete k l)). lia.
Qed.

Lemma Inv_workerPush k err t :
  TenantMaxSendErrors (cfg t) < two63 → Inv t → Inv (workerPush k err t).
Proof.
  intros HT HI. unfold workerPush.
  destruct (inflight t !! k) as [[msg [|cur]]|] eqn:Hk; try done.
  destruct (msgPipe msg) as [a|] eqn:Hm.
  - destruct (objs t !! a) as [tp|] eqn:Ha; [|done].
    set (T := TenantMaxSendErrors (cfg t)) in *.
    assert (Hpush : ∀ b, pushingFor b (msg, Pushing) = bool_decide (a = b)).
    { intros b. unfold pushingFor. simpl. rewrite Hm.
      apply bool_decide_ext. split; [by intros [= ->]|by intros ->]. }
    assert (Hinfl : ∀ b, cnt (pushingFor b)
              (if err then delete k (inflight t)
               else <[k := (msg, Loaded (lastID tp))]> (inflight t))
              = cnt (pushingFor b) (inflight t) - (if bool_decide (a = b) then 1 else 0)).
    { intros b. destruct err.
      - by rewrite (cnt_delete _ _ _ _ Hk), Hpush.
      - rewrite (cnt_insert _ _ _ _ _ Hk), Hpush. simpl. lia. }
    assert (HI' : Inv (emit (Dequeue a (if err then Failed else Delivered))
               (set_inflight (if err then delete k (inflight t)
                              else <[k := (msg, Loaded (lastID tp))]> (inflight t))
                  (updPipe a (workerPushed T err) t)))).
    { apply (Inv_update t _ a (workerPushed T err) HI); try done.
      - apply HI.
      - intros b [Hb|Hb]; [|congruence]. split; [|done].
        unfold tallyOf. simpl. rewrite !cnt_app, Hinfl. simpl.
        rewrite !(bool_decide_eq_false_2 (a = b)) by done.
        destruct err; simpl; rewrite ?(bool_decide_eq_false_2 (a = b)) by done;
          f_equal; lia.
      - intros p Hp H.
        assert (Hpos : 0 < nPushing (tallyOf t a)).
        { simpl. eapply cnt_pos_lookup; [exact Hk|].
          rewrite Hpush. by apply bool_decide_eq_true_2. }
        pose proof (pipeInv_workerPushed T err _ _ p HT Hpos H) as H'.
        replace (tallyOf _ a) with
          (mkTally (nEnq (tallyOf t a)) (nDeq (tallyOf t a) + 1)
             (nBatchEnd (tallyOf t a)) (nCleanup (tallyOf t a))
             (nFailed (tallyOf t a) + (if err then 1 else 0))
             (nQueued (tallyOf t a)) (nPushing (tallyOf t a) - 1)); [done|].
        unfold tallyOf. simpl. rewrite !cnt_app, Hinfl. simpl.
        rewrite !(bool_decide_eq_true_2 (a = a)) by done.
        destruct err; simpl; rewrite ?(bool_decide_eq_true_2 (a = a)) by done;
          f_equal; lia. }
    destruct err; exact HI'.
  - apply (Inv_same_pipes t); try done; [apply HI|].
    intros b. split; [|done]. unfold tallyOf. simpl.
    rewrite (cnt_delete _ _ _ _ Hk). unfold pushingFor. simpl. rewrite Hm.
    rewrite bool_decide_eq_false_2 by done. f_equal. lia.
Qed.

(** The invariant of a pipe under the other operations. *)
Lemma pipeInv_waiting T y queued p :
  pipeInv T y queued p →
  nBatchEnd y = 0 ∨ 0 < nQueued y ∨ 0 < nPushing y → waiter p = true.
Proof.
  intros (W1 & W2 & W3 & W4 & W5 & W6 & W7 & E1 & E3 & E4 & N1 & N2 & N3) H.
  destruct (waiter p) eqn:Hw; [done|]. specialize (W7 eq_refl).
  unfold wgCounter in W7. lia.
Qed.

Lemma pipeInv_moved T y y' queued p :
  pipeInv T y queued p →
  nEnq y' = nEnq y → nDeq y' = nDeq y → nBatchEnd y' = nBatchEnd y →
  nCleanup y' = nCleanup y → nFailed y' = nFailed y →
  nQueued y' + nPushing y' = nQueued y + nPushing y →
  0 ≤ nQueued y' → 0 ≤ nPushing y' →
  pipeInv T y' queued p.
Proof.
  intros (W1 & W2 & W3 & W4 & W5 & W6 & W7 & E1 & E3 & E4 & N1 & N2 & N3).
  intros H1 H2 H3 H4 H5 H6 H7 H8. unfold pipeInv.
  rewrite H1, H2, H3, H4, H5. repeat split; try done; lia.
Qed.

Lemma pipeInv_discard T y queued p :
  0 < nQueued y → pipeInv T y queued p →
  pipeInv T (mkTally (nEnq y) (nDeq y + 1) (nBatchEnd y) (nCleanup y) (nFailed y)
                     (nQueued y - 1) (nPushing y))
          queued (workerDiscard p).
Proof.
  intros Hpos H.
  assert (Hw : waiter p = true) by (eapply pipeInv_waiting; [exact H|lia]).
  destruct H as (W1 & W2 & W3 & W4 & W5 & W6 & W7 & E1 & E3 & E4 & N1 & N2 & N3).
  unfold pipeInv, workerDiscard. simpl. rewrite Hw in *.
  repeat split; try done; lia.
Qed.

Lemma pipeInv_add T y queued p :
  nBatchEnd y = 0 → pipeInv T y queued p →
  pipeInv T (mkTally (nEnq y + 1) (nDeq y) (nBatchEnd y) (nCleanup y) (nFailed y)
                     (nQueued y + 1) (nPushing y))
          queued (set_wg (wgAdd1 (wg p)) p).
Proof.
  intros Hbe H.
  assert (Hw : waiter p = true) by (eapply pipeInv_waiting; [exact H|lia]).
  destruct H as (W1 & W2 & W3 & W4 & W5 & W6 & W7 & E1 & E3 & E4 & N1 & N2 & N3).
  unfold pipeInv. simpl. rewrite Hw in *.
  repeat split; try done; lia.
Qed.

Lemma pipeInv_batchEnd T y (queued : Prop) p :
  queued → pipeInv T y queued p →
  pipeInv T (mkTally (nEnq y) (nDeq y) (nBatchEnd y + 1) (nCleanup y) (nFailed y)
                     (nQueued y) (nPushing y))
          False (set_wg (wgDone (wg p)) p).
Proof.
  intros Hq H.
  assert (Hbe : nBatchEnd y = 0) by (by apply H).
  assert (Hw : waiter p = true) by (eapply pipeInv_waiting; [exact H|lia]).
  destruct H as (W1 & W2 & W3 & W4 & W5 & W6 & W7 & E1 & E3 & E4 & N1 & N2 & N3).
  unfold pipeInv. simpl. rewrite Hw in *.
  repeat split; try done; lia.
Qed.

Lemma pipeInv_cleanup T y queued p :
  waiter p = true → wgCounter (wg p) = 0 → pipeInv T y queued p →
  pipeInv T (mkTally (nEnq y) (nDeq y) (nBatchEnd y) (nCleanup y + 1) (nFailed y)
                     (nQueued y) (nPushing y))
          queued (set_waiter false p).
Proof.
  intros Hw Hz (W1 & W2 & W3 & W4 & W5 & W6 & W7 & E1 & E3 & E4 & N1 & N2 & N3).
  unfold pipeInv. simpl. rewrite Hw in *.
  repeat split; try done; lia.
Qed.

Lemma pipeInv_queued T y (q q' : Prop) p :
  (q' → q ∨ nBatchEnd y = 0) → pipeInv T y q p → pipeInv T y q' p.
Proof.
  intros Hq (W1 & W2 & W3 & W4 & W5 & W6 & W7 & E1 & E3 & E4 & N1 & N2 & N3).
  unfold pipeInv. repeat split; try done; try lia.
  intros H. destruct (Hq H) as [H'|H']; [by apply W5|done].
Qed.

Lemma queuedFor_pipe a b msg :
  msgPipe msg = Some a → queuedFor b msg = bool_decide (a = b).
Proof.
  intros Hm. unfold queuedFor. rewrite Hm. apply bool_decide_ext.
  split; [by intros [= ->]|by intros ->].
Qed.

Lemma Inv_workerRecv t : Inv t → Inv (workerRecv t).
Proof.
  intros HI. unfold workerRecv.
  destruct (campMsgQ t) as [|msg rest] eqn:Hq; [done|].
  case_match; [|done]. cbv zeta.
  change (objs (set_campMsgQ rest t)) with (objs t).
  destruct (msgPipe msg) as [a|] eqn:Hm.
  - assert (Hqa : nQueued (tallyOf t a) = 1 + cnt (queuedFor a) rest).
    { simpl. rewrite Hq. simpl. rewrite (queuedFor_pipe a a) by done.
      by rewrite bool_decide_eq_true_2. }
    assert (Hqb : ∀ b, a ≠ b → nQueued (tallyOf t b) = cnt (queuedFor b) rest).
    { intros b Hb. simpl. rewrite Hq. simpl. rewrite (queuedFor_pipe a b) by done.
      by rewrite bool_decide_eq_false_2. }
    pose proof (cnt_nonneg (queuedFor a) rest) as Hnn.
    destruct (objs t !! a) as [tp|] eqn:Ha.
    + destruct (stopped tp) eqn:Hs.
      * apply (Inv_update t _ a workerDiscard HI); try done.
        -- apply HI.
        -- intros b [Hb|Hb]; [|congruence]. split; [|done].
           unfold tallyOf in *. simpl in *. rewrite !cnt_app. simpl.
           rewrite !(bool_decide_eq_false_2 (a = b)) by done.
           rewrite <- (Hqb b) by done. f_equal; lia.
        -- intros p Hp Hinv.
           assert (Hpos : 0 < nQueued (tallyOf t a)) by lia.
           pose proof (pipeInv_discard _ _ _ p Hpos Hinv) as H'.
           replace (tallyOf _ a) with
             (mkTally (nEnq (tallyOf t a)) (nDeq (tallyOf t a) + 1)
                (nBatchEnd (tallyOf t a)) (nCleanup (tallyOf t a))
                (nFailed (tallyOf t a))
                (nQueued (tallyOf t a) - 1) (nPushing (tallyOf t a))); [done|].
           rewrite Hqa. unfold tallyOf. simpl. rewrite !cnt_app. simpl.
           rewrite !(bool_decide_eq_true_2 (a = a)) by done. f_equal; lia.
      * apply (Inv_update t _ a id HI); try done.
        -- simpl. symmetry. by apply list_alter_id.
        -- apply HI.
        -- intros b [Hb|Hb]; [|congruence]. split; [|done].
           unfold tallyOf in *. simpl in *. rewrite !cnt_app. simpl.
           unfold pushingFor at 2. simpl. rewrite Hm.
           rewrite (bool_decide_eq_false_2 (Some a = Some b)) by congruence.
           rewrite <- (Hqb b) by done. f_equal; lia.
        -- intros p Hp Hinv. eapply pipeInv_moved; [exact Hinv|..];
             unfold tallyOf in *; simpl in *; rewrite ?cnt_app; simpl;
             unfold pushingFor; simpl; rewrite ?Hm;
             rewrite ?(bool_decide_eq_true_2 (Some a = Some a)) by done;
             try lia.
           all: fold (pushingFor a);
             pose proof (cnt_nonneg (pushingFor a) (inflight t)); lia.
    + exfalso. destruct HI as (_ & _ & I3).
      destruct (I3 a) as [(_ & _ & _ & _ & _ & Hz & _) _].
      { by apply lookup_ge_None. }
      lia.
  - apply (Inv_same_pipes t); try done; [apply HI|].
    intros b. split; [|done]. unfold tallyOf. simpl. rewrite Hq. simpl.
    rewrite !cnt_app. simpl. unfold queuedFor, pushingFor. simpl. rewrite Hm.
    rewrite !bool_decide_eq_false_2 by done. f_equal; lia.
Qed.

Lemma cleanup_trace a tp resp t :
  ∃ l, trace (cleanup a tp resp t) = trace t ++ Cleanup a :: l ∧
       Forall (λ x, isPipeAction x = false) l.
Proof.
  unfold cleanup. repeat case_match; simpl; rewrite <- ?app_assoc; simpl;
    eexists; (split; [reflexivity|]); repeat constructor.
Qed.

Lemma cleanup_queues a tp resp t :
  nextPipes (cleanup a tp resp t) = nextPipes t ∧
  campMsgQ (cleanup a tp resp t) = campMsgQ t ∧
  inflight (cleanup a tp resp t) = inflight t.
Proof. unfold cleanup. repeat case_match; done. Qed.

Lemma Inv_waitIter a resp t : Inv t → Inv (waitIter a resp t).
Proof.
  intros HI. unfold waitIter.
  destruct (objs t !! a) as [tp|] eqn:Ha; [|done].
  destruct (waiter tp) eqn:Hw; [|done]. simpl.
  destruct (wgCounter (wg tp) =? 0) eqn:Hz; [|done]. apply Z.eqb_eq in Hz.
  set (t1 := updPipe a (set_waiter false) t).
  destruct (cleanup_trace a tp resp t1) as (l & Hl & Hquiet).
  destruct (cleanup_queues a tp resp t1) as (Hn & Hq & Hf).
  assert (Htally : ∀ b, tallyOf (cleanup a tp resp t1) b
            = mkTally (nEnq (tallyOf t b)) (nDeq (tallyOf t b))
                (nBatchEnd (tallyOf t b))
                (nCleanup (tallyOf t b) + (if bool_decide (a = b) then 1 else 0))
                (nFailed (tallyOf t b)) (nQueued (tallyOf t b))
                (nPushing (tallyOf t b))).
  { intros b. unfold tallyOf. rewrite Hl, Hq, Hf. simpl.
    rewrite !cnt_app. simpl.
    rewrite !(cnt_quiet _ b l) by (done || by intros []). f_equal; lia. }
  apply (Inv_update t _ a (set_waiter false) HI).
  - by rewrite cleanup_cfg.
  - by rewrite cleanup_objs.
  - rewrite Hn. apply HI.
  - intros b [Hb|Hb]; [|congruence]. rewrite Hn. split; [|done].
    rewrite Htally, bool_decide_eq_false_2 by done.
    destruct (tallyOf t b). simpl. f_equal; lia.
  - intros p Hp Hinv. assert (p = tp) as -> by congruence.
    rewrite Hn, Htally, bool_decide_eq_true_2 by done.
    by apply pipeInv_cleanup.
Qed.

(** The pipe at [a] is in the hands of the loop of [run]: it has left
    [nextPipes] and its batching has not ended. *)
Definition Held (t : tenantInstanceManager) (a : nat) : Prop :=
  Inv t ∧ (a ∉ nextPipes t) ∧ is_Some (objs t !! a) ∧ nBatchEnd (tallyOf t a) = 0.

Lemma slide_frame i t :
  ∃ l, trace (slide i t) = trace t ++ l ∧
       Forall (λ x, isPipeAction x = false) l ∧
       nextPipes (slide i t) = nextPipes t ∧ campMsgQ (slide i t) = campMsgQ t ∧
       inflight (slide i t) = inflight t.
Proof.
  unfold slide. repeat case_match; simpl.
  - eexists. split; [reflexivity|]. repeat constructor.
  - eexists. split; [reflexivity|]. repeat constructor.
  - exists []. rewrite app_nil_r. repeat constructor.
Qed.

Lemma slide_Held i t a : Held t a → Held (slide i t) a.
Proof.
  intros (HI & Hn & Ho & Hbe).
  destruct (slide_frame i t) as (l & Hl & Hquiet & Hnp & Hq & Hf).
  split; [|split; [|split]].
  - eapply (Inv_quiet t); try done; [apply slide_cfg|apply slide_objs].
  - by rewrite Hnp.
  - by rewrite slide_objs.
  - rewrite (tallyOf_quiet t _ l); done.
Qed.

Lemma pushOne_Held a c i t : Held t a → Held (pushOne a c i t) a.
Proof.
  intros HH. unfold pushOne. destruct (renderErr i); [done|]. cbv zeta.
  set (t1 := updPipe a (λ p, set_wg (wgAdd1 (wg p)) p) t).
  set (msg := mkMsg (tim_tenantID t1) c (inSub i) (Some a)).
  set (t2 := emit _ _).
  assert (H2 : Held t2 a).
  { destruct HH as (HI & Hn & Ho & Hbe).
    assert (Htally : ∀ b, tallyOf t2 b
              = mkTally (nEnq (tallyOf t b) + (if bool_decide (a = b) then 1 else 0))
                  (nDeq (tallyOf t b)) (nBatchEnd (tallyOf t b))
                  (nCleanup (tallyOf t b)) (nFailed (tallyOf t b))
                  (nQueued (tallyOf t b) + (if bool_decide (a = b) then 1 else 0))
                  (nPushing (tallyOf t b))).
    { intros b. unfold tallyOf. simpl. rewrite !cnt_app. simpl.
      rewrite (queuedFor_pipe a b) by done. f_equal; lia. }
    split; [|split; [|split]].
    - apply (Inv_update t _ a (λ p, set_wg (wgAdd1 (wg p)) p) HI); try done.
      + apply HI.
      + intros b [Hb|Hb]; [|by destruct Ho; congruence]. split; [|done].
        rewrite Htally, bool_decide_eq_false_2 by done.
        destruct (tallyOf t b). simpl. f_equal; lia.
      + intros p Hp Hinv. rewrite Htally, bool_decide_eq_true_2 by done.
        by apply pipeInv_add.
    - done.
    - simpl. destruct Ho as [p Hp]. rewrite list_lookup_alter_eq, Hp. by eexists.
    - by rewrite Htally. }
  case_match; [by apply slide_Held|done].
Qed.

Lemma pushBatch_Held a c subs t : Held t a → Held (pushBatch a c subs t) a.
Proof.
  unfold pushBatch. revert t. induction subs as [|i subs IH]; intros t H; [done|].
  simpl. by apply IH, pushOne_Held.
Qed.

Lemma Inv_submit a t : Held t a → Inv (submit a t).
Proof.
  intros (HI & Hn & Ho & Hbe). unfold submit. case_match; [|done].
  apply (Inv_update t _ a id HI); try done.
  - simpl. symmetry. by apply list_alter_id.
  - simpl. apply NoDup_app. split; [apply HI|]. split; [|apply NoDup_singleton].
    intros x Hx Hx'. apply list_elem_of_singleton in Hx'. by subst.
  - intros b [Hb|Hb]; [|by destruct Ho; congruence]. split; [done|].
    simpl. intros Hin. apply elem_of_app in Hin as [Hin|Hin]; [done|].
    apply list_elem_of_singleton in Hin. done.
  - intros p Hp Hinv. eapply pipeInv_queued; [|exact Hinv].
    intros _. by right.
Qed.

Lemma Inv_runIter resp t : Inv t → Inv (runIter resp t).
Proof.
  intros HI. unfold runIter.
  destruct (nextPipes t) as [|a rest] eqn:Hnp; [done|]. cbv zeta.
  change (objs (set_nextPipes rest t)) with (objs t).
  assert (Hnd : NoDup (a :: rest)) by (rewrite <- Hnp; apply HI).
  apply NoDup_cons in Hnd as [Hnotin Hnd].
  assert (Hin : a ∈ nextPipes t) by (rewrite Hnp; left).
  assert (Hsub : ∀ b, b ∈ rest → b ∈ nextPipes t) by (intros b Hb; rewrite Hnp; by right).
  set (t0 := set_nextPipes rest t).
  assert (HI0 : Inv t0).
  { apply (Inv_same_pipes t); try done. intros b. split; [done|apply Hsub]. }
  destruct (objs t !! a) as [tp|] eqn:Ha; [|done].
  unfold NextSubscribers. cbv zeta.
  set (t1 := emit _ t0).
  assert (Htally1 : ∀ b, tallyOf t1 b = tallyOf t b).
  { intros b. apply (tallyOf_quiet t t1 [NextTenantSubscribers (tim_tenantID t0)
      (campID (camp tp)) (TenantMaxBatchSize (cfg t0))]); try done.
    repeat constructor. }
  assert (HI1 : Inv t1).
  { apply (Inv_same_pipes t); try done. intros b. split; [done|apply Hsub]. }
  assert (Hbe : nBatchEnd (tallyOf t a) = 0).
  { destruct HI as (I1 & _). by apply (I1 a tp Ha). }
  assert (HH1 : Held t1 a).
  { split; [done|]. split; [done|]. split; [by eexists|]. by rewrite Htally1. }
  destruct resp as [[|i subs]|]; [| |done].
  - apply (Inv_update t _ a (λ p, set_wg (wgDone (wg p)) p) HI); try done.
    + intros b [Hb|Hb]; [|congruence]. split; [|apply Hsub].
      unfold tallyOf. simpl. rewrite !cnt_app. simpl.
      rewrite !(bool_decide_eq_false_2 (a = b)) by done. f_equal; lia.
    + intros p Hp Hinv.
      pose proof (pipeInv_batchEnd _ _ _ p Hin Hinv) as H'.
      eapply pipeInv_queued; [|].
      2:{ replace (tallyOf _ a) with
            (mkTally (nEnq (tallyOf t a)) (nDeq (tallyOf t a))
               (nBatchEnd (tallyOf t a) + 1) (nCleanup (tallyOf t a))
               (nFailed (tallyOf t a)) (nQueued (tallyOf t a))
               (nPushing (tallyOf t a))); [exact H'|].
          unfold tallyOf. simpl. rewrite !cnt_app. simpl.
          rewrite !(bool_decide_eq_true_2 (a = a)) by done. f_equal; lia. }
      simpl. intros Hr. by destruct Hnotin.
  - apply Inv_submit. by apply pushBatch_Held.
Qed.

Lemma Inv_collect acc e : Inv acc.1 → Inv (collect acc e).1.
Proof.
  intros HI. unfold collect. destruct (objs acc.1 !! e.2) as [p|]; [|done]. simpl.
  apply (Inv_update acc.1 _ e.2 (set_sent 0) HI); try done. apply HI.
Qed.

Lemma pipeInv_fresh T y (queued : Prop) tenant c :
  noAccount y →
  pipeInv T y queued (mkPipe tenant c 0 (wgAdd1 (mkWG 0 0)) 0 0 0 false false true).
Proof.
  intros (H1 & H2 & H3 & H4 & H5 & H6 & H7). unfold pipeInv. simpl.
  rewrite H1, H2, H3, H4, H5, H6, H7.
  repeat split; try done; try lia. by destruct (T <? 1).
Qed.

Lemma Inv_startCampaign t d : Inv t → Inv (startCampaign t d).
Proof.
  intros HI. unfold startCampaign, newTenantPipe.
  destruct (negb (bool_decide (campMessenger (dueCamp d) ∈ messengers t))).
  { eapply (Inv_quiet t); try done. repeat constructor. }
  destruct (tplErr d); [done|].
  destruct (attachMedia _ _ _) as [atts|]; [|done].
  set (tp := mkPipe _ _ _ _ _ _ _ _ _ _).
  set (t' := set_pipes _ _).
  assert (Hfresh : noAccount (tallyOf t (length (objs t))) ∧
                   length (objs t) ∉ nextPipes t).
  { destruct HI as (_ & _ & I3). by apply I3. }
  apply Inv_submit. split; [|split; [|split]].
  - destruct HI as (I1 & I2 & I3). split; [|split].
    + intros b p Hb. change (objs t') with (objs t ++ [tp]) in Hb.
      change (tallyOf t' b) with (tallyOf t b).
      destruct (decide (b < length (objs t))%nat) as [Hlt|Hge].
      * rewrite lookup_app_l in Hb by done. by apply I1.
      * rewrite lookup_app_r in Hb by lia.
        destruct (b - length (objs t))%nat eqn:Hd; [|by destruct n].
        injection Hb as <-. assert (b = length (objs t)) as -> by lia.
        apply pipeInv_fresh. apply Hfresh.
    + exact I2.
    + intros b Hb. change (objs t') with (objs t ++ [tp]) in Hb.
      rewrite length_app in Hb. simpl in Hb. apply I3. lia.
  - apply Hfresh.
  - change (objs t') with (objs t ++ [tp]).
    rewrite lookup_app_r by lia. rewrite Nat.sub_diag. by eexists.
  - destruct Hfresh as [(_ & _ & H & _) _]. exact H.
Qed.

Lemma Inv_scanTick resp t : Inv t → Inv (scanTick resp t).
Proof.
  intros HI. unfold scanTick, getCurrentCampaigns.
  assert (H1 : ∀ l acc, Inv acc.1 → Inv (foldl collect acc l).1).
  { induction l as [|e l IH]; intros acc Hacc; simpl; [done|].
    by apply IH, Inv_collect. }
  assert (H2 : ∀ cs t0, Inv t0 → Inv (foldl startCampaign t0 cs)).
  { induction cs as [|d cs IH]; intros t0 H0; simpl; [done|].
    by apply IH, Inv_startCampaign. }
  cbv zeta.
  set (r := foldl collect (t, ([], [])) (map_to_list (pipes t))).
  assert (Hr : Inv r.1) by (by apply H1).
  assert (He : Inv (emit (NextTenantCampaigns (tim_tenantID r.1) r.2.1 r.2.2) r.1)).
  { eapply (Inv_quiet r.1); try done. repeat constructor. }
  destruct resp as [cs|]; [by apply H2|done].
Qed.

Lemma Inv_step e t :
  TenantMaxSendErrors (cfg t) < two63 → Inv t → Inv (step e t).
Proof.
  intros HT HI. destruct e; simpl.
  - case_match; [by apply Inv_scanTick|done].
  - by apply Inv_runIter.
  - by apply Inv_workerRecv.
  - by apply Inv_workerPush.
  - by apply Inv_workerFinish.
  - by apply Inv_StopCampaign.
  - by apply Inv_waitIter.
  - unfold AddMessenger. case_match; [done|]. simpl.
    eapply (Inv_quiet t _ []); try done. by rewrite app_nil_r.
Qed.

Lemma Inv_exec evs t :
  TenantMaxSendErrors (cfg t) < two63 → Inv t → Inv (exec evs t).
Proof.
  unfold exec. revert t. induction evs as [|e evs IH]; intros t HT HI; [done|].
  simpl. apply IH; [by rewrite step_cfg|by apply Inv_step].
Qed.

(** The states that an instance reaches from its creation. *)
Definition reachable (t : tenantInstanceManager) : Prop :=
  ∃ tenant c now evs, t = exec evs (createTenantInstance tenant c now).

Lemma reachable_Inv t :
  reachable t → TenantMaxSendErrors (cfg t) < two63 → Inv t.
Proof.
  intros (tenant & c & now & evs & ->) HT. rewrite exec_cfg in HT.
  apply Inv_exec; [done|apply Inv_init].
Qed.

(** ** The error threshold *)

(** The number of delivery failures of the pipe at [a] at the end of a trace
    since its last successful delivery. *)
Definition failStep (a : nat) (n : Z) (x : action) : Z :=
  match x with
  | Dequeue b Failed => if bool_decide (b = a) then n + 1 else n
  | Dequeue b Delivered => if bool_decide (b = a) then 0 else n
  | _ => n
  end.

Definition failRun (a : nat) (l : list action) : Z := foldl (failStep a) 0 l.

Lemma failRun_le_failed a l : 0 ≤ failRun a l ≤ cnt (isFailed a) l.
Proof.
  unfold failRun.
  assert (H : ∀ n, 0 ≤ n → 0 ≤ foldl (failStep a) n l ≤ n + cnt (isFailed a) l).
  { induction l as [|x l IH]; intros n Hn; simpl; [lia|].
    pose proof (cnt_nonneg (isFailed a) l) as Hc.
    destruct x as [| | | | | | | |b o| | | |]; simpl;
      try (specialize (IH n Hn); lia).
    destruct o; simpl; try case_bool_decide;
      try (specialize (IH n Hn); lia).
    - specialize (IH 0 ltac:(lia)). lia.
    - specialize (IH (n + 1) ltac:(lia)). lia. }
  specialize (H 0 ltac:(lia)). lia.
Qed.

Lemma reachable_exec evs t : reachable t → reachable (exec evs t).
Proof.
  intros (tenant & c & now & evs0 & ->). exists tenant, c, now, (evs0 ++ evs).
  by rewrite exec_app.
Qed.

(** A failed push of a message of the pipe at [a]. *)
Lemma workerPush_failed t k msg a p :
  inflight t !! k = Some (msg, Pushing) → msgPipe msg = Some a →
  objs t !! a = Some p →
  objs (step (EvPush k true) t) !! a
  = Some (workerPushed (TenantMaxSendErrors (cfg t)) true p) ∧
  trace (step (EvPush k true) t) = trace t ++ [Dequeue a Failed].
Proof.
  intros Hk Hm Hobj. simpl. unfold workerPush. rewrite Hk, Hm, Hobj. simpl.
  by rewrite list_lookup_alter_eq, Hobj.
Qed.

(** While a pipe runs, its error counter is the number of its failed
    deliveries, which is below the threshold; the failure that brings the
    number to the threshold stops the pipe with errors. *)
Lemma error_threshold_cumulative t a p :
  reachable t →
  1 ≤ TenantMaxSendErrors (cfg t) < two63 →
  objs t !! a = Some p →
  stopped p = false →
  errors p = uint64 (cnt (isFailed a) (trace t)) ∧
  cnt (isFailed a) (trace t) < TenantMaxSendErrors (cfg t) ∧
  (TenantMaxSendErrors (cfg t) ≤ cnt (isFailed a) (trace t) + 1 →
   stopped (workerPushed (TenantMaxSendErrors (cfg t)) true p) = true ∧
   withErrors (workerPushed (TenantMaxSendErrors (cfg t)) true p) = true).
Proof.
  intros Hr HT Hobj Hrun. set (T := TenantMaxSendErrors (cfg t)) in *.
  destruct (reachable_Inv t Hr ltac:(fold T; lia)) as (I1 & _).
  destruct (I1 a p Hobj)
    as (W1 & W2 & W3 & W4 & W5 & W6 & W7 & E1 & E3 & E4 & N1 & N2 & N3).
  fold T in E1, E3.
  change (nFailed (tallyOf t a)) with (cnt (isFailed a) (trace t)) in E1, E3, N3.
  assert (HT1 : (T <? 1) = false) by (apply Z.ltb_ge; lia).
  rewrite HT1 in E1.
  assert (Hlt : cnt (isFailed a) (trace t) < T).
  { destruct (decide (T ≤ cnt (isFailed a) (trace t))) as [Hle|]; [|lia].
    rewrite E3 in Hrun by lia. done. }
  split; [done|]. split; [done|]. intros Hreach.
  unfold workerPushed.
  destruct (OnError_flags T (set_wg (wgDone (wg p)) p)) as [H|H]; simpl in H.
  - by destruct H as (_ & _ & _ & -> & ->).
  - exfalso. destruct H as ([H|[H|H]] & _); [lia| |congruence].
    rewrite E1, uint64_succ in H.
    replace (cnt (isFailed a) (trace t) + 1) with T in H by lia.
    rewrite uint64_small in H by (unfold two64, two63 in *; lia).
    rewrite int64_small in H by (unfold two63 in *; lia). lia.
Qed.

(** The error threshold along the runs of the engine, in which [wg.Done()]
    and [OnError()] of a failed push are one step ([EvPush]) and the
    goroutine that waits for the wait group does not run between them. A
    pipe of a reachable instance runs (it is not stopped) and the threshold
    [T] is at least 1. Its error counter is the
    number of its failed deliveries, and each failed delivery adds one to
    it. When a failed delivery brings the number of consecutive failures to
    [T], the pipe is flagged stopped and with-errors; the flags stay as
    they are whatever follows; and when the wait group is at zero and
    [cleanup] runs, the status of the campaign is set to paused in the
    Store and one notification, of the pause, is sent. *)
Lemma error_threshold_pauses (t : tenantInstanceManager) (a : nat) (p : tenantPipe) :
  reachable t →
  1 ≤ TenantMaxSendErrors (cfg t) < two63 →
  objs t !! a = Some p →
  stopped p = false →
  errors p = uint64 (cnt (isFailed a) (trace t)) ∧
  ∀ k msg,
    inflight t !! k = Some (msg, Pushing) → msgPipe msg = Some a →
    ∃ p', objs (step (EvPush k true) t) !! a = Some p' ∧
      errors p' = uint64 (errors p + 1) ∧
      cnt (isFailed a) (trace (step (EvPush k true) t))
      = cnt (isFailed a) (trace t) + 1 ∧
      (TenantMaxSendErrors (cfg t) ≤ failRun a (trace (step (EvPush k true) t)) →
       stopped p' = true ∧ withErrors p' = true ∧
       ∀ evs, ∃ p'',
         objs (exec evs (step (EvPush k true) t)) !! a = Some p'' ∧
         stopped p'' = true ∧ withErrors p'' = true ∧
         (waiter p'' = true → wgCounter (wg p'') = 0 →
          ∀ resp st,
            let t1 := exec evs (step (EvPush k true) t) in
            let t2 := step (EvWait a resp) t1 in
            added t1 t2
            = [Cleanup a;
               UpdateTenantCampaignCounts (tenantID p'') (campID (camp p'')) 0
                 (sent p'') (int64 (lastID p''));
               UpdateTenantCampaignStatus (tenantID p'') (campID (camp p''))
                 CampaignStatusPaused;
               fnNotify (tenantID p'') (campID (camp p'')) CampaignStatusPaused
                 "Too many errors"] ∧
            foldl storeStatus st (added t1 t2) !! (tenantID p'', campID (camp p''))
            = Some CampaignStatusPaused ∧
            cnt isNotify (added t1 t2) = 1)).
Proof.
  intros Hr HT Hobj Hrun.
  destruct (error_threshold_cumulative t a p Hr HT Hobj Hrun) as (E1 & Hlt & Hflag).
  split; [done|]. intros k msg Hk Hm.
  destruct (workerPush_failed t k msg a p Hk Hm Hobj) as [Hobj' Htr].
  set (t' := step (EvPush k true) t) in *.
  set (T := TenantMaxSendErrors (cfg t)) in *.
  exists (workerPushed T true p). split; [done|].
  assert (HT1 : (T <? 1) = false) by (apply Z.ltb_ge; lia).
  split.
  { unfold workerPushed. rewrite OnError_errors, HT1. done. }
  assert (Hcnt : cnt (isFailed a) (trace t') = cnt (isFailed a) (trace t) + 1).
  { rewrite Htr, cnt_app. simpl. rewrite bool_decide_eq_true_2 by done. lia. }
  split; [done|]. intros Hrun'.
  pose proof (failRun_le_failed a (trace t')) as Hle.
  destruct (Hflag ltac:(lia)) as [Hs Hw].
  split; [done|]. split; [done|]. intros evs.
  destruct (flagsKept_exec evs t' a _ Hobj' Hs) as (p'' & Hp'' & Hs'' & Hw'').
  exists p''. split; [done|]. split; [done|]. split; [congruence|].
  intros Hwait Hzero resp st t1 t2.
  assert (E : added t1 t2
    = [Cleanup a;
       UpdateTenantCampaignCounts (tenantID p'') (campID (camp p'')) 0
         (sent p'') (int64 (lastID p''));
       UpdateTenantCampaignStatus (tenantID p'') (campID (camp p''))
         CampaignStatusPaused;
       fnNotify (tenantID p'') (campID (camp p'')) CampaignStatusPaused
         "Too many errors"]).
  { unfold t2. simpl. rewrite (waitIter_fires a resp t1 p'') by done.
    apply (cleanup_added_withErrors a p'' resp (updPipe a (set_waiter false) t1)).
    congruence. }
  rewrite E. split; [done|]. split; [|done]. simpl. apply lookup_insert_eq.
Qed.

(** The first of the two messages being pushed in [exRunning] has failed;
    the threshold of the example is 2. *)
Definition exFailedOnce : tenantInstanceManager :=
  exec [EvAddMessenger "email"; EvScan (Some [exDue]);
        EvRun (Some [exSub 5; exSub 10; exSub 11]); EvRecv; EvRecv;
        EvPush 0 true]
       (createTenantInstance 7 exConfig 0).

Lemma error_threshold_pauses_witness :
  ∃ p, objs exFailedOnce !! 0%nat = Some p ∧ stopped p = false ∧ errors p = 1 ∧
  ∃ p', objs (step (EvPush 0 true) exFailedOnce) !! 0%nat = Some p' ∧
        errors p' = uint64 (errors p + 1) ∧
        stopped p' = true ∧ withErrors p' = true.
Proof.
  assert (Hr : reachable exFailedOnce).
  { exists 7, exConfig, 0. eexists. reflexivity. }
  assert (ET : TenantMaxSendErrors (cfg exFailedOnce) = 2)
    by (vm_compute; reflexivity).
  assert (HT : 1 ≤ TenantMaxSendErrors (cfg exFailedOnce) < two63)
    by (rewrite ET; unfold two63; lia).
  eexists. split; [vm_compute; reflexivity|].
  split; [reflexivity|]. split; [reflexivity|].
  destruct (error_threshold_pauses exFailedOnce 0%nat _ Hr HT
              ltac:(vm_compute; reflexivity) eq_refl) as [_ H].
  destruct (H 0%nat _ ltac:(vm_compute; reflexivity) eq_refl)
    as (p' & H1 & H2 & _ & H4).
  assert (ER : failRun 0 (trace (step (EvPush 0 true) exFailedOnce)) = 2)
    by (vm_compute; reflexivity).
  destruct (H4 ltac:(rewrite ET, ER; lia)) as (Hs & Hw & _).
  exists p'. repeat split; assumption.
Defined.

(** *** The end of a failed push, call by call

    When [Push] has returned an error, [worker] calls [msg.pipe.wg.Done()]
    and then [msg.pipe.OnError()]. [workerDone] is the first call and
    [workerOnError] the second, for the message in flight at position [k];
    between the two any other goroutine can take its turn, the one that
    waits for the wait group of the pipe among them. *)
Definition workerDone (k : nat) (t : tenantInstanceManager) : tenantInstanceManager :=
  match inflight t !! k with
  | Some (msg, Pushing) =>
      match msgPipe msg with
      | None => t
      | Some a =>
          match objs t !! a with
          | None => t
          | Some _ =>
              emit (Dequeue a Failed) (updPipe a (λ p, set_wg (wgDone (wg p)) p) t)
          end
      end
  | _ => t
  end.

Definition workerOnError (k : nat) (t : tenantInstanceManager) : tenantInstanceManager :=
  match inflight t !! k with
  | Some (msg, Pushing) =>
      match msgPipe msg with
      | None => set_inflight (delete k (inflight t)) t
      | Some a =>
          match objs t !! a with
          | None => t
          | Some _ =>
              set_inflight (delete k (inflight t))
                (updPipe a (OnError (TenantMaxSendErrors (cfg t))) t)
          end
      end
  | _ => t
  end.

(** The step [EvPush] of a failed push is the two calls with nothing in
    between. *)
Lemma workerPush_calls k t : workerPush k true t = workerOnError k (workerDone k t).
Proof.
  unfold workerPush, workerOnError, workerDone.
  destruct (inflight t !! k) as [[msg [|cur]]|] eqn:Hk; rewrite ?Hk; try done.
  destruct (msgPipe msg) as [a|] eqn:Hm; [|by rewrite Hk, Hm].
  destruct (objs t !! a) as [tp|] eqn:Ha; [|by rewrite Hk, Hm, Ha].
  cbn [inflight emit updPipe set_objs set_trace]. rewrite Hk, Hm.
  cbn [objs emit updPipe set_objs set_trace].
  rewrite list_lookup_alter_eq, Ha. cbn [fmap option_fmap option_map].
  destruct t as [tn c ms os ps np q fl sc ss ck tr]. simpl.
  unfold emit, set_inflight, updPipe, set_objs, set_trace. simpl. f_equal.
  rewrite list_alter_alter_eq. by apply list_alter_ext.
Qed.

(** C2. The campaign of a pipe whose consecutive delivery failures reach the
    threshold is not always paused. [worker] calls [wg.Done()] before
    [OnError()]; when the failed message is the last one outstanding, the
    first call brings the wait group to zero, and the goroutine that waits
    for it can run [cleanup] before the second call sets the flags. Here the
    threshold is 2, the campaign has two subscribers, the delivery to the
    first has failed and batching has ended. The delivery to the second
    fails: after [wg.Done()] the run of consecutive failures is 2 and the
    wait group is at zero; [cleanup] runs, finds no flag set, and writes the
    status finished and sends the notification of the end of the campaign;
    then [OnError()] sets the stopped and the with-errors flag. The waiting
    goroutine has ended, so that no status paused is written and no failure
    notification is sent for the pipe. Had [OnError()] run before
    [cleanup], the campaign would be paused. *)
Theorem error_threshold_race :
  let t0 := exec [EvAddMessenger "email"; EvScan (Some [exDue]);
                  EvRun (Some [exSub 5; exSub 10]); EvRecv; EvRecv;
                  EvPush 0 true; EvRun (Some [])]
                 (createTenantInstance 7 exConfig 0) in
  let t1 := workerDone 0 t0 in
  let t2 := step (EvWait 0 (Some exCampaign)) t1 in
  let t3 := workerOnError 0 t2 in
  TenantMaxSendErrors (cfg t0) = 2 ∧
  objs t0 !! 0%nat = Some (mkPipe 7 exCampaign 0 (mkWG 3 2) 0 0 1 false false true) ∧
  (∃ msg, inflight t0 = [(msg, Pushing)] ∧ msgPipe msg = Some 0%nat) ∧
  campMsgQ t0 = [] ∧
  failRun 0 (trace t1) = 2 ∧
  objs t1 !! 0%nat = Some (mkPipe 7 exCampaign 0 (mkWG 3 3) 0 0 1 false false true) ∧
  added t1 t2
  = [Cleanup 0; UpdateTenantCampaignCounts 7 1 0 0 0; GetTenantCampaign 7 1;
     UpdateTenantCampaignStatus 7 1 CampaignStatusFinished;
     fnNotify 7 1 CampaignStatusFinished ""] ∧
  objs t3 !! 0%nat = Some (mkPipe 7 exCampaign 0 (mkWG 3 3) 0 0 2 true true false) ∧
  trace t3 = trace t2 ∧
  foldl storeStatus ∅ (trace t3) !! (7, 1) = Some CampaignStatusFinished ∧
  (∀ resp, step (EvWait 0 resp) t3 = t3) ∧
  added (workerOnError 0 t1)
        (step (EvWait 0 (Some exCampaign)) (workerOnError 0 t1))
  = [Cleanup 0; UpdateTenantCampaignCounts 7 1 0 0 0;
     UpdateTenantCampaignStatus 7 1 CampaignStatusPaused;
     fnNotify 7 1 CampaignStatusPaused "Too many errors"].
Proof.
  intros t0 t1 t2 t3.
  split; [vm_compute; reflexivity|]. split; [vm_compute; reflexivity|].
  split; [eexists; split; [vm_compute; reflexivity|reflexivity]|].
  split; [vm_compute; reflexivity|]. split; [vm_compute; reflexivity|].
  split; [vm_compute; reflexivity|]. split; [vm_compute; reflexivity|].
  split; [vm_compute; reflexivity|]. split; [vm_compute; reflexivity|].
  split; [vm_compute; reflexivity|].
  split; [|vm_compute; reflexivity].
  intros resp. simpl. unfold waitIter.
  assert (objs t3 !! 0%nat
          = Some (mkPipe 7 exCampaign 0 (mkWG 3 3) 0 0 2 true true false)) as ->
    by (vm_compute; reflexivity).
  done.
Qed.

(** ** The wait group of a pipe *)

(** The pipe at [a] has left [nextPipes] and its batching has not ended:
    the loop of [run] has received it for the last time. *)
Definition Abandoned (t : tenantInstanceManager) (a : nat) : Prop :=
  (a < length (objs t))%nat ∧ (a ∉ nextPipes t) ∧
  cnt (isBatchEnd a) (trace t) = 0.

Ltac framed H :=
  let H1 := fresh in let H2 := fresh in let H3 := fresh in
  destruct H as (H1 & H2 & H3); simpl in H1, H2, H3; unfold Abandoned; simpl;
  rewrite ?length_alter, ?length_insert, ?length_app, ?cnt_app; simpl;
  split; [lia|split; [done|lia]].

Lemma slide_Abandoned i t a : Abandoned t a → Abandoned (slide i t) a.
Proof. intros H. unfold slide. repeat case_match; framed H. Qed.

Lemma pushOne_Abandoned b c i t a : Abandoned t a → Abandoned (pushOne b c i t) a.
Proof.
  intros H. unfold pushOne. destruct (renderErr i); [done|]. cbv zeta.
  case_match; [apply slide_Abandoned|]; framed H.
Qed.

Lemma pushBatch_Abandoned b c subs t a :
  Abandoned t a → Abandoned (pushBatch b c subs t) a.
Proof.
  unfold pushBatch. revert t. induction subs as [|i subs IH]; intros t H; [done|].
  simpl. by apply IH, pushOne_Abandoned.
Qed.

Lemma submit_Abandoned b t a : b ≠ a → Abandoned t a → Abandoned (submit b t) a.
Proof.
  intros Hb (H1 & H2 & H3). unfold submit. case_match; [|done].
  split; [done|]. split; [|done]. simpl. intros Hin.
  apply elem_of_app in Hin as [Hin|Hin]; [done|].
  apply list_elem_of_singleton in Hin. by subst.
Qed.

Lemma runIter_Abandoned resp t a : Abandoned t a → Abandoned (runIter resp t) a.
Proof.
  intros H. unfold runIter.
  destruct (nextPipes t) as [|b rest] eqn:Hnp; [done|]. cbv zeta.
  assert (Hb : b ≠ a).
  { intros ->. destruct H as (_ & H & _). apply H. rewrite Hnp. left. }
  assert (H0 : Abandoned (set_nextPipes rest t) a).
  { destruct H as (H1 & H2 & H3). split; [done|]. split; [|done].
    simpl. intros Hin. apply H2. rewrite Hnp. by right. }
  change (objs (set_nextPipes rest t)) with (objs t).
  destruct (objs t !! b) as [tp|]; [|done].
  unfold NextSubscribers. cbv zeta.
  set (t1 := emit _ _).
  assert (H1 : Abandoned t1 a) by (unfold t1; framed H0).
  clearbody t1.
  destruct resp as [[|i subs]|]; [| |done].
  - destruct H1 as (H1 & H2 & H3). unfold Abandoned. simpl.
    rewrite length_alter, cnt_app. simpl.
    rewrite bool_decide_eq_false_2 by done. split; [done|]. split; [done|lia].
  - by apply submit_Abandoned, pushBatch_Abandoned.
Qed.

Lemma collect_Abandoned acc e a : Abandoned acc.1 a → Abandoned (collect acc e).1 a.
Proof.
  intros H. unfold collect. destruct (objs acc.1 !! e.2); [|done]. framed H.
Qed.

Lemma startCampaign_Abandoned t d a :
  Abandoned t a → Abandoned (startCampaign t d) a.
Proof.
  intros H. unfold startCampaign, newTenantPipe.
  destruct (negb (bool_decide (campMessenger (dueCamp d) ∈ messengers t)));
    [framed H|].
  destruct (tplErr d); [done|].
  destruct (attachMedia _ _ _) as [atts|]; [|done].
  apply submit_Abandoned; [destruct H; lia|]. framed H.
Qed.

Lemma scanTick_Abandoned resp t a : Abandoned t a → Abandoned (scanTick resp t) a.
Proof.
  intros H. unfold scanTick, getCurrentCampaigns.
  assert (H1 : ∀ l acc, Abandoned acc.1 a → Abandoned (foldl collect acc l).1 a).
  { induction l as [|e l IH]; intros acc Hacc; simpl; [done|].
    by apply IH, collect_Abandoned. }
  assert (H2 : ∀ cs t0, Abandoned t0 a → Abandoned (foldl startCampaign t0 cs) a).
  { induction cs as [|d cs IH]; intros t0 H0; simpl; [done|].
    by apply IH, startCampaign_Abandoned. }
  cbv zeta.
  set (r := foldl collect (t, ([], [])) (map_to_list (pipes t))).
  assert (Hr : Abandoned r.1 a) by (by apply H1).
  assert (He : Abandoned (emit (NextTenantCampaigns (tim_tenantID r.1) r.2.1 r.2.2) r.1) a)
    by framed Hr.
  destruct resp as [cs|]; [by apply H2|done].
Qed.

Lemma waitIter_Abandoned b resp t a : Abandoned t a → Abandoned (waitIter b resp t) a.
Proof.
  intros H. unfold waitIter. destruct (objs t !! b) as [tp|]; [|done].
  case_match; [|done].
  destruct (cleanup_trace b tp resp (updPipe b (set_waiter false) t))
    as (l & Hl & Hquiet).
  destruct (cleanup_queues b tp resp (updPipe b (set_waiter false) t)) as (Hn & _).
  assert (Ho : objs (cleanup b tp resp (updPipe b (set_waiter false) t))
               = alter (set_waiter false) b (objs t)).
  { unfold cleanup. repeat case_match; done. }
  destruct H as (H1 & H2 & H3). unfold Abandoned.
  rewrite Ho, Hn, Hl, length_alter, cnt_app. simpl.
  split; [done|]. split; [done|].
  assert (cnt (isBatchEnd a) l = 0); [|lia].
  clear Hl. induction Hquiet as [|x l Hx _ IH]; simpl; [done|].
  rewrite IH. by destruct x.
Qed.

Lemma step_Abandoned e t a : Abandoned t a → Abandoned (step e t) a.
Proof.
  intros H. destruct e; simpl.
  - case_match; [by apply scanTick_Abandoned|done].
  - by apply runIter_Abandoned.
  - unfold workerRecv. repeat case_match; try done; framed H.
  - unfold workerPush. repeat case_match; try done; framed H.
  - unfold workerFinish. repeat case_match; try done; framed H.
  - unfold StopCampaign. case_match; [framed H|done].
  - by apply waitIter_Abandoned.
  - unfold AddMessenger. case_match; [done|]. simpl. framed H.
Qed.

Lemma exec_Abandoned evs t a : Abandoned t a → Abandoned (exec evs t) a.
Proof.
  unfold exec. revert t. induction evs as [|e evs IH]; intros t H; [done|].
  simpl. by apply IH, step_Abandoned.
Qed.

(** A pipe that the loop of [run] has received for the last time before its
    batching ended keeps its wait group above zero, and [cleanup] has not
    run for it. *)
Lemma Abandoned_waits t a :
  Inv t → Abandoned t a →
  ∃ p, objs t !! a = Some p ∧ wgDones (wg p) < wgAdds (wg p) ∧
       waiter p = true ∧ cnt (isCleanup a) (trace t) = 0.
Proof.
  intros (I1 & _) (H1 & H2 & H3).
  destruct (lookup_lt_is_Some_2 (objs t) a H1) as [p Hp]. exists p.
  destruct (I1 a p Hp)
    as (W1 & W2 & W3 & W4 & W5 & W6 & W7 & E1 & E3 & E4 & N1 & N2 & N3).
  simpl in *. split; [done|].
  assert (Hlt : wgDones (wg p) < wgAdds (wg p)) by lia.
  split; [done|]. unfold wgCounter in W7.
  destruct (waiter p); [done|]. specialize (W7 eq_refl). lia.
Qed.

(** C1. The decrements of the wait group of a pipe do not always come to
    equal its increments, and [cleanup] does not always run. [run] receives
    the pipe from [nextPipes] and the fetch of its batch fails:
    [NextSubscribers] returns an error, and [run] goes on to the next pipe;
    it neither queues the pipe again nor calls [wg.Done()]. Here the fetch
    of the first batch of the campaign of the examples fails. The wait group
    of its pipe has one increment, the sentinel, and no decrement; and
    whatever the instance does next, the decrements stay below the
    increments and [cleanup] does not run for the pipe. *)
Theorem wait_group_never_released :
  let t0 := exec [EvAddMessenger "email"; EvScan (Some [exDue]); EvRun None]
                 (createTenantInstance 7 exConfig 0) in
  (∃ p, objs t0 !! 0%nat = Some p ∧ wgAdds (wg p) = 1 ∧ wgDones (wg p) = 0) ∧
  ∀ evs, ∃ p, objs (exec evs t0) !! 0%nat = Some p ∧
    wgDones (wg p) < wgAdds (wg p) ∧
    cnt (isCleanup 0%nat) (trace (exec evs t0)) = 0.
Proof.
  intros t0. split.
  { eexists. split; [vm_compute; reflexivity|]. done. }
  intros evs.
  assert (HA : Abandoned t0 0).
  { split; [vm_compute; lia|]. split; [|by vm_compute].
    assert (nextPipes t0 = []) as -> by (vm_compute; reflexivity).
    apply not_elem_of_nil. }
  assert (HI : Inv (exec evs t0)).
  { apply reachable_Inv.
    - apply reachable_exec. exists 7, exConfig, 0. eexists. reflexivity.
    - rewrite exec_cfg. unfold two63. vm_compute. done. }
  destruct (Abandoned_waits _ 0%nat HI (exec_Abandoned evs t0 0%nat HA))
    as (p & Hp & Hlt & _ & Hc).
  by exists p.
Qed.

(** The accounts of the wait group of a pipe of a reachable instance: it
    has been incremented once at creation plus once per enqueued message,
    and decremented once per dequeue outcome (delivered, failed, or
    discarded for a stopped pipe) plus once when batching has ended with no
    subscribers returned, which happens at most once. The decrements never
    exceed the increments, and they are equal exactly when batching has
    ended and no message of the pipe is queued or past the stopped check of
    a worker. [cleanup] runs at most once, only when they are equal, and
    when they are equal it has run once the waiting goroutine has taken its
    turn. *)
Lemma wait_group_accounts (t : tenantInstanceManager) (a : nat) (p : tenantPipe) :
  reachable t →
  TenantMaxSendErrors (cfg t) < two63 →
  objs t !! a = Some p →
  wgAdds (wg p) = 1 + cnt (isEnq a) (trace t) ∧
  wgDones (wg p) = cnt (isDeq a) (trace t) + cnt (isBatchEnd a) (trace t) ∧
  0 ≤ cnt (isBatchEnd a) (trace t) ≤ 1 ∧
  wgDones (wg p) ≤ wgAdds (wg p) ∧
  (wgAdds (wg p) = wgDones (wg p) ↔
   cnt (isBatchEnd a) (trace t) = 1 ∧ cnt (queuedFor a) (campMsgQ t) = 0 ∧
   cnt (pushingFor a) (inflight t) = 0) ∧
  0 ≤ cnt (isCleanup a) (trace t) ≤ 1 ∧
  (cnt (isCleanup a) (trace t) = 1 → wgAdds (wg p) = wgDones (wg p)) ∧
  (wgAdds (wg p) = wgDones (wg p) →
   ∀ resp, cnt (isCleanup a) (trace (step (EvWait a resp) t)) = 1).
Proof.
  intros Hr HT Hobj.
  pose proof (reachable_Inv t Hr HT) as HI.
  destruct HI as (I1 & I2 & I3).
  destruct (I1 a p Hobj)
    as (W1 & W2 & W3 & W4 & W5 & W6 & W7 & E1 & E3 & E4 & N1 & N2 & N3).
  simpl in W1, W2, W3, W4, W5, W6, W7, N1, N2, N3. unfold wgCounter in W7.
  split; [done|]. split; [done|]. split; [done|]. split; [lia|].
  split; [split; lia|].
  split; [destruct (waiter p); lia|].
  split; [destruct (waiter p); [lia|specialize (W7 eq_refl); lia]|].
  intros Heq resp. destruct (waiter p) eqn:Hw.
  - simpl. rewrite (waitIter_fires a resp t p) by (unfold wgCounter; done || lia).
    destruct (cleanup_trace a p resp (updPipe a (set_waiter false) t))
      as (l & Hl & Hquiet).
    rewrite Hl, cnt_app. simpl. rewrite bool_decide_eq_true_2 by done.
    rewrite (cnt_quiet isCleanup a l); [simpl; lia| |done].
    intros x Hx. by destruct x.
  - simpl. unfold waitIter. rewrite Hobj, Hw. done.
Qed.

(** A complete run of the campaign of the examples: three messages are
    queued and delivered, the next batch is empty, and the waiting
    goroutine takes its turn. *)
Definition exDone : tenantInstanceManager :=
  exec [EvAddMessenger "email"; EvScan (Some [exDue]);
        EvRun (Some [exSub 5; exSub 10; exSub 11]);
        EvRecv; EvRecv; EvPush 0 false; EvFinish 0; EvPush 0 false; EvFinish 0;
        EvRecv; EvPush 0 false; EvFinish 0;
        EvRun (Some []); EvWait 0 (Some exCampaign)]
       (createTenantInstance 7 exConfig 0).

Lemma wait_group_accounts_witness :
  ∃ p, objs exDone !! 0%nat = Some p ∧
       wgAdds (wg p) = 4 ∧ wgDones (wg p) = 4 ∧
       cnt (isCleanup 0%nat) (trace exDone) = 1.
Proof.
  assert (Hr : reachable exDone).
  { exists 7, exConfig, 0. eexists. reflexivity. }
  assert (ET : TenantMaxSendErrors (cfg exDone) = 2) by (vm_compute; reflexivity).
  assert (HT : TenantMaxSendErrors (cfg exDone) < two63)
    by (rewrite ET; unfold two63; lia).
  assert (EC : cnt (isCleanup 0%nat) (trace exDone) = 1) by (vm_compute; reflexivity).
  assert (EE : cnt (isEnq 0%nat) (trace exDone) = 3) by (vm_compute; reflexivity).
  eexists. split; [vm_compute; reflexivity|].
  destruct (wait_group_accounts exDone 0%nat _ Hr HT ltac:(vm_compute; reflexivity))
    as (H1 & _ & _ & _ & _ & _ & H7 & _).
  specialize (H7 EC). rewrite EE in H1.
  split; [exact H1|]. split; [by rewrite <- H7|exact EC].
Defined.

(** * The managers and the configuration of a tenant *)

(** ** NewTenantManager and the defaults of the configuration *)

(** The first statements of [NewTenantManager] (and of [New]): a batch
    size, a concurrency or a message rate below 1 is replaced. *)
Definition cfgDefaults (cfg : Config) : Config :=
  let batchSize := if BatchSize cfg <? 1 then 1000 else BatchSize cfg in
  let concurrency := if Concurrency cfg <? 1 then 1 else Concurrency cfg in
  let messageRate := if MessageRate cfg <? 1 then 1 else MessageRate cfg in
  mkConfig batchSize concurrency messageRate (MaxSendErrors cfg) (SlidingWindow cfg)
           (SlidingWindowDuration cfg) (SlidingWindowRate cfg) (FromEmail cfg)
           (RootURL cfg) (ScanCampaigns cfg).

(** [TenantManager]: the configuration, the instances by tenant id, and the
    tenants marked active. *)
Record TenantManager := mkTenantManager {
  tm_cfg : Config;
  tenantManagers : gmap Z tenantInstanceManager;
  activeTenants : gmap Z bool
}.

Definition NewTenantManager (cfg : Config) : TenantManager :=
  mkTenantManager (cfgDefaults cfg) ∅ ∅.

(** ** getFromEmail *)

(** [tenantInstanceManager.getFromEmail]; [campFromEmail] is [c.FromEmail]. *)
Definition getFromEmail (c : TenantConfig) (campFromEmail : string) : string :=
  if negb (String.eqb campFromEmail "") then campFromEmail
  else if negb (String.eqb (TenantFromEmail c) "") then TenantFromEmail c
  else FromEmail (base c).

(** ** ManagerFactory *)

(** [ManagerMode]: [SingleTenantMode] is 0 and [MultiTenantMode] is 1. *)
Definition ManagerMode : Type := Z.
Definition SingleTenantMode : ManagerMode := 0.
Definition MultiTenantMode : ManagerMode := 1.

Definition DetermineMode (cfg : Config) (hasMultiTenancy : bool) : ManagerMode :=
  if hasMultiTenancy then MultiTenantMode else SingleTenantMode.

(** What [CreateManager] returns: a [*Manager] (by the configuration that
    [New] keeps), a [*TenantManager], or an error. *)
Inductive created :=
| SingleManager (cfg : Config)
| MultiManager (tm : TenantManager)
| CreateError (msg : string).

(** [ManagerFactory]: [store] and [tenantStore] tell whether the field is
    not nil. *)
Record ManagerFactory := mkManagerFactory {
  mf_mode : ManagerMode;
  mf_cfg : Config;
  mf_store : bool;
  mf_tenantStore : bool
}.

Definition CreateManager (mf : ManagerFactory) : created :=
  if mf_mode mf =? SingleTenantMode then
    if negb (mf_store mf) then CreateError "store is required for single-tenant mode"
    else SingleManager (cfgDefaults (mf_cfg mf))
  else if mf_mode mf =? MultiTenantMode then
    if negb (mf_tenantStore mf)
    then CreateError "tenant store is required for multi-tenant mode"
    else MultiManager (NewTenantManager (mf_cfg mf))
  else CreateError ("unknown manager mode: " +:+ itoa (mf_mode mf)).

(** ** TenantConfigValidator *)

Record TenantConfigValidator := mkValidator {
  requiredSMTPFields : list string;
  requiredURLFields : list string
}.

Definition NewTenantConfigValidator : TenantConfigValidator :=
  mkValidator ["smtp_host"; "smtp_port"; "from_email"] ["root_url"].

Section ValidateTenantConfig.

Variable float64 : Type.

(** The loop [for _, field := range fields] with its early return: the
    first field that the settings do not hold. *)
Fixpoint firstMissing (fields : list string) (settings : gmap string (value float64))
    : option string :=
  match fields with
  | [] => None
  | field :: rest =>
      match settings !! field with
      | None => Some field
      | Some _ => firstMissing rest settings
      end
  end.

(** [ValidateTenantConfig]: [None] is the nil error, [Some msg] an error
    with the message [msg]. *)
Definition ValidateTenantConfig (tcv : TenantConfigValidator) (tenantID : Z)
    (settings : gmap string (value float64)) : option string :=
  match firstMissing (requiredSMTPFields tcv) settings with
  | Some field =>
      Some ("tenant " +:+ itoa tenantID +:+ " missing required SMTP configuration: "
            +:+ field)
  | None =>
      match firstMissing (requiredURLFields tcv) settings with
      | Some field =>
          Some ("tenant " +:+ itoa tenantID +:+ " missing required URL configuration: "
                +:+ field)
      | None =>
          match settings !! "smtp_port" with
          | Some (VFloat64 _) => None
          | Some _ => Some ("tenant " +:+ itoa tenantID +:+ ": smtp_port must be numeric")
          | None => None
          end
      end
  end.

End ValidateTenantConfig.

(** ** Properties of the configuration *)

Lemma cfgDefaults_positive cfg :
  1 ≤ BatchSize (cfgDefaults cfg) ∧ 1 ≤ Concurrency (cfgDefaults cfg) ∧
  1 ≤ MessageRate (cfgDefaults cfg).
Proof. unfold cfgDefaults. simpl. repeat case_match; lia. Qed.

Section ConfigProperties.

Variable float64 : Type.
Variable gt0 : float64 → bool.
Variable toInt : float64 → Z.

(** X1. The limits of a tenant under a manager made by [NewTenantManager]:
    where the settings of the tenant hold no positive number for the batch
    size, the concurrency or the message rate, the tenant gets the global
    value when that is at least 1 and the default (1000, 1, 1) otherwise, so
    the limit is at least 1; the error threshold has no default and is the
    global value as it is. *)
Theorem tenant_limits_defaults (cfg : Config) (settings : gmap string (value float64))
    (tenant : Z) :
  ∃ tc, loadTenantConfig float64 gt0 toInt (tm_cfg (NewTenantManager cfg))
          (Some settings) tenant = Some tc ∧
    (storedPositive float64 gt0 settings "max_batch_size" = None →
     TenantMaxBatchSize tc = (if BatchSize cfg <? 1 then 1000 else BatchSize cfg) ∧
     1 ≤ TenantMaxBatchSize tc) ∧
    (storedPositive float64 gt0 settings "max_concurrency" = None →
     TenantMaxConcurrency tc = Z.max 1 (Concurrency cfg)) ∧
    (storedPositive float64 gt0 settings "message_rate" = None →
     TenantMessageRate tc = Z.max 1 (MessageRate cfg)) ∧
    (storedPositive float64 gt0 settings "max_send_errors" = None →
     TenantMaxSendErrors tc = MaxSendErrors cfg).
Proof.
  eexists. split; [reflexivity|]. simpl. unfold storedPositive.
  split; [|split; [|split]].
  - intros H. repeat case_match; simplify_eq; lia.
  - intros H. repeat case_match; simplify_eq; lia.
  - intros H. repeat case_match; simplify_eq; lia.
  - intros H. repeat case_match; simplify_eq; lia.
Qed.

(** X2. The sender address of a campaign of a tenant whose configuration
    comes from [loadTenantConfig]: the address of the campaign when it has
    one, otherwise the [from_email] setting of the tenant when that is a
    string that is not empty, otherwise the global address; so the sender is
    empty only when the campaign has none and the global address is empty. *)
Theorem from_email_resolution (gcfg : Config) (settings : gmap string (value float64))
    (tenant : Z) (campFromEmail : string) :
  ∃ tc, loadTenantConfig float64 gt0 toInt gcfg (Some settings) tenant = Some tc ∧
    getFromEmail tc campFromEmail
    = (if String.eqb campFromEmail "" then
         match settings !! "from_email" with
         | Some (VString s) => if String.eqb s "" then FromEmail gcfg else s
         | _ => FromEmail gcfg
         end
       else campFromEmail) ∧
    (getFromEmail tc campFromEmail = "" → campFromEmail = "" ∧ FromEmail gcfg = "").
Proof.
  eexists. split; [reflexivity|]. unfold getFromEmail. simpl.
  destruct (String.eqb campFromEmail "") eqn:Hc; simpl.
  - apply String.eqb_eq in Hc. subst.
    destruct (settings !! "from_email") as [[| |x|s|]|]; simpl;
      try (destruct (String.eqb (FromEmail gcfg) "") eqn:Hg; simpl;
           [apply String.eqb_eq in Hg; by rewrite Hg|
            split; [done|]; intros E; rewrite E in Hg; done]).
    destruct (String.eqb s "") eqn:Hs; simpl; [done|].
    split; [done|]. intros E. rewrite E in Hs. done.
  - split; [done|]. intros E. rewrite E in Hc. done.
Qed.

(** X3. What [loadTenantConfig] reads: two maps of settings that agree on
    the nine keys [from_email], [smtp_host], [smtp_port], [smtp_username],
    [smtp_password], [max_batch_size], [max_concurrency], [message_rate]
    and [max_send_errors] give the same configuration, whatever else they
    hold (a [root_url], say); and the TLS flags of the tenant are never
    set. *)
Theorem loadTenantConfig_reads (gcfg : Config)
    (settings settings' : gmap string (value float64)) (tenant : Z) :
  (∀ key, key ∈ ["from_email"; "smtp_host"; "smtp_port"; "smtp_username";
                 "smtp_password"; "max_batch_size"; "max_concurrency";
                 "message_rate"; "max_send_errors"] →
          settings' !! key = settings !! key) →
  loadTenantConfig float64 gt0 toInt gcfg (Some settings') tenant
  = loadTenantConfig float64 gt0 toInt gcfg (Some settings) tenant ∧
  ∃ tc, loadTenantConfig float64 gt0 toInt gcfg (Some settings) tenant = Some tc ∧
        TenantSMTPTLS tc = false ∧ TenantSMTPSkipVerify tc = false ∧
        base tc = gcfg ∧ TenantID tc = tenant.
Proof.
  intros H. split; [|by eexists].
  unfold loadTenantConfig.
  rewrite !H by (repeat (first [by left | right])). done.
Qed.

(** X4. [ValidateTenantConfig] with the validator of
    [NewTenantConfigValidator] accepts the settings exactly when they hold
    [smtp_host], [from_email] and [root_url] (with any value) and a number
    under [smtp_port]; and for accepted settings [loadTenantConfig] takes
    the SMTP port of the tenant from that number. *)
Theorem ValidateTenantConfig_accepts (tenantID : Z)
    (settings : gmap string (value float64)) :
  (ValidateTenantConfig float64 NewTenantConfigValidator tenantID settings = None
   ↔ is_Some (settings !! "smtp_host") ∧
     (∃ x, settings !! "smtp_port" = Some (VFloat64 x)) ∧
     is_Some (settings !! "from_email") ∧ is_Some (settings !! "root_url")) ∧
  (ValidateTenantConfig float64 NewTenantConfigValidator tenantID settings = None →
   ∀ gcfg, ∃ tc x,
     loadTenantConfig float64 gt0 toInt gcfg (Some settings) tenantID = Some tc ∧
     settings !! "smtp_port" = Some (VFloat64 x) ∧ TenantSMTPPort tc = toInt x).
Proof.
  assert (Hiff :
    ValidateTenantConfig float64 NewTenantConfigValidator tenantID settings = None
    ↔ is_Some (settings !! "smtp_host") ∧
      (∃ x, settings !! "smtp_port" = Some (VFloat64 x)) ∧
      is_Some (settings !! "from_email") ∧ is_Some (settings !! "root_url")).
  { unfold ValidateTenantConfig. simpl. split.
    - intros H.
      destruct (settings !! "smtp_host") as [v1|]; [|done].
      destruct (settings !! "smtp_port") as [v2|]; [|done].
      destruct (settings !! "from_email") as [v3|]; [|done].
      destruct (settings !! "root_url") as [v4|]; [|done].
      destruct v2; try done. repeat split; by eexists.
    - intros ([v1 ->] & [x ->] & [v3 ->] & [v4 ->]). done. }
  split; [exact Hiff|]. intros H gcfg.
  apply Hiff in H as (_ & [x Hx] & _). eexists. exists x.
  split; [reflexivity|]. split; [done|]. simpl. by rewrite Hx.
Qed.

(** X5. The error of [ValidateTenantConfig]: the first of [smtp_host],
    [smtp_port], [from_email] that is missing is reported as a missing SMTP
    field; when none of them is missing, a missing [root_url] is reported;
    and when all four are there, an [smtp_port] that is not a number. *)
Theorem ValidateTenantConfig_error (tenantID : Z)
    (settings : gmap string (value float64)) :
  let missing kind field :=
    Some ("tenant " +:+ itoa tenantID +:+ " missing required " +:+ kind
          +:+ " configuration: " +:+ field) in
  ValidateTenantConfig float64 NewTenantConfigValidator tenantID settings
  = if bool_decide (settings !! "smtp_host" = None) then missing "SMTP" "smtp_host"
    else if bool_decide (settings !! "smtp_port" = None) then missing "SMTP" "smtp_port"
    else if bool_decide (settings !! "from_email" = None) then missing "SMTP" "from_email"
    else if bool_decide (settings !! "root_url" = None) then missing "URL" "root_url"
    else match settings !! "smtp_port" with
         | Some (VFloat64 _) => None
         | _ => Some ("tenant " +:+ itoa tenantID +:+ ": smtp_port must be numeric")
         end.
Proof.
  intros missing. unfold ValidateTenantConfig, missing. simpl.
  destruct (settings !! "smtp_host") as [v1|]; simpl; [|done].
  destruct (settings !! "smtp_port") as [v2|]; simpl; [|done].
  destruct (settings !! "from_email") as [v3|]; simpl; [|done].
  destruct (settings !! "root_url") as [v4|]; simpl; [|done].
  by destruct v2.
Qed.

End ConfigProperties.

Lemma loadTenantConfig_reads_witness :
  loadTenantConfig Z (Z.ltb 0) id (base exConfig)
    (Some (<["root_url" := VString "https://tenant.example.com"]> exSettings)) 7
  = loadTenantConfig Z (Z.ltb 0) id (base exConfig) (Some exSettings) 7.
Proof.
  apply (loadTenantConfig_reads Z (Z.ltb 0) id (base exConfig) exSettings).
  intros key Hk. apply lookup_insert_ne.
  rewrite !elem_of_cons in Hk.
  destruct Hk as [->|[->|[->|[->|[->|[->|[->|[->|[->|Hk]]]]]]]]]; try done.
  by apply elem_of_nil in Hk.
Defined.

(** X6. [CreateManager] for the mode that [DetermineMode] chose never
    fails on the mode: it gives a manager of the single-tenant kind or of
    the multi-tenant kind as multi-tenancy is off or on, with the defaults
    applied to the configuration, when the store of that kind is there, and
    the error that names the missing store otherwise. *)
Theorem CreateManager_DetermineMode (cfg : Config) (hasMultiTenancy store tenantStore : bool) :
  CreateManager (mkManagerFactory (DetermineMode cfg hasMultiTenancy) cfg store tenantStore)
  = if hasMultiTenancy then
      if tenantStore then MultiManager (mkTenantManager (cfgDefaults cfg) ∅ ∅)
      else CreateError "tenant store is required for multi-tenant mode"
    else
      if store then SingleManager (cfgDefaults cfg)
      else CreateError "store is required for single-tenant mode".
Proof. by destruct hasMultiTenancy, store, tenantStore. Qed.

(** * Tracking links *)

(** [strings.ReplaceAll(url, "&amp;", "&")]: the occurrences of [&amp;]
    that do not overlap, from the left, are replaced. *)
Fixpoint unescapeAmp (s : string) : string :=
  match s with
  | String "&"%char
      (String "a"%char (String "m"%char (String "p"%char (String ";"%char rest)))) =>
      String "&"%char (unescapeAmp rest)
  | String c rest => String c (unescapeAmp rest)
  | EmptyString => EmptyString
  end.

Definition dummyUUID : string := "00000000-0000-0000-0000-000000000000".

(** The format of the tracking pixel, [<img src=Q%sQ alt=QQ />] with a
    double quote for each [Q]. *)
Definition dquote : string := String (Ascii.ascii_of_nat 34) EmptyString.
Definition imgFormat : string :=
  "<img src=" +:+ dquote +:+ "%s" +:+ dquote +:+ " alt=" +:+ dquote +:+ dquote +:+ " />".

(** The fields of [Config] that the tracking functions read. *)
Record trackConfig := mkTrackConfig {
  IndividualTracking : bool;
  LinkTrackURL : string;
  ViewTrackURL : string
}.

(** The result of [trackLink]: the link, the cache [tim.links] afterwards,
    and the URL that [store.CreateTenantLink] was called with, if it was. *)
Record tracked := mkTracked {
  trLink : string;
  trLinks : gmap string string;
  trCreated : option string
}.

(** One call of the template function [TrackLink] as a template makes
    it: the URL, the UUIDs of the campaign and of the subscriber of the
    message, and the answer of the store if it is asked. *)
Record linkCall := mkLinkCall {
  lcURL : string;
  lcCampUUID : string;
  lcSubUUID : string;
  lcResp : option string
}.

Section TrackLink.

(** [fmt.Sprintf] with a format and its arguments. *)
Variable Sprintf : string → list string → string.

(** [tenantInstanceManager.trackLink]; [resp] is the answer of
    [store.CreateTenantLink] ([None] for an error). *)
Definition trackLink (c : trackConfig) (url campUUID subUUID : string)
    (resp : option string) (links : gmap string string) : tracked :=
  let url := unescapeAmp url in
  match links !! url with
  | Some uu => mkTracked (Sprintf (LinkTrackURL c) [uu; campUUID; subUUID]) links None
  | None =>
      match resp with
      | None => mkTracked url links (Some url)
      | Some uu =>
          mkTracked (Sprintf (LinkTrackURL c) [uu; campUUID; subUUID])
                    (<[url := uu]> links) (Some url)
      end
  end.

(** The template functions [TrackLink] and [TrackView] of [TemplateFuncs]. *)
Definition TrackLink (c : trackConfig) (url campUUID subUUID : string)
    (resp : option string) (links : gmap string string) : tracked :=
  let subUUID := if negb (IndividualTracking c) then dummyUUID else subUUID in
  trackLink c url campUUID subUUID resp links.

Definition TrackView (c : trackConfig) (campUUID subUUID : string) : string :=
  let subUUID := if negb (IndividualTracking c) then dummyUUID else subUUID in
  Sprintf imgFormat [Sprintf (ViewTrackURL c) [campUUID; subUUID]].

(** The cache after a sequence of [TrackLink] calls. *)
Definition trackAll (c : trackConfig) (calls : list linkCall)
    (links : gmap string string) : gmap string string :=
  foldl (λ links k,
           trLinks (TrackLink c (lcURL k) (lcCampUUID k) (lcSubUUID k) (lcResp k) links))
        links calls.

Lemma trackLink_keeps c url campUUID subUUID resp links u uu :
  links !! u = Some uu →
  trLinks (trackLink c url campUUID subUUID resp links) !! u = Some uu.
Proof.
  intros H. unfold trackLink.
  destruct (links !! unescapeAmp url) eqn:E; simpl; [done|].
  destruct resp; simpl; [|done].
  rewrite lookup_insert_ne; [done|]. intros <-. congruence.
Qed.

Lemma trackAll_keeps c calls links u uu :
  links !! u = Some uu → trackAll c calls links !! u = Some uu.
Proof.
  unfold trackAll. revert links.
  induction calls as [|k calls IH]; intros links H; simpl; [done|].
  apply IH. by apply trackLink_keeps.
Qed.

(** X7. A link is registered once: after a call of [trackLink] for which
    the store returned the UUID [uu], every later call for the same URL, or
    for one that differs from it in the escaping of [&] only, formats the
    link with [uu], does not ask the store, and leaves the cache as it is,
    whatever calls came in between. *)
Theorem trackLink_registered_once (c : trackConfig) (links : gmap string string)
    (url campUUID subUUID uu : string) (calls : list linkCall)
    (url' campUUID' subUUID' : string) (resp' : option string) :
  links !! unescapeAmp url = None →
  unescapeAmp url' = unescapeAmp url →
  let links1 := trLinks (trackLink c url campUUID subUUID (Some uu) links) in
  let links2 := trackAll c calls links1 in
  trackLink c url' campUUID' subUUID' resp' links2
  = mkTracked (Sprintf (LinkTrackURL c) [uu; campUUID'; subUUID']) links2 None.
Proof.
  intros Hmiss Hurl links1 links2.
  assert (H1 : links1 !! unescapeAmp url = Some uu).
  { unfold links1, trackLink. rewrite Hmiss. simpl. apply lookup_insert_eq. }
  assert (H2 : links2 !! unescapeAmp url = Some uu) by (by apply trackAll_keeps).
  unfold trackLink. by rewrite Hurl, H2.
Qed.

(** X8. What the cache holds: an entry that a sequence of [TrackLink]
    calls has added maps the unescaped URL of one of the calls to the UUID
    that the store returned for that call; a call for which the store
    returned an error adds nothing, and its result is the unescaped URL
    itself. *)
Theorem trackAll_entries (c : trackConfig) (calls : list linkCall)
    (links : gmap string string) (u uu : string) :
  trackAll c calls links !! u = Some uu →
  links !! u = Some uu ∨
  ∃ k, k ∈ calls ∧ unescapeAmp (lcURL k) = u ∧ lcResp k = Some uu.
Proof.
  unfold trackAll. revert links.
  induction calls as [|k calls IH]; intros links H; simpl in H; [by left|].
  apply IH in H as [H|(k' & Hk' & H)].
  - unfold TrackLink, trackLink in H.
    destruct (links !! unescapeAmp (lcURL k)) eqn:E; simpl in H; [by left|].
    destruct (lcResp k) as [uu'|] eqn:Er; simpl in H; [|by left].
    destruct (decide (unescapeAmp (lcURL k) = u)) as [<-|Hne].
    + rewrite lookup_insert_eq in H. injection H as ->.
      right. exists k. split; [left|done].
    + rewrite lookup_insert_ne in H by done. by left.
  - right. exists k'. split; [by right|done].
Qed.

Lemma trackLink_error c url campUUID subUUID links :
  links !! unescapeAmp url = None →
  trackLink c url campUUID subUUID None links
  = mkTracked (unescapeAmp url) links (Some (unescapeAmp url)).
Proof. intros H. unfold trackLink. by rewrite H. Qed.

(** X9. Without individual tracking, what [TrackLink] and [TrackView]
    give does not tell the subscribers apart: the link, the cache and the
    question to the store are the same for any two subscribers. *)
Theorem tracking_without_subscriber (c : trackConfig) (url campUUID sub1 sub2 : string)
    (resp : option string) (links : gmap string string) :
  IndividualTracking c = false →
  TrackLink c url campUUID sub1 resp links = TrackLink c url campUUID sub2 resp links ∧
  TrackView c campUUID sub1 = TrackView c campUUID sub2.
Proof. intros H. unfold TrackLink, TrackView. by rewrite H. Qed.

End TrackLink.

Definition exSprintf (format : string) (args : list string) : string :=
  format +:+ foldr (λ a s, "|" +:+ a +:+ s) "" args.

Definition exTrackConfig : trackConfig :=
  mkTrackConfig false "http://localhost:9000/link/%s/%s/%s"
                "http://localhost:9000/campaign/%s/%s/px.png".

Lemma trackLink_registered_once_witness :
  trackLink exSprintf exTrackConfig "http://example.com/?a=1&b=2" "camp" "sub2" None
    (trackAll exSprintf exTrackConfig
       [mkLinkCall "http://example.com/other" "camp" "sub3" None]
       (trLinks (trackLink exSprintf exTrackConfig "http://example.com/?a=1&amp;b=2"
                   "camp" "sub1" (Some "uuid-1") ∅)))
  = mkTracked (exSprintf "http://localhost:9000/link/%s/%s/%s" ["uuid-1"; "camp"; "sub2"])
      (trackAll exSprintf exTrackConfig
         [mkLinkCall "http://example.com/other" "camp" "sub3" None]
         (trLinks (trackLink exSprintf exTrackConfig "http://example.com/?a=1&amp;b=2"
                     "camp" "sub1" (Some "uuid-1") ∅)))
      None.
Proof.
  apply (trackLink_registered_once exSprintf exTrackConfig ∅
           "http://example.com/?a=1&amp;b=2" "camp" "sub1" "uuid-1"
           [mkLinkCall "http://example.com/other" "camp" "sub3" None]
           "http://example.com/?a=1&b=2" "camp" "sub2" None).
  - reflexivity.
  - vm_compute. reflexivity.
Defined.

Lemma trackAll_entries_witness :
  (∅ : gmap string string) !! "http://example.com/?a=1&b=2" = Some "uuid-1" ∨
  ∃ k, k ∈ [mkLinkCall "http://example.com/?a=1&amp;b=2" "camp" "sub1" (Some "uuid-1")] ∧
       unescapeAmp (lcURL k) = "http://example.com/?a=1&b=2" ∧
       lcResp k = Some "uuid-1".
Proof.
  apply (trackAll_entries exSprintf exTrackConfig
           [mkLinkCall "http://example.com/?a=1&amp;b=2" "camp" "sub1" (Some "uuid-1")]
           ∅ "http://example.com/?a=1&b=2" "uuid-1").
  vm_compute. reflexivity.
Defined.

Lemma tracking_without_subscriber_witness :
  TrackLink exSprintf exTrackConfig "http://example.com/" "camp" "sub1" (Some "uuid-1") ∅
  = TrackLink exSprintf exTrackConfig "http://example.com/" "camp" "sub2" (Some "uuid-1") ∅ ∧
  TrackView exSprintf exTrackConfig "camp" "sub1"
  = TrackView exSprintf exTrackConfig "camp" "sub2".
Proof.
  apply (tracking_without_subscriber exSprintf exTrackConfig "http://example.com/"
           "camp" "sub1" "sub2" (Some "uuid-1") ∅).
  reflexivity.
Defined.

(** * The message rate of a worker *)

(** What a worker receives in one turn of its loop: a campaign message of
    a stopped pipe, any other campaign message, or a message of [msgQ]; and
    what it does. *)
Inductive received := FromStoppedPipe | FromCampaign | FromMsgQ.
Inductive paced := Slept | PushedCampaign | PushedMessage | Dropped.

(** One turn of the loop of [worker], as far as the counter [numMsg] goes:
    the message of a stopped pipe is dropped before the counter is looked
    at, a message of [msgQ] is pushed without it, and before any other
    campaign message is pushed the worker sleeps for a second when the
    counter has reached [TenantMessageRate]. *)
Definition workerTurn (rate : Z) (st : Z * list paced) (r : received)
    : Z * list paced :=
  match r with
  | FromStoppedPipe => (st.1, st.2 ++ [Dropped])
  | FromMsgQ => (st.1, st.2 ++ [PushedMessage])
  | FromCampaign =>
      let st := if rate <=? st.1 then (0, st.2 ++ [Slept]) else st in
      (int64 (st.1 + 1), st.2 ++ [PushedCampaign])
  end.

Definition workerLoop (rate : Z) (rs : list received) : Z * list paced :=
  foldl (workerTurn rate) (0, []) rs.

(** The campaign messages pushed since the last sleep. *)
Definition sinceSleepStep (n : Z) (x : paced) : Z :=
  match x with
  | Slept => 0
  | PushedCampaign => n + 1
  | _ => n
  end.

Definition sinceSleep (out : list paced) : Z := foldl sinceSleepStep 0 out.

Definition isFromCampaign (r : received) : bool :=
  match r with FromCampaign => true | _ => false end.
Definition isFromMsgQ (r : received) : bool :=
  match r with FromMsgQ => true | _ => false end.
Definition isSlept (x : paced) : bool :=
  match x with Slept => true | _ => false end.
Definition isPushedCampaign (x : paced) : bool :=
  match x with PushedCampaign => true | _ => false end.
Definition isPushedMessage (x : paced) : bool :=
  match x with PushedMessage => true | _ => false end.

Lemma sinceSleep_snoc out x : sinceSleep (out ++ [x]) = sinceSleepStep (sinceSleep out) x.
Proof. unfold sinceSleep. by rewrite foldl_app. Qed.

Lemma take_snoc_cases {A} (l : list A) x n :
  take n (l ++ [x]) = take n l ∨ take n (l ++ [x]) = l ++ [x].
Proof.
  destruct (decide (n ≤ length l)%nat) as [H|H].
  - left. by rewrite take_app_le.
  - right. apply take_ge. rewrite length_app. simpl. lia.
Qed.

Lemma workerLoop_snoc rate rs r :
  workerLoop rate (rs ++ [r]) = workerTurn rate (workerLoop rate rs) r.
Proof. unfold workerLoop. by rewrite foldl_app. Qed.

(** The invariant of the loop. *)
Definition paceInv (rate : Z) (rs : list received) (st : Z * list paced) : Prop :=
  let c := cnt isFromCampaign rs in
  st.1 = sinceSleep st.2 ∧ 0 ≤ st.1 ≤ Z.max 1 rate ∧
  (∀ n, sinceSleep (take n st.2) ≤ Z.max 1 rate) ∧
  cnt isPushedCampaign st.2 = c ∧
  cnt isPushedMessage st.2 = cnt isFromMsgQ rs ∧
  (rate < 1 → cnt isSlept st.2 = c) ∧
  (1 ≤ rate →
   (c = 0 ∧ st.1 = 0 ∧ cnt isSlept st.2 = 0) ∨
   (1 ≤ c ∧ st.1 = (c - 1) mod rate + 1 ∧ cnt isSlept st.2 = (c - 1) / rate)).

Lemma workerLoop_paceInv rate rs :
  rate < two63 → paceInv rate rs (workerLoop rate rs).
Proof.
  intros Hrate. unfold paceInv.
  assert (HM : 1 ≤ Z.max 1 rate ∧ rate ≤ Z.max 1 rate ∧
               (rate < 1 → Z.max 1 rate = 1) ∧ (1 ≤ rate → Z.max 1 rate = rate))
    by lia.
  generalize dependent (Z.max 1 rate). intros M HM.
  induction rs as [|r rs IH] using rev_ind.
  { simpl. repeat split; try lia.
    intros n. rewrite take_nil. unfold sinceSleep. simpl. lia. }
  rewrite workerLoop_snoc. destruct (workerLoop rate rs) as [numMsg out].
  destruct IH as (I1 & I2 & I3 & I4 & I5 & I6 & I7). simpl in *.
  rewrite ?cnt_app. simpl.
  assert (Hc : 0 ≤ cnt isFromCampaign rs) by apply cnt_nonneg.
  destruct r; simpl.
  - rewrite ?sinceSleep_snoc, ?cnt_app. simpl. rewrite ?Z.add_0_r.
    split; [done|]. split; [done|]. split.
    { intros n. destruct (take_snoc_cases out Dropped n) as [->| ->]; [apply I3|].
      rewrite sinceSleep_snoc. simpl. lia. }
    done.
  - destruct (rate <=? numMsg) eqn:Hge; simpl.
    + apply Z.leb_le in Hge.
      rewrite int64_small by (unfold two63; lia).
      rewrite ?sinceSleep_snoc, ?cnt_app. simpl. rewrite ?sinceSleep_snoc, ?cnt_app. simpl.
      split; [done|]. split; [lia|]. split.
      { intros n.
        destruct (take_snoc_cases (out ++ [Slept]) PushedCampaign n) as [->| ->].
        - destruct (take_snoc_cases out Slept n) as [->| ->]; [apply I3|].
          rewrite sinceSleep_snoc. simpl. lia.
        - rewrite !sinceSleep_snoc. simpl. lia. }
      split; [lia|]. split; [lia|]. split; [intros H; specialize (I6 H); lia|].
      intros H. right. destruct (I7 H) as [(E1 & E2 & E3)|(E1 & E2 & E3)]; [lia|].
      split; [lia|].
      pose proof (Z.div_mod (cnt isFromCampaign rs - 1) rate ltac:(lia)) as Hdm.
      pose proof (Z.mod_pos_bound (cnt isFromCampaign rs - 1) rate ltac:(lia)) as Hb.
      replace (cnt isFromCampaign rs + (1 + 0) - 1) with (cnt isFromCampaign rs) by lia.
      assert (Heq : cnt isFromCampaign rs
                    = rate * ((cnt isFromCampaign rs - 1) / rate + 1) + 0) by lia.
      assert (Hm : cnt isFromCampaign rs mod rate = 0)
        by (symmetry; apply (Z.mod_unique _ rate _ 0 ltac:(lia) Heq)).
      assert (Hd : cnt isFromCampaign rs / rate
                   = (cnt isFromCampaign rs - 1) / rate + 1)
        by (symmetry; apply (Z.div_unique _ rate _ 0 ltac:(lia) Heq)).
      lia.
    + apply Z.leb_gt in Hge.
      rewrite int64_small by (unfold two63 in *; lia).
      rewrite ?sinceSleep_snoc, ?cnt_app. simpl.
      split; [lia|]. split; [lia|]. split.
      { intros n.
        destruct (take_snoc_cases out PushedCampaign n) as [->| ->]; [apply I3|].
        rewrite sinceSleep_snoc. simpl. lia. }
      split; [lia|]. split; [lia|]. split; [intros H; lia|].
      intros H. right. destruct (I7 H) as [(E1 & E2 & E3)|(E1 & E2 & E3)].
      * rewrite E1, E2, E3. simpl. rewrite Z.mod_0_l, Z.div_0_l by lia. lia.
      * split; [lia|].
        pose proof (Z.div_mod (cnt isFromCampaign rs - 1) rate ltac:(lia)) as Hdm.
        pose proof (Z.mod_pos_bound (cnt isFromCampaign rs - 1) rate ltac:(lia)) as Hb.
        replace (cnt isFromCampaign rs + (1 + 0) - 1) with (cnt isFromCampaign rs) by lia.
        assert (Heq : cnt isFromCampaign rs
                      = rate * ((cnt isFromCampaign rs - 1) / rate)
                        + ((cnt isFromCampaign rs - 1) mod rate + 1)) by lia.
        assert (Hm : cnt isFromCampaign rs mod rate
                     = (cnt isFromCampaign rs - 1) mod rate + 1)
          by (symmetry;
              apply (Z.mod_unique _ rate _ ((cnt isFromCampaign rs - 1) mod rate + 1)
                       ltac:(lia) Heq)).
        assert (Hd : cnt isFromCampaign rs / rate = (cnt isFromCampaign rs - 1) / rate)
          by (symmetry;
              apply (Z.div_unique _ rate _ ((cnt isFromCampaign rs - 1) mod rate + 1)
                       ltac:(lia) Heq)).
        lia.
  - rewrite ?sinceSleep_snoc, ?cnt_app. simpl. rewrite ?Z.add_0_r.
    split; [done|]. split; [done|]. split.
    { intros n. destruct (take_snoc_cases out PushedMessage n) as [->| ->]; [apply I3|].
      rewrite sinceSleep_snoc. simpl. lia. }
    split; [done|]. split; [lia|]. done.
Qed.

(** X10. The message rate of a worker with [TenantMessageRate] set to
    [rate]: at no moment has the worker pushed more than [rate] campaign
    messages (one, for a rate below 1) since its last sleep of a second;
    every campaign message of a pipe that is not stopped and every message
    of [msgQ] is pushed once; with a rate of at least 1 the worker has slept
    once for every [rate] campaign messages before the last one, and with a
    rate below 1 once before every campaign message. *)
Theorem worker_message_rate (rate : Z) (rs : list received) :
  rate < two63 →
  let out := (workerLoop rate rs).2 in
  (∀ n, sinceSleep (take n out) ≤ Z.max 1 rate) ∧
  cnt isPushedCampaign out = cnt isFromCampaign rs ∧
  cnt isPushedMessage out = cnt isFromMsgQ rs ∧
  (1 ≤ rate → 1 ≤ cnt isFromCampaign rs →
   cnt isSlept out = (cnt isFromCampaign rs - 1) / rate) ∧
  (rate < 1 → cnt isSlept out = cnt isFromCampaign rs).
Proof.
  intros Hrate out.
  destruct (workerLoop_paceInv rate rs Hrate) as (I1 & I2 & I3 & I4 & I5 & I6 & I7).
  split; [exact I3|]. split; [exact I4|]. split; [exact I5|]. split; [|exact I6].
  intros H1 H2. destruct (I7 H1) as [(E1 & _)|(_ & _ & E3)]; [lia|exact E3].
Qed.

Lemma worker_message_rate_witness :
  let out := (workerLoop 2 [FromCampaign; FromMsgQ; FromCampaign; FromStoppedPipe;
                            FromCampaign; FromCampaign; FromCampaign]).2 in
  cnt isPushedCampaign out = 5 ∧ cnt isSlept out = 2 ∧
  sinceSleep (take 4 out) ≤ 2.
Proof.
  intros out.
  destruct (worker_message_rate 2 [FromCampaign; FromMsgQ; FromCampaign; FromStoppedPipe;
                                   FromCampaign; FromCampaign; FromCampaign]
              ltac:(unfold two63; lia))
    as (H1 & H2 & _ & H4 & _).
  split; [exact H2|]. split; [exact (H4 ltac:(lia) ltac:(simpl; lia))|].
  exact (H1 4%nat).
Defined.

(** * What the events of the engine add to the trace *)

(** The calls of [cleanup], in their order. *)
Definition cleanupActions (a : nat) (tp : tenantPipe) (resp : option Campaign)
    : list action :=
  let id := campID (camp tp) in
  [Cleanup a;
   UpdateTenantCampaignCounts (tenantID tp) id 0 (sent tp) (int64 (lastID tp))]
  ++ (if withErrors tp then
        [UpdateTenantCampaignStatus (tenantID tp) id CampaignStatusPaused;
         fnNotify (tenantID tp) id CampaignStatusPaused "Too many errors"]
      else if stopped tp then []
      else
        GetTenantCampaign (tenantID tp) id
        :: match resp with
           | None => []
           | Some c =>
               if String.eqb (campStatus c) CampaignStatusRunning
                  || String.eqb (campStatus c) CampaignStatusScheduled
               then [UpdateTenantCampaignStatus (tenantID tp) id CampaignStatusFinished;
                     fnNotify (tenantID tp) (campID c) CampaignStatusFinished ""]
               else [fnNotify (tenantID tp) (campID c) (campStatus c) ""]
           end).

(** The calls of the loop of [run] for one pipe. *)
Definition isBatchAction (x : action) : bool :=
  match x with
  | NextTenantSubscribers _ _ _ | Enqueue _ _ _ | WindowRestart _ | Sleep _
  | BatchEnd _ => true
  | _ => false
  end.

(** The due campaigns of a scan whose messenger is not registered, and the
    status updates that cancel them. *)
Definition unknownMessenger (t : tenantInstanceManager) (cs : list dueCampaign)
    : list dueCampaign :=
  filter (λ d, campMessenger (dueCamp d) ∉ messengers t) cs.

Definition cancelOf (tenant : Z) (d : dueCampaign) : action :=
  UpdateTenantCampaignStatus tenant (campID (dueCamp d)) CampaignStatusCancelled.

(** What one event adds to the trace. *)
Definition stepShape (t : tenantInstanceManager) (e : event) (l : list action) : Prop :=
  match e with
  | EvScan resp =>
      if ScanCampaigns (base (cfg t)) then
        ∃ ids counts,
          l = NextTenantCampaigns (tim_tenantID t) ids counts
              :: match resp with
                 | None => []
                 | Some cs => cancelOf (tim_tenantID t) <$> unknownMessenger t cs
                 end
      else l = []
  | EvRun _ => Forall (λ x, isBatchAction x = true) l
  | EvRecv => l = [] ∨ (∃ m s, l = [MessengerPush m s]) ∨ ∃ a, l = [Dequeue a Discarded]
  | EvPush _ err => l = [] ∨ ∃ a, l = [Dequeue a (if err then Failed else Delivered)]
  | EvFinish _ | EvStop _ | EvAddMessenger _ => l = []
  | EvWait a resp => l = [] ∨ ∃ tp, objs t !! a = Some tp ∧ l = cleanupActions a tp resp
  end.

Lemma cleanup_actions a tp resp t :
  trace (cleanup a tp resp t) = trace t ++ cleanupActions a tp resp.
Proof.
  unfold cleanup, cleanupActions. repeat case_match; simpl;
    rewrite <- ?app_assoc; done.
Qed.

Lemma slide_added i t :
  ∃ l, trace (slide i t) = trace t ++ l ∧ Forall (λ x, isBatchAction x = true) l.
Proof.
  unfold slide. repeat case_match; simpl.
  - eexists. split; [reflexivity|]. by repeat constructor.
  - eexists. split; [reflexivity|]. by repeat constructor.
  - exists []. by rewrite app_nil_r.
Qed.

Lemma pushOne_added a c i t :
  ∃ l, trace (pushOne a c i t) = trace t ++ l ∧ Forall (λ x, isBatchAction x = true) l.
Proof.
  unfold pushOne. destruct (renderErr i).
  { exists []. by rewrite app_nil_r. }
  cbv zeta. case_match.
  - destruct (slide_added i
      (emit (Enqueue a (subID (inSub i))
               (clock (set_clock (clock (updPipe a (λ p, set_wg (wgAdd1 (wg p)) p) t)
                                  + Z.of_N (elapsed i))
                         (updPipe a (λ p, set_wg (wgAdd1 (wg p)) p) t))))
         (set_campMsgQ
            (campMsgQ (set_clock (clock (updPipe a (λ p, set_wg (wgAdd1 (wg p)) p) t)
                                  + Z.of_N (elapsed i))
                         (updPipe a (λ p, set_wg (wgAdd1 (wg p)) p) t))
             ++ [mkMsg (tim_tenantID (updPipe a (λ p, set_wg (wgAdd1 (wg p)) p) t))
                   c (inSub i) (Some a)])
            (set_clock (clock (updPipe a (λ p, set_wg (wgAdd1 (wg p)) p) t)
                        + Z.of_N (elapsed i))
               (updPipe a (λ p, set_wg (wgAdd1 (wg p)) p) t)))))
      as (l & Hl & HQ).
    eexists. split; [rewrite Hl; simpl; rewrite <- app_assoc; reflexivity|].
    apply Forall_app. split; [by repeat constructor|done].
  - eexists. split; [reflexivity|]. by repeat constructor.
Qed.

Lemma pushBatch_added a c subs t :
  ∃ l, trace (pushBatch a c subs t) = trace t ++ l ∧
       Forall (λ x, isBatchAction x = true) l.
Proof.
  unfold pushBatch. revert t. induction subs as [|i subs IH]; intros t; simpl.
  - exists []. by rewrite app_nil_r.
  - destruct (pushOne_added a c i t) as (l1 & E1 & Q1).
    destruct (IH (pushOne a c i t)) as (l2 & E2 & Q2).
    exists (l1 ++ l2). split; [by rewrite E2, E1, app_assoc|by apply Forall_app].
Qed.

Lemma submit_trace a t : trace (submit a t) = trace t.
Proof. unfold submit. by case_match. Qed.

Lemma runIter_added resp t :
  ∃ l, trace (runIter resp t) = trace t ++ l ∧ Forall (λ x, isBatchAction x = true) l.
Proof.
  unfold runIter, NextSubscribers.
  destruct (nextPipes t) as [|a rest]; [by exists []; rewrite app_nil_r|]. cbv zeta.
  change (objs (set_nextPipes rest t)) with (objs t).
  destruct (objs t !! a) as [tp|]; [|by exists []; rewrite app_nil_r].
  destruct resp as [[|i subs]|].
  - eexists. split; [simpl; rewrite <- app_assoc; reflexivity|]. by repeat constructor.
  - rewrite submit_trace.
    destruct (pushBatch_added a (camp tp) (i :: subs)
                (emit (NextTenantSubscribers (tim_tenantID (set_nextPipes rest t))
                         (campID (camp tp)) (TenantMaxBatchSize (cfg (set_nextPipes rest t))))
                   (set_nextPipes rest t))) as (l & Hl & HQ).
    eexists. split; [rewrite Hl; simpl; rewrite <- app_assoc; reflexivity|].
    apply Forall_app. split; [by repeat constructor|done].
  - eexists. split; [reflexivity|]. by repeat constructor.
Qed.

Lemma collect_frame acc e :
  trace (collect acc e).1 = trace acc.1 ∧ messengers (collect acc e).1 = messengers acc.1 ∧
  tim_tenantID (collect acc e).1 = tim_tenantID acc.1 ∧
  pipes (collect acc e).1 = pipes acc.1 ∧ nextPipes (collect acc e).1 = nextPipes acc.1 ∧
  campMsgQ (collect acc e).1 = campMsgQ acc.1 ∧ inflight (collect acc e).1 = inflight acc.1 ∧
  length (objs (collect acc e).1) = length (objs acc.1).
Proof.
  unfold collect. destruct (objs acc.1 !! e.2); simpl; [|done].
  by rewrite length_alter.
Qed.

Lemma getCurrentCampaigns_frame t :
  trace (getCurrentCampaigns t).1 = trace t ∧
  messengers (getCurrentCampaigns t).1 = messengers t ∧
  tim_tenantID (getCurrentCampaigns t).1 = tim_tenantID t ∧
  pipes (getCurrentCampaigns t).1 = pipes t ∧
  nextPipes (getCurrentCampaigns t).1 = nextPipes t ∧
  campMsgQ (getCurrentCampaigns t).1 = campMsgQ t ∧
  inflight (getCurrentCampaigns t).1 = inflight t ∧
  length (objs (getCurrentCampaigns t).1) = length (objs t).
Proof.
  unfold getCurrentCampaigns.
  assert (H : ∀ l acc,
    trace (foldl collect acc l).1 = trace acc.1 ∧
    messengers (foldl collect acc l).1 = messengers acc.1 ∧
    tim_tenantID (foldl collect acc l).1 = tim_tenantID acc.1 ∧
    pipes (foldl collect acc l).1 = pipes acc.1 ∧
    nextPipes (foldl collect acc l).1 = nextPipes acc.1 ∧
    campMsgQ (foldl collect acc l).1 = campMsgQ acc.1 ∧
    inflight (foldl collect acc l).1 = inflight acc.1 ∧
    length (objs (foldl collect acc l).1) = length (objs acc.1)).
  { induction l as [|e l IH]; intros acc; simpl; [done|].
    destruct (IH (collect acc e)) as (-> & -> & -> & -> & -> & -> & -> & ->).
    apply collect_frame. }
  apply (H _ (t, ([], []))).
Qed.

Lemma startCampaign_added t d :
  trace (startCampaign t d)
  = trace t ++ (cancelOf (tim_tenantID t) <$> unknownMessenger t [d]) ∧
  messengers (startCampaign t d) = messengers t ∧
  tim_tenantID (startCampaign t d) = tim_tenantID t.
Proof.
  unfold startCampaign, newTenantPipe, unknownMessenger.
  rewrite filter_cons, filter_nil.
  destruct (decide (campMessenger (dueCamp d) ∈ messengers t)) as [H|H].
  - rewrite decide_False by (by intros H').
    rewrite bool_decide_eq_true_2 by done. simpl.
    rewrite app_nil_r. unfold submit. repeat case_match; simplify_eq; done.
  - rewrite decide_True by done.
    rewrite bool_decide_eq_false_2 by done. done.
Qed.

Lemma foldl_startCampaign_added cs t :
  trace (foldl startCampaign t cs)
  = trace t ++ (cancelOf (tim_tenantID t) <$> unknownMessenger t cs) ∧
  messengers (foldl startCampaign t cs) = messengers t ∧
  tim_tenantID (foldl startCampaign t cs) = tim_tenantID t.
Proof.
  revert t. induction cs as [|d cs IH]; intros t; simpl.
  - by rewrite app_nil_r.
  - destruct (IH (startCampaign t d)) as (E1 & E2 & E3).
    destruct (startCampaign_added t d) as (F1 & F2 & F3).
    rewrite E1, E2, E3, F1, F2, F3. split; [|done].
    rewrite <- app_assoc. f_equal. rewrite <- fmap_app. f_equal.
    unfold unknownMessenger. rewrite F2.
    by rewrite (filter_app _ [d] cs).
Qed.

Lemma scanTick_added resp t :
  ∃ ids counts,
    trace (scanTick resp t)
    = trace t ++ NextTenantCampaigns (tim_tenantID t) ids counts
                 :: match resp with
                    | None => []
                    | Some cs => cancelOf (tim_tenantID t) <$> unknownMessenger t cs
                    end.
Proof.
  unfold scanTick. cbv zeta.
  destruct (getCurrentCampaigns_frame t) as (E1 & E2 & E3 & _).
  exists (getCurrentCampaigns t).2.1, (getCurrentCampaigns t).2.2.
  destruct resp as [cs|].
  - destruct (foldl_startCampaign_added cs
      (emit (NextTenantCampaigns (tim_tenantID (getCurrentCampaigns t).1)
               (getCurrentCampaigns t).2.1 (getCurrentCampaigns t).2.2)
         (getCurrentCampaigns t).1)) as (F1 & _).
    rewrite F1. simpl. rewrite E1, E3, <- app_assoc. simpl. do 3 f_equal.
    unfold unknownMessenger. simpl. by rewrite E2.
  - simpl. by rewrite E1, E3.
Qed.

(** What a step adds to the trace has the shape of its event. *)
Lemma step_added e t :
  ∃ l, trace (step e t) = trace t ++ l ∧ stepShape t e l.
Proof.
  destruct e as [resp|resp| |k err|k|id|a resp|name]; simpl.
  - destruct (ScanCampaigns (base (cfg t))).
    + destruct (scanTick_added resp t) as (ids & counts & E).
      eexists. split; [exact E|]. by exists ids, counts.
    + exists []. by rewrite app_nil_r.
  - apply runIter_added.
  - unfold workerRecv. repeat case_match; simpl;
      try (exists []; rewrite app_nil_r; split; [done|by left]).
    + eexists. split; [reflexivity|]. right. right. by eexists.
    + eexists. split; [reflexivity|]. right. left. by do 2 eexists.
    + eexists. split; [reflexivity|]. right. left. by do 2 eexists.
  - unfold workerPush. repeat case_match; simpl;
      try (exists []; rewrite app_nil_r; split; [done|by left]).
    + eexists. split; [reflexivity|]. right. by eexists.
    + eexists. split; [reflexivity|]. right. by eexists.
  - unfold workerFinish. repeat case_match; simpl; exists []; by rewrite app_nil_r.
  - unfold StopCampaign. case_match; simpl; exists []; by rewrite app_nil_r.
  - unfold waitIter. destruct (objs t !! a) as [tp|] eqn:Ha;
      [|exists []; rewrite app_nil_r; split; [done|by left]].
    case_match; [|exists []; rewrite app_nil_r; split; [done|by left]].
    eexists.
    split; [exact (cleanup_actions a tp resp (updPipe a (set_waiter false) t))|].
    right. by exists tp.
  - unfold AddMessenger. case_match; simpl; exists []; by rewrite app_nil_r.
Qed.

Lemma trace_added t t' l : trace t' = trace t ++ l → added t t' = l.
Proof. apply added_app. Qed.

Lemma exec_trace evs t : ∃ l, trace (exec evs t) = trace t ++ l.
Proof.
  unfold exec. revert t. induction evs as [|e evs IH]; intros t; simpl.
  - exists []. by rewrite app_nil_r.
  - destruct (step_added e t) as (l1 & E1 & _).
    destruct (IH (step e t)) as (l2 & E2).
    exists (l1 ++ l2). by rewrite E2, E1, app_assoc.
Qed.

(** What a run adds is what its first step adds followed by what the rest
    of the run adds. *)
Lemma added_cons e evs t :
  added t (exec (e :: evs) t) = added t (step e t) ++ added (step e t) (exec evs (step e t)).
Proof.
  destruct (step_added e t) as (l1 & E1 & _).
  destruct (exec_trace evs (step e t)) as (l2 & E2).
  change (exec (e :: evs) t) with (exec evs (step e t)).
  rewrite (added_app t (step e t) l1 E1), (added_app (step e t) _ l2 E2).
  apply added_app. by rewrite E2, E1, app_assoc.
Qed.

Lemma added_nil t : added t t = [].
Proof. apply added_app. by rewrite app_nil_r. Qed.

(** ** The writes of the engine to the Store *)

Definition statusOK (x : action) : bool :=
  match x with
  | UpdateTenantCampaignStatus _ _ s =>
      String.eqb s CampaignStatusCancelled || String.eqb s CampaignStatusPaused
      || String.eqb s CampaignStatusFinished
  | _ => true
  end.

Definition isCancel (x : action) : bool :=
  match x with
  | UpdateTenantCampaignStatus _ _ s => String.eqb s CampaignStatusCancelled
  | _ => false
  end.

Definition isCleanupCall (x : action) : bool :=
  match x with Cleanup _ => true | _ => false end.

Lemma stepShape_statusOK t e l : stepShape t e l → Forall (λ x, statusOK x = true) l.
Proof.
  destruct e as [resp|resp| |k err|k|id|a resp|name]; simpl.
  - destruct (ScanCampaigns (base (cfg t))); [|by intros ->].
    intros (ids & counts & ->). constructor; [done|].
    destruct resp as [cs|]; [|done]. apply Forall_fmap. by apply Forall_true.
  - intros H. eapply Forall_impl; [exact H|]. intros x Hx. by destruct x.
  - intros [->|[(m & s & ->)|(a & ->)]]; by repeat constructor.
  - intros [->|(a & ->)]; by repeat constructor.
  - by intros ->.
  - by intros ->.
  - intros [->|(tp & _ & ->)]; [done|].
    unfold cleanupActions. repeat case_match; by repeat constructor.
  - by intros ->.
Qed.

(** X11. The engine writes three statuses and no other: whatever the
    events of a run, a status that the run writes to the Store is cancelled,
    paused or finished. *)
Theorem engine_status_writes (t : tenantInstanceManager) (evs : list event)
    (tenant id : Z) (s : string) :
  UpdateTenantCampaignStatus tenant id s ∈ added t (exec evs t) →
  s = CampaignStatusCancelled ∨ s = CampaignStatusPaused ∨ s = CampaignStatusFinished.
Proof.
  intros Hin.
  assert (H : Forall (λ x, statusOK x = true) (added t (exec evs t))).
  { clear Hin. revert t. induction evs as [|e evs IH]; intros t.
    - change (exec [] t) with t. by rewrite added_nil.
    - rewrite added_cons. apply Forall_app. split; [|apply IH].
      destruct (step_added e t) as (l & E & Hs).
      rewrite (added_app _ _ _ E). by eapply stepShape_statusOK. }
  rewrite Forall_forall in H. specialize (H _ Hin). simpl in H.
  apply orb_true_iff in H as [H|H]; [apply orb_true_iff in H as [H|H]|].
  - left. by apply String.eqb_eq.
  - right; left. by apply String.eqb_eq.
  - right; right. by apply String.eqb_eq.
Qed.

Lemma engine_status_writes_witness :
  "paused" = CampaignStatusCancelled ∨ "paused" = CampaignStatusPaused
  ∨ "paused" = CampaignStatusFinished.
Proof.
  apply (engine_status_writes exFailedOnce
           [EvPush 0 true; EvRecv; EvRun (Some []); EvWait 0 None] 7 1 "paused").
  vm_compute.
  apply (list_elem_of_lookup_2 _ 6%nat). reflexivity.
Defined.

Lemma cnt_fmap_cancelOf (f : action → bool) tenant (l : list dueCampaign) :
  (∀ d, f (cancelOf tenant d) = true) →
  cnt f (cancelOf tenant <$> l) = Z.of_nat (length l).
Proof.
  intros H. induction l as [|d l IH]; [done|].
  rewrite fmap_cons. cbn [cnt length]. rewrite H, IH. lia.
Qed.

Lemma cnt_fmap_cancelOf_0 (f : action → bool) tenant (l : list dueCampaign) :
  (∀ d, f (cancelOf tenant d) = false) → cnt f (cancelOf tenant <$> l) = 0.
Proof.
  intros H. induction l as [|d l IH]; [done|].
  rewrite fmap_cons. cbn [cnt]. by rewrite H, IH.
Qed.

Lemma cnt_batch_0 (f : action → bool) l :
  (∀ x, isBatchAction x = true → f x = false) →
  Forall (λ x, isBatchAction x = true) l → cnt f l = 0.
Proof.
  intros Hf H. apply cnt_none. eapply Forall_impl; [exact H|]. apply Hf.
Qed.

(** The account of the writes of a list of actions. *)
Definition reportsOnce (l : list action) : Prop :=
  cnt isCountsUpdate l = cnt isCleanupCall l ∧
  cnt isNotify l ≤ cnt isCleanupCall l ∧
  cnt isStatusUpdate l = cnt isCancel l + (cnt isStatusUpdate l - cnt isCancel l) ∧
  0 ≤ cnt isStatusUpdate l - cnt isCancel l ≤ cnt isCleanupCall l.

Lemma stepShape_reportsOnce t e l : stepShape t e l → reportsOnce l.
Proof.
  unfold reportsOnce.
  destruct e as [resp|resp| |k err|k|id|a resp|name]; simpl.
  - destruct (ScanCampaigns (base (cfg t))); [|by intros ->].
    intros (ids & counts & ->). simpl. destruct resp as [cs|]; [|done].
    rewrite (cnt_fmap_cancelOf isStatusUpdate), (cnt_fmap_cancelOf isCancel),
      !cnt_fmap_cancelOf_0 by done. lia.
  - intros H. rewrite !(cnt_batch_0 _ l) by (try done; by intros []). done.
  - intros [->|[(m & s & ->)|(a & ->)]]; done.
  - intros [->|(a & ->)]; done.
  - by intros ->.
  - by intros ->.
  - intros [->|(tp & _ & ->)]; [done|].
    unfold cleanupActions. repeat case_match; done.
  - by intros ->.
Qed.

Lemma reportsOnce_app l1 l2 : reportsOnce l1 → reportsOnce l2 → reportsOnce (l1 ++ l2).
Proof. unfold reportsOnce. rewrite !cnt_app. lia. Qed.

(** X12. The writes of a run, counted: the counts of a campaign are written
    once for every [cleanup] that the run starts; there are no more
    notifications than cleanups; and the status updates are the
    cancellations and at most one more for every cleanup. *)
Theorem cleanup_reports_once (t : tenantInstanceManager) (evs : list event) :
  let l := added t (exec evs t) in
  cnt isCountsUpdate l = cnt isCleanupCall l ∧
  cnt isNotify l ≤ cnt isCleanupCall l ∧
  cnt isCancel l ≤ cnt isStatusUpdate l ≤ cnt isCancel l + cnt isCleanupCall l.
Proof.
  assert (H : reportsOnce (added t (exec evs t))).
  { revert t. induction evs as [|e evs IH]; intros t.
    - change (exec [] t) with t. by rewrite added_nil.
    - rewrite added_cons. apply reportsOnce_app; [|apply IH].
      destruct (step_added e t) as (l & E & Hs).
      rewrite (added_app _ _ _ E). by eapply stepShape_reportsOnce. }
  destruct H as (H1 & H2 & H3 & H4). simpl. lia.
Qed.

(** ** Cancelled campaigns *)

(** The cancellations that a run is to make: those of the due campaigns of
    its scans whose messenger is not registered when the scan runs. *)
Fixpoint cancellations (scan : bool) (tenant : Z) (ms : gset string)
    (evs : list event) : list action :=
  match evs with
  | [] => []
  | EvAddMessenger name :: evs =>
      cancellations scan tenant (if bool_decide (name ∈ ms) then ms else {[name]} ∪ ms) evs
  | EvScan (Some cs) :: evs =>
      (if scan
       then cancelOf tenant <$> filter (λ d, campMessenger (dueCamp d) ∉ ms) cs
       else [])
      ++ cancellations scan tenant ms evs
  | _ :: evs => cancellations scan tenant ms evs
  end.

Lemma filter_cancel_fmap tenant (l : list dueCampaign) :
  filter (λ x, isCancel x = true) (cancelOf tenant <$> l) = cancelOf tenant <$> l.
Proof.
  induction l as [|d l IH]; [done|]. rewrite fmap_cons, filter_cons_True by done.
  by rewrite IH.
Qed.

Lemma filter_cancel_none l :
  Forall (λ x, isCancel x = false) l → filter (λ x, isCancel x = true) l = [].
Proof.
  induction 1 as [|x l Hx _ IH]; [done|].
  rewrite filter_cons_False by (by rewrite Hx). done.
Qed.

Lemma step_frame_scan e t :
  tim_tenantID (step e t) = tim_tenantID t ∧
  messengers (step e t)
  = match e with
    | EvAddMessenger name =>
        if bool_decide (name ∈ messengers t) then messengers t
        else {[name]} ∪ messengers t
    | _ => messengers t
    end.
Proof.
  destruct e as [resp|resp| |k err|k|id|a resp|name]; simpl.
  - destruct (ScanCampaigns (base (cfg t))); [|done].
    unfold scanTick. cbv zeta.
    destruct (getCurrentCampaigns_frame t) as (E1 & E2 & E3 & _).
    destruct resp as [cs|]; [|by simpl; rewrite E2, E3].
    destruct (foldl_startCampaign_added cs
      (emit (NextTenantCampaigns (tim_tenantID (getCurrentCampaigns t).1)
               (getCurrentCampaigns t).2.1 (getCurrentCampaigns t).2.2)
         (getCurrentCampaigns t).1)) as (_ & F2 & F3).
    rewrite F2, F3. simpl. by rewrite E2, E3.
  - unfold runIter, NextSubscribers.
    destruct (nextPipes t) as [|a rest]; [done|]. cbv zeta.
    change (objs (set_nextPipes rest t)) with (objs t).
    destruct (objs t !! a) as [tp|]; [|done].
    assert (H : ∀ subs t0, tim_tenantID (pushBatch a (camp tp) subs t0) = tim_tenantID t0 ∧
                           messengers (pushBatch a (camp tp) subs t0) = messengers t0).
    { unfold pushBatch. induction subs as [|i subs IH]; intros t0; simpl; [done|].
      destruct (IH (pushOne a (camp tp) i t0)) as [-> ->].
      unfold pushOne, slide. repeat case_match; done. }
    destruct resp as [[|i subs]|]; try done.
    set (t0 := emit _ _).
    assert (Hs : tim_tenantID (submit a (pushBatch a (camp tp) (i :: subs) t0))
                 = tim_tenantID (pushBatch a (camp tp) (i :: subs) t0) ∧
                 messengers (submit a (pushBatch a (camp tp) (i :: subs) t0))
                 = messengers (pushBatch a (camp tp) (i :: subs) t0))
      by (unfold submit; by case_match).
    destruct Hs as [-> ->]. apply (H (i :: subs) t0).
  - unfold workerRecv. repeat case_match; done.
  - unfold workerPush. repeat case_match; done.
  - unfold workerFinish. repeat case_match; done.
  - unfold StopCampaign. by case_match.
  - unfold waitIter, cleanup. repeat case_match; done.
  - unfold AddMessenger. by case_bool_decide.
Qed.

(** X13. When the engine cancels: the status updates to cancelled that a
    run adds are, in their order, those of the due campaigns of its scans
    whose messenger was not registered at the time of the scan, and no
    others. *)
Theorem cancellations_exact (t : tenantInstanceManager) (evs : list event) :
  filter (λ x, isCancel x = true) (added t (exec evs t))
  = cancellations (ScanCampaigns (base (cfg t))) (tim_tenantID t) (messengers t) evs.
Proof.
  revert t. induction evs as [|e evs IH]; intros t.
  { change (exec [] t) with t. by rewrite added_nil. }
  rewrite added_cons, filter_app, IH, step_cfg.
  destruct (step_frame_scan e t) as [-> ->].
  destruct (step_added e t) as (l & E & Hs). rewrite (added_app _ _ _ E).
  destruct e as [resp|resp| |k err|k|id|a resp|name]; simpl in *.
  - destruct (ScanCampaigns (base (cfg t))).
    + destruct Hs as (ids & counts & ->).
      rewrite filter_cons_False by done.
      destruct resp as [cs|]; [|done]. by rewrite filter_cancel_fmap.
    + subst l. by destruct resp.
  - rewrite filter_cancel_none; [done|].
    eapply Forall_impl; [exact Hs|]. by intros [].
  - destruct Hs as [->|[(m & s & ->)|(a & ->)]]; done.
  - destruct Hs as [->|(a & ->)]; done.
  - by subst l.
  - by subst l.
  - destruct Hs as [->|(tp & _ & ->)]; [done|].
    rewrite filter_cancel_none; [done|].
    unfold cleanupActions. repeat case_match; by repeat constructor.
  - by subst l.
Qed.

(** ** What the events leave as it is *)

Lemma pushBatch_frame a c subs t :
  pipes (pushBatch a c subs t) = pipes t ∧
  nextPipes (pushBatch a c subs t) = nextPipes t ∧
  inflight (pushBatch a c subs t) = inflight t ∧
  length (objs (pushBatch a c subs t)) = length (objs t).
Proof.
  unfold pushBatch. revert t. induction subs as [|i subs IH]; intros t; simpl; [done|].
  destruct (IH (pushOne a c i t)) as (-> & -> & -> & ->).
  unfold pushOne, slide. repeat case_match; simpl; by rewrite ?length_alter.
Qed.

Lemma submit_frame a t :
  pipes (submit a t) = pipes t ∧ inflight (submit a t) = inflight t ∧
  campMsgQ (submit a t) = campMsgQ t ∧ objs (submit a t) = objs t.
Proof. unfold submit. by case_match. Qed.

Lemma runIter_frame resp t :
  pipes (runIter resp t) = pipes t ∧ inflight (runIter resp t) = inflight t ∧
  length (objs (runIter resp t)) = length (objs t).
Proof.
  unfold runIter, NextSubscribers.
  destruct (nextPipes t) as [|a rest]; [done|]. cbv zeta.
  change (objs (set_nextPipes rest t)) with (objs t).
  destruct (objs t !! a) as [tp|]; [|done].
  destruct resp as [[|i subs]|]; try done.
  - simpl. by rewrite length_alter.
  - set (t0 := emit _ _).
    destruct (submit_frame a (pushBatch a (camp tp) (i :: subs) t0)) as (-> & -> & _ & ->).
    by destruct (pushBatch_frame a (camp tp) (i :: subs) t0) as (-> & _ & -> & ->).
Qed.




(** Every event but a scan leaves the number of pipe objects as it is. *)
Lemma step_length_objs e t :
  (∀ resp, e ≠ EvScan resp) → length (objs (step e t)) = length (objs t).
Proof.
  destruct e as [resp|resp| |k err|k|id|a resp|name]; simpl; intros Hne.
  - by destruct (Hne resp).
  - apply runIter_frame.
  - unfold workerRecv. repeat case_match; simpl; by rewrite ?length_alter.
  - unfold workerPush. repeat case_match; simpl; by rewrite ?length_alter.
  - unfold workerFinish. repeat case_match; simpl; by rewrite ?length_alter.
  - unfold StopCampaign. case_match; simpl; by rewrite ?length_alter.
  - unfold waitIter, cleanup. repeat case_match; simpl; by rewrite ?length_alter.
  - unfold AddMessenger. by case_match.
Qed.

(** ** A stopped pipe *)






(** ** The tenant of an instance *)

(** No operation on a pipe changes its tenant or its campaign. *)
Lemma pipeOp_frame T e p p' :
  pipeOp T e p p' → tenantID p' = tenantID p ∧ camp p' = camp p.
Proof.
  intros H. destruct H; simpl; try done.
  - unfold workerPushed. destruct err; [|done].
    by destruct (OnError_fields T (set_wg (wgDone (wg p)) p)) as (-> & -> & _).
  - unfold workerStore. by case_match.
  - by destruct (Stop_fields false p) as (-> & -> & _).
Qed.

Lemma step_keeps_pipe e t a p :
  objs t !! a = Some p →
  ∃ p', objs (step e t) !! a = Some p' ∧ tenantID p' = tenantID p ∧ camp p' = camp p.
Proof.
  intros Hp. destruct (step_evolves e t) as [_ H].
  destruct (H a p Hp) as (p' & Hp' & Hr). exists p'. split; [done|].
  clear Hp Hp' H. induction Hr as [|x y z Hxy _ IH]; [done|].
  destruct (pipeOp_frame _ _ _ _ Hxy) as [E1 E2].
  destruct IH as [-> ->]. done.
Qed.

(** The tenant that a call of the Store or a notification names; the fetch
    of a batch is left aside. *)
Definition tenantOf (x : action) : option Z :=
  match x with
  | NextTenantCampaigns tn _ _ | GetTenantCampaign tn _
  | UpdateTenantCampaignStatus tn _ _ | UpdateTenantCampaignCounts tn _ _ _ _
  | fnNotify tn _ _ _ => Some tn
  | _ => None
  end.

Definition ofTenant (tenant : Z) (x : action) : Prop :=
  ∀ tn, tenantOf x = Some tn → tn = tenant.

Definition isoInv (tenant : Z) (t : tenantInstanceManager) : Prop :=
  tim_tenantID t = tenant ∧ Forall (λ p, tenantID p = tenant) (objs t).

Lemma collect_objs_Forall (P : tenantPipe → Prop) acc e :
  (∀ p, P p → P (set_sent 0 p)) → Forall P (objs acc.1) → Forall P (objs (collect acc e).1).
Proof.
  intros HP H. unfold collect. destruct (objs acc.1 !! e.2); [|done]. simpl.
  apply Forall_alter; [done|]. intros x _. apply HP.
Qed.

Lemma startCampaign_objs_Forall (P : tenantPipe → Prop) t d :
  (∀ c, P (mkPipe (tim_tenantID t) c 0 (wgAdd1 (mkWG 0 0)) 0 0 0 false false true)) →
  Forall P (objs t) → Forall P (objs (startCampaign t d)).
Proof.
  intros HP H. unfold startCampaign, newTenantPipe.
  repeat case_match; simplify_eq; try done.
  all: destruct (submit_frame (length (objs t))
         (set_pipes (<[campID (dueCamp d) := length (objs t)]> (pipes t))
            (set_objs (objs t ++ [mkPipe (tim_tenantID t)
                                    (withAttachments l (dueCamp d)) 0
                                    (wgAdd1 (mkWG 0 0)) 0 0 0 false false true]) t)))
         as (_ & _ & _ & ->).
  all: simpl; apply Forall_app; split; [done|]; by apply Forall_singleton.
Qed.

Lemma scanTick_objs_Forall (P : tenantPipe → Prop) resp t :
  (∀ p, P p → P (set_sent 0 p)) →
  (∀ c, P (mkPipe (tim_tenantID t) c 0 (wgAdd1 (mkWG 0 0)) 0 0 0 false false true)) →
  Forall P (objs t) → Forall P (objs (scanTick resp t)).
Proof.
  intros HP1 HP2 H. unfold scanTick, getCurrentCampaigns. cbv zeta.
  assert (H1 : ∀ l acc, Forall P (objs acc.1) → Forall P (objs (foldl collect acc l).1)).
  { induction l as [|e l IH]; intros acc Hacc; simpl; [done|].
    by apply IH, collect_objs_Forall. }
  assert (H2 : ∀ cs t0, tim_tenantID t0 = tim_tenantID t → Forall P (objs t0) →
                        Forall P (objs (foldl startCampaign t0 cs))).
  { induction cs as [|d cs IH]; intros t0 E H0; simpl; [done|].
    apply IH.
    - destruct (startCampaign_added t0 d) as (_ & _ & ->). done.
    - apply startCampaign_objs_Forall; [|done]. rewrite E. apply HP2. }
  destruct (getCurrentCampaigns_frame t) as (_ & _ & E3 & _).
  unfold getCurrentCampaigns in E3.
  destruct resp as [cs|]; [|by apply H1].
  apply H2; [done|]. by apply H1.
Qed.

Lemma isoInv_step tenant e t :
  isoInv tenant t →
  isoInv tenant (step e t) ∧ Forall (ofTenant tenant) (added t (step e t)).
Proof.
  intros [E H]. split; [split|].
  - destruct (step_frame_scan e t) as [-> _]. done.
  - assert (Hcase : (∃ resp, e = EvScan resp) ∨ ∀ resp, e ≠ EvScan resp).
    { destruct e; try (by right); left; by eexists. }
    destruct Hcase as [[resp ->]|Hne].
    + simpl. destruct (ScanCampaigns (base (cfg t))); [|done].
      apply scanTick_objs_Forall; [done| |done]. intros c. simpl. done.
    + rewrite Forall_lookup. intros a p' Hp'.
      assert (Hlt : (a < length (objs t))%nat).
      { rewrite <- (step_length_objs e t Hne). by eapply lookup_lt_Some. }
      destruct (lookup_lt_is_Some_2 _ _ Hlt) as [p Hp].
      destruct (step_keeps_pipe e t a p Hp) as (p'' & Hp'' & E1 & _).
      assert (p'' = p') as -> by congruence.
      rewrite E1. by eapply (Forall_lookup_1 _ _ _ _ H).
  - destruct (step_added e t) as (l & El & Hs). rewrite (added_app _ _ _ El).
    destruct e as [resp|resp| |k err|k|id|a resp|name]; simpl in Hs.
    + destruct (ScanCampaigns (base (cfg t))); [|by subst l].
      destruct Hs as (ids & counts & ->). constructor.
      * intros tn [= <-]. done.
      * destruct resp as [cs|]; [|done]. apply Forall_fmap, Forall_true.
        intros d tn [= <-]. done.
    + eapply Forall_impl; [exact Hs|]. intros x Hx tn Htn. by destruct x.
    + destruct Hs as [->|[(m & s & ->)|(a & ->)]]; by repeat constructor.
    + destruct Hs as [->|(a & ->)]; by repeat constructor.
    + by subst l.
    + by subst l.
    + destruct Hs as [->|(tp & Htp & ->)]; [done|].
      assert (Et : tenantID tp = tenant) by (by eapply (Forall_lookup_1 _ _ _ _ H)).
      unfold cleanupActions. rewrite Et.
      repeat case_match; repeat constructor; by intros tn [= <-].
    + by subst l.
Qed.

(** X15. The calls of an instance name its tenant: in every state that
    the instance of a tenant reaches from its creation, every pipe carries
    the id of the tenant, and every scan for campaigns, every fetch of a
    campaign, every update of a status or of the counts and every
    notification that the instance has made names that tenant. *)
Theorem tenant_isolation (tenant : Z) (c : TenantConfig) (now : Z) (evs : list event) :
  let t := exec evs (createTenantInstance tenant c now) in
  tim_tenantID t = tenant ∧
  Forall (λ p, tenantID p = tenant) (objs t) ∧
  Forall (ofTenant tenant) (trace t).
Proof.
  assert (H : ∀ evs t, isoInv tenant t →
    isoInv tenant (exec evs t) ∧ Forall (ofTenant tenant) (added t (exec evs t))).
  { clear evs. induction evs as [|e evs IH]; intros t Ht.
    - change (exec [] t) with t. by rewrite added_nil.
    - rewrite added_cons. destruct (isoInv_step tenant e t Ht) as [H1 H2].
      destruct (IH (step e t) H1) as [H3 H4].
      split; [done|]. by apply Forall_app. }
  intros t.
  destruct (H evs (createTenantInstance tenant c now)) as [[H1 H2] H3]; [by split|].
  split; [done|]. split; [done|].
  unfold added in H3. simpl in H3. by rewrite drop_0 in H3.
Qed.

Lemma exec_tenantID evs t : tim_tenantID (exec evs t) = tim_tenantID t.
Proof.
  revert t. induction evs as [|e evs IH]; intros t; [done|].
  change (exec (e :: evs) t) with (exec evs (step e t)).
  rewrite IH. by destruct (step_frame_scan e t) as [-> _].
Qed.

(** ** The queue of pipes *)

Lemma submit_cap a t :
  (length (nextPipes t) ≤ nextPipesCap)%nat →
  (length (nextPipes (submit a t)) ≤ nextPipesCap)%nat.
Proof.
  intros H. unfold submit.
  destruct (length (nextPipes t) <? nextPipesCap)%nat eqn:E; [|done].
  apply Nat.ltb_lt in E. simpl. rewrite length_app. simpl. lia.
Qed.

Lemma step_cap e t :
  (length (nextPipes t) ≤ nextPipesCap)%nat →
  (length (nextPipes (step e t)) ≤ nextPipesCap)%nat.
Proof.
  intros H. destruct e as [resp|resp| |k err|k|id|a resp|name]; simpl.
  - destruct (ScanCampaigns (base (cfg t))); [|done].
    unfold scanTick. cbv zeta.
    destruct (getCurrentCampaigns_frame t) as (_ & _ & _ & _ & E5 & _).
    assert (H2 : ∀ cs t0, (length (nextPipes t0) ≤ nextPipesCap)%nat →
                          (length (nextPipes (foldl startCampaign t0 cs)) ≤ nextPipesCap)%nat).
    { induction cs as [|d cs IH]; intros t0 H0; simpl; [done|].
      apply IH. unfold startCampaign, newTenantPipe.
      repeat case_match; simplify_eq; try done. all: by apply submit_cap. }
    destruct resp as [cs|]; [|by simpl; rewrite E5].
    apply H2. simpl. by rewrite E5.
  - unfold runIter, NextSubscribers.
    destruct (nextPipes t) as [|a rest] eqn:Hnp; [by rewrite Hnp|]. cbv zeta.
    change (objs (set_nextPipes rest t)) with (objs t).
    simpl in H.
    destruct (objs t !! a) as [tp|]; [|simpl; lia].
    destruct resp as [[|i subs]|]; [simpl; lia| |simpl; lia].
    set (t0 := emit _ _). apply submit_cap.
    destruct (pushBatch_frame a (camp tp) (i :: subs) t0) as (_ & -> & _).
    simpl. lia.
  - unfold workerRecv. repeat case_match; done.
  - unfold workerPush. repeat case_match; done.
  - unfold workerFinish. repeat case_match; done.
  - unfold StopCampaign. by case_match.
  - unfold waitIter. destruct (objs t !! a); [|done]. case_match; [|done].
    by destruct (cleanup_queues a t0 resp (updPipe a (set_waiter false) t)) as (-> & _).
  - unfold AddMessenger. by case_match.
Qed.

(** X16. The queue of pipes [nextPipes] of a reachable instance holds a
    pipe at most once and at most 1000 pipes (the capacity of the channel),
    and every pipe in it is there, has not ended its batching, has its
    wait group above zero and has not been cleaned up. *)
Theorem nextPipes_queue (t : tenantInstanceManager) :
  reachable t →
  TenantMaxSendErrors (cfg t) < two63 →
  NoDup (nextPipes t) ∧
  (length (nextPipes t) ≤ nextPipesCap)%nat ∧
  ∀ a, a ∈ nextPipes t →
    ∃ p, objs t !! a = Some p ∧ cnt (isBatchEnd a) (trace t) = 0 ∧
         0 < wgCounter (wg p) ∧ waiter p = true ∧ cnt (isCleanup a) (trace t) = 0.
Proof.
  intros Hr HT. destruct (reachable_Inv t Hr HT) as (I1 & I2 & I3).
  split; [done|]. split.
  - destruct Hr as (tenant & c & now & evs & ->).
    assert (H : ∀ evs t, (length (nextPipes t) ≤ nextPipesCap)%nat →
                         (length (nextPipes (exec evs t)) ≤ nextPipesCap)%nat).
    { clear. induction evs as [|e evs IH]; intros t H; [done|].
      change (exec (e :: evs) t) with (exec evs (step e t)). by apply IH, step_cap. }
    apply H. simpl. lia.
  - intros a Ha.
    assert (Hlt : (a < length (objs t))%nat).
    { destruct (decide (a < length (objs t))%nat) as [|Hge]; [done|].
      destruct (I3 a ltac:(lia)) as [_ Hn]. done. }
    destruct (lookup_lt_is_Some_2 _ _ Hlt) as [p Hp]. exists p. split; [done|].
    destruct (I1 a p Hp)
      as (W1 & W2 & W3 & W4 & W5 & W6 & W7 & E1 & E3 & E4 & N1 & N2 & N3).
    simpl in *. specialize (W5 Ha). unfold wgCounter in *.
    split; [done|]. split; [lia|].
    destruct (waiter p); [done|]. specialize (W7 eq_refl). lia.
Qed.

(** The campaign of the examples has been picked up by a scan and waits
    in the queue of pipes. *)
Definition exQueued : tenantInstanceManager :=
  exec [EvAddMessenger "email"; EvScan (Some [exDue])]
       (createTenantInstance 7 exConfig 0).

Lemma exQueued_reachable : reachable exQueued.
Proof. exists 7, exConfig, 0, [EvAddMessenger "email"; EvScan (Some [exDue])]. done. Qed.

Lemma nextPipes_queue_witness :
  NoDup (nextPipes exQueued) ∧ (length (nextPipes exQueued) ≤ nextPipesCap)%nat.
Proof.
  assert (ET : TenantMaxSendErrors (cfg exQueued) = 2) by (vm_compute; reflexivity).
  assert (HT : TenantMaxSendErrors (cfg exQueued) < two63)
    by (rewrite ET; unfold two63; lia).
  destruct (nextPipes_queue exQueued exQueued_reachable HT) as (H1 & H2 & _).
  split; [exact H1|exact H2].
Defined.

(** ** The registry of pipes *)

(** Every entry of [tim.pipes] leads to a pipe of the campaign of its key. *)
Definition regInv (t : tenantInstanceManager) : Prop :=
  ∀ id a, pipes t !! id = Some a →
    ∃ p, objs t !! a = Some p ∧ campID (camp p) = id.

Lemma step_pipes_sub e t id a :
  (∀ resp, e ≠ EvScan resp) →
  pipes (step e t) !! id = Some a → pipes t !! id = Some a.
Proof.
  destruct e as [resp|resp| |k err|k|i|b resp|name]; simpl; intros Hne.
  - by destruct (Hne resp).
  - by destruct (runIter_frame resp t) as (-> & _).
  - unfold workerRecv. repeat case_match; done.
  - unfold workerPush. repeat case_match; done.
  - unfold workerFinish. repeat case_match; done.
  - unfold StopCampaign. by case_match.
  - unfold waitIter. destruct (objs t !! b); [|done]. case_match; [|done].
    rewrite cleanup_pipes. simpl. intros Hd. by apply lookup_delete_Some in Hd as [_ Hd].
  - unfold AddMessenger. by case_match.
Qed.

Lemma collect_regInv acc e : regInv acc.1 → regInv (collect acc e).1.
Proof.
  intros H. unfold collect. destruct (objs acc.1 !! e.2) eqn:E; [|done]. simpl.
  intros id a Ha. destruct (H id a Ha) as (p & Hp & Hid). simpl.
  destruct (decide (e.2 = a)) as [->|Hne].
  - exists (set_sent 0 p). by rewrite list_lookup_alter_eq, Hp.
  - exists p. by rewrite list_lookup_alter_ne.
Qed.

Lemma startCampaign_regInv t d : regInv t → regInv (startCampaign t d).
Proof.
  intros H. unfold startCampaign, newTenantPipe.
  repeat case_match; simplify_eq; try done.
  all: intros id a.
  all: destruct (submit_frame (length (objs t))
         (set_pipes (<[campID (dueCamp d) := length (objs t)]> (pipes t))
            (set_objs (objs t ++ [mkPipe (tim_tenantID t)
                                    (withAttachments l (dueCamp d)) 0
                                    (wgAdd1 (mkWG 0 0)) 0 0 0 false false true]) t)))
         as (-> & _ & _ & ->).
  all: simpl; intros Ha.
  all: destruct (decide (campID (dueCamp d) = id)) as [<-|Hne];
    [rewrite lookup_insert_eq in Ha; injection Ha as <-;
     eexists; split; [by rewrite lookup_app_r, Nat.sub_diag by lia|done]
    |rewrite lookup_insert_ne in Ha by done;
     destruct (H id a Ha) as (p & Hp & Hid); exists p;
     split; [by apply lookup_app_l_Some|done]].
Qed.

Lemma regInv_step e t : regInv t → regInv (step e t).
Proof.
  intros H.
  assert (Hcase : (∃ resp, e = EvScan resp) ∨ ∀ resp, e ≠ EvScan resp).
  { destruct e; try (by right); left; by eexists. }
  destruct Hcase as [[resp ->]|Hne].
  - simpl. destruct (ScanCampaigns (base (cfg t))); [|done].
    unfold scanTick, getCurrentCampaigns. cbv zeta.
    assert (H1 : ∀ l acc, regInv acc.1 → regInv (foldl collect acc l).1).
    { induction l as [|e l IH]; intros acc Hacc; simpl; [done|].
      by apply IH, collect_regInv. }
    assert (H2 : ∀ cs t0, regInv t0 → regInv (foldl startCampaign t0 cs)).
    { induction cs as [|d cs IH]; intros t0 H0; simpl; [done|].
      by apply IH, startCampaign_regInv. }
    destruct resp as [cs|]; [|by apply H1].
    apply H2. by apply H1.
  - intros id a Ha. apply (step_pipes_sub e t id a Hne) in Ha.
    destruct (H id a Ha) as (p & Hp & Hid).
    destruct (step_keeps_pipe e t a p Hp) as (p' & Hp' & _ & Ec).
    exists p'. split; [done|]. by rewrite Ec.
Qed.

Lemma reachable_regInv t : reachable t → regInv t.
Proof.
  intros (tenant & c & now & evs & ->).
  assert (H : ∀ evs t, regInv t → regInv (exec evs t)).
  { clear. induction evs as [|e evs IH]; intros t H; [done|].
    change (exec (e :: evs) t) with (exec evs (step e t)). by apply IH, regInv_step. }
  apply H. intros id a Ha. done.
Qed.

Lemma omap_total {A B} (f : A → option B) (g : A → B) (l : list A) :
  (∀ x, x ∈ l → f x = Some (g x)) → omap f l = g <$> l.
Proof.
  induction l as [|x l IH]; intros H; [done|].
  rewrite omap_cons, (H x) by left. rewrite fmap_cons. f_equal.
  apply IH. intros y Hy. apply H. by right.
Qed.

(** X17. The registry of a reachable instance: every entry of [tim.pipes]
    leads to a pipe of the campaign of its key, so that [StopCampaign] for
    a registered campaign sets the stopped flag of a pipe of that campaign;
    no two entries share a pipe; and the ids that a scan reports to the
    Store are the keys of the registry. *)
Theorem registry_valid (t : tenantInstanceManager) :
  reachable t →
  (∀ id a, pipes t !! id = Some a →
     ∃ p, objs t !! a = Some p ∧ campID (camp p) = id ∧
     ∃ p', objs (step (EvStop id) t) !! a = Some p' ∧ stopped p' = true ∧
           campID (camp p') = id) ∧
  NoDup (map_to_list (pipes t)).*2 ∧
  (getCurrentCampaigns t).2.1 = (map_to_list (pipes t)).*1.
Proof.
  intros Hr. pose proof (reachable_regInv t Hr) as HR.
  assert (Hnd : NoDup (map_to_list (pipes t)).*2).
  { apply NoDup_fmap_2_strong; [|apply NoDup_map_to_list].
    intros [id1 a1] [id2 a2] H1 H2 E. simpl in E. subst a2.
    apply elem_of_map_to_list in H1, H2.
    destruct (HR id1 a1 H1) as (p1 & Hp1 & E1).
    destruct (HR id2 a1 H2) as (p2 & Hp2 & E2).
    assert (p1 = p2) as -> by congruence. congruence. }
  split; [|split; [done|]].
  - intros id a Ha. destruct (HR id a Ha) as (p & Hp & Hid).
    exists p. split; [done|]. split; [done|].
    exists (Stop false p). simpl. unfold StopCampaign. rewrite Ha. simpl.
    rewrite list_lookup_alter_eq, Hp. split; [done|].
    split; [apply Stop_stopped|].
    by destruct (Stop_fields false p) as (_ & -> & _).
  - unfold getCurrentCampaigns.
    destruct (collect_fold (map_to_list (pipes t)) Hnd t [] []) as (E & _).
    rewrite E. simpl. apply omap_total.
    intros [id a] Hin. apply elem_of_map_to_list in Hin.
    destruct (HR id a Hin) as (p & Hp & Hid). simpl. by rewrite Hp, <- Hid.
Qed.

Lemma registry_valid_witness :
  NoDup (map_to_list (pipes exQueued)).*2 ∧
  (getCurrentCampaigns exQueued).2.1 = (map_to_list (pipes exQueued)).*1.
Proof.
  destruct (registry_valid exQueued exQueued_reachable) as (_ & H1 & H2).
  split; [exact H1|exact H2].
Defined.

(** ** An instance without messengers *)

(** No messenger has been added and there is no pipe, no queued pipe and no
    message. *)
Definition idle (t : tenantInstanceManager) : Prop :=
  messengers t = ∅ ∧ objs t = [] ∧ pipes t = ∅ ∧ nextPipes t = [] ∧
  campMsgQ t = [] ∧ inflight t = [].

Lemma idle_startCampaigns cs t :
  messengers t = ∅ →
  foldl startCampaign t cs
  = set_trace (trace t ++ (cancelOf (tim_tenantID t) <$> cs)) t.
Proof.
  revert t. induction cs as [|d cs IH]; intros t Hm; simpl.
  - rewrite app_nil_r. by destruct t.
  - assert (E : startCampaign t d = emit (cancelOf (tim_tenantID t) d) t).
    { unfold startCampaign, newTenantPipe. rewrite Hm.
      rewrite bool_decide_eq_false_2 by apply not_elem_of_empty. done. }
    rewrite E, IH by done. simpl. by rewrite <- app_assoc.
Qed.

Lemma idle_scanTick cs t :
  idle t →
  scanTick (Some cs) t
  = set_trace (trace t ++ NextTenantCampaigns (tim_tenantID t) [] []
                          :: (cancelOf (tim_tenantID t) <$> cs)) t.
Proof.
  intros (Hm & Ho & Hp & Hn & Hq & Hf). unfold scanTick, getCurrentCampaigns.
  rewrite Hp, map_to_list_empty. simpl.
  rewrite idle_startCampaigns by done. simpl. by rewrite <- app_assoc.
Qed.

Lemma idle_step e t :
  (∀ name, e ≠ EvAddMessenger name) → idle t → idle (step e t).
Proof.
  intros Hne Hi. pose proof Hi as (Hm & Ho & Hp & Hn & Hq & Hf).
  destruct e as [resp|resp| |k err|k|id|a resp|name]; simpl.
  - destruct (ScanCampaigns (base (cfg t))); [|done].
    destruct resp as [cs|]; [by rewrite idle_scanTick|].
    unfold scanTick, getCurrentCampaigns. rewrite Hp, map_to_list_empty. done.
  - unfold runIter. by rewrite Hn.
  - unfold workerRecv. by rewrite Hq.
  - unfold workerPush. by rewrite Hf.
  - unfold workerFinish. by rewrite Hf.
  - unfold StopCampaign. by rewrite Hp, lookup_empty.
  - unfold waitIter. by rewrite Ho.
  - by destruct (Hne name).
Qed.

(** X18. An instance to which no messenger has been added starts no
    campaign: whatever the events since its creation, as long as none of
    them adds a messenger, it has no pipe and no message, and a scan does
    nothing but ask the Store for campaigns, with no campaign of its own to
    report, and mark every campaign that the Store returns as cancelled. *)
Theorem no_messenger_no_campaign (tenant : Z) (c : TenantConfig) (now : Z)
    (evs : list event) :
  Forall (λ e, ∀ name, e ≠ EvAddMessenger name) evs →
  let t := exec evs (createTenantInstance tenant c now) in
  objs t = [] ∧ pipes t = ∅ ∧ nextPipes t = [] ∧ campMsgQ t = [] ∧ inflight t = [] ∧
  (ScanCampaigns (base c) = true →
   ∀ cs, step (EvScan (Some cs)) t
         = set_trace (trace t ++ NextTenantCampaigns tenant [] []
                                 :: (cancelOf tenant <$> cs)) t).
Proof.
  intros Hevs t.
  assert (H : ∀ evs t0, Forall (λ e, ∀ name, e ≠ EvAddMessenger name) evs →
                        idle t0 → idle (exec evs t0)).
  { clear. induction evs as [|e evs IH]; intros t0 Hevs H0; [done|].
    apply Forall_cons in Hevs as [He Hevs].
    change (exec (e :: evs) t0) with (exec evs (step e t0)).
    by apply IH, idle_step. }
  assert (Hi : idle t) by (by apply H).
  pose proof Hi as (Hm & Ho & Hp & Hn & Hq & Hf).
  do 5 (split; [done|]). intros Hscan cs.
  change (step (EvScan (Some cs)) t)
    with (if ScanCampaigns (base (cfg t)) then scanTick (Some cs) t else t).
  assert (Ec : cfg t = c) by apply exec_cfg.
  rewrite Ec, Hscan, idle_scanTick by done.
  assert (E : tim_tenantID t = tenant) by apply exec_tenantID.
  by rewrite E.
Qed.

Lemma no_messenger_no_campaign_witness :
  let t := exec [EvScan (Some [exDue]); EvRun None; EvRecv]
                (createTenantInstance 7 exConfig 0) in
  objs t = [] ∧
  trace (step (EvScan (Some [exDue])) t)
  = trace t ++ [NextTenantCampaigns 7 [] [];
                UpdateTenantCampaignStatus 7 1 CampaignStatusCancelled].
Proof.
  intros t.
  destruct (no_messenger_no_campaign 7 exConfig 0
              [EvScan (Some [exDue]); EvRun None; EvRecv])
    as (H1 & _ & _ & _ & _ & H6).
  { repeat constructor; by intros name. }
  split; [exact H1|].
  fold t in H6. rewrite (H6 eq_refl [exDue]). reflexivity.
Defined.

(** * The tenant manager *)

Lemma elem_of_cons_ne {A} (x d : A) (l : list A) : x ≠ d → x ∈ l ↔ x ∈ d :: l.
Proof.
  intros Hne. rewrite elem_of_cons. split; [by right|]. by intros [H|H].
Qed.

Section TenantManagerOps.

Variable float64 : Type.
Variable gt0 : float64 → bool.
Variable toInt : float64 → Z.

(** The answers of [GetTenantSettings] by tenant ([None] for an error), and
    the reading of [time.Now()] when the instance of a tenant is created. *)
Variable getSettings : Z → option (gmap string (value float64)).
Variable now : Z → Z.

(** [TenantManager.createTenantInstance]; [None] is the error. The struct
    literal of the instance is [createTenantInstance] above. *)
Definition TenantManager_createTenantInstance (tenantID : Z) (tm : TenantManager)
    : option TenantManager :=
  match loadTenantConfig float64 gt0 toInt (tm_cfg tm) (getSettings tenantID) tenantID with
  | None => None
  | Some tenantCfg =>
      Some (mkTenantManager (tm_cfg tm)
              (<[tenantID := createTenantInstance tenantID tenantCfg (now tenantID)]>
                 (tenantManagers tm))
              (activeTenants tm))
  end.

(** The body of the loop [for _, tenantID := range tenantIDs] of
    [discoverActiveTenants]. *)
Definition addTenant (tm : TenantManager) (tenantID : Z) : TenantManager :=
  if negb (default false (activeTenants tm !! tenantID)) then
    match TenantManager_createTenantInstance tenantID tm with
    | None => tm
    | Some tm =>
        mkTenantManager (tm_cfg tm) (tenantManagers tm)
                        (<[tenantID := true]> (activeTenants tm))
    end
  else tm.

(** The body of the loop [for tenantID := range tm.activeTenants]; the
    stopped instance leaves the manager. *)
Definition removeTenant (tenantIDs : list Z) (tm : TenantManager) (tenantID : Z)
    : TenantManager :=
  if bool_decide (tenantID ∈ tenantIDs) then tm
  else
    match tenantManagers tm !! tenantID with
    | Some _ =>
        mkTenantManager (tm_cfg tm) (delete tenantID (tenantManagers tm))
                        (delete tenantID (activeTenants tm))
    | None => tm
    end.

Definition getActiveTenantIDs : option (list Z) := Some [1].

(** [discoverActiveTenants] for the answer [resp] of [getActiveTenantIDs];
    [order] is the order in which the second loop meets the keys of
    [tm.activeTenants]. *)
Definition discover (resp : option (list Z)) (order : list Z) (tm : TenantManager)
    : TenantManager :=
  match resp with
  | None => tm
  | Some tenantIDs =>
      foldl (removeTenant tenantIDs) (foldl addTenant tm tenantIDs) order
  end.

Definition discoverActiveTenants (order : list Z) (tm : TenantManager) : TenantManager :=
  discover getActiveTenantIDs order tm.

(** [TenantManager.AddMessenger] for a messenger of the name [name];
    [order] is the order in which the loop meets the keys of
    [tm.tenantManagers]; the second component is the tenant of the error,
    [None] for no error. *)
Fixpoint TenantManager_AddMessenger (name : string) (order : list Z)
    (tm : TenantManager) : TenantManager * option Z :=
  match order with
  | [] => (tm, None)
  | id :: rest =>
      match tenantManagers tm !! id with
      | None => TenantManager_AddMessenger name rest tm
      | Some t =>
          match AddMessenger name t with
          | None => (tm, Some (tim_tenantID t))
          | Some t' =>
              TenantManager_AddMessenger name rest
                (mkTenantManager (tm_cfg tm) (<[id := t']> (tenantManagers tm))
                                 (activeTenants tm))
          end
      end
  end.

(** The tenants marked active are those that have an instance. *)
Definition tmInv (tm : TenantManager) : Prop :=
  ∀ id, activeTenants tm !! id = (λ _, true) <$> tenantManagers tm !! id.

(** The instance that a discovery creates for a tenant. *)
Definition freshInstance (cfg : Config) (id : Z) : option tenantInstanceManager :=
  (λ tc, createTenantInstance id tc (now id))
    <$> loadTenantConfig float64 gt0 toInt cfg (getSettings id) id.

Lemma addTenant_spec tm d :
  tmInv tm →
  tmInv (addTenant tm d) ∧ tm_cfg (addTenant tm d) = tm_cfg tm ∧
  ∀ id, tenantManagers (addTenant tm d) !! id
        = if bool_decide (id = d) then
            match tenantManagers tm !! d with
            | Some i => Some i
            | None => freshInstance (tm_cfg tm) d
            end
          else tenantManagers tm !! id.
Proof.
  intros HI. unfold addTenant, TenantManager_createTenantInstance, freshInstance.
  rewrite (HI d).
  destruct (tenantManagers tm !! d) as [i|] eqn:Hd; simpl.
  - split; [done|]. split; [done|]. intros id. case_bool_decide; [by subst|done].
  - destruct (loadTenantConfig float64 gt0 toInt (tm_cfg tm) (getSettings d) d)
      as [tc|]; simpl.
    + split; [|split; [done|]].
      * intros id. simpl. destruct (decide (id = d)) as [->|Hne].
        -- by rewrite !lookup_insert_eq.
        -- rewrite !lookup_insert_ne by done. apply HI.
      * intros id. case_bool_decide as Hid.
        -- subst. by rewrite lookup_insert_eq.
        -- by rewrite lookup_insert_ne.
    + split; [done|]. split; [done|]. intros id. case_bool_decide; [by subst|done].
Qed.

Lemma addLoop_spec ids tm :
  tmInv tm →
  tmInv (foldl addTenant tm ids) ∧ tm_cfg (foldl addTenant tm ids) = tm_cfg tm ∧
  ∀ id, tenantManagers (foldl addTenant tm ids) !! id
        = match tenantManagers tm !! id with
          | Some i => Some i
          | None => if bool_decide (id ∈ ids) then freshInstance (tm_cfg tm) id else None
          end.
Proof.
  revert tm. induction ids as [|d ids IH]; intros tm HI; simpl.
  { split; [done|]. split; [done|]. intros id. by destruct (tenantManagers tm !! id). }
  destruct (addTenant_spec tm d HI) as (H1 & H2 & H3).
  destruct (IH (addTenant tm d) H1) as (J1 & J2 & J3).
  split; [done|]. split; [congruence|]. intros id.
  rewrite J3, H3, H2. case_bool_decide as Hid.
  - subst id. destruct (tenantManagers tm !! d) as [i|]; [done|].
    rewrite (bool_decide_eq_true_2 (d ∈ d :: ids)) by left.
    destruct (freshInstance (tm_cfg tm) d); [done|]. by case_bool_decide.
  - destruct (tenantManagers tm !! id) as [i|]; [done|].
    apply (f_equal (λ b : bool, if b then freshInstance (tm_cfg tm) id else None)).
    by apply bool_decide_ext, elem_of_cons_ne.
Qed.

Lemma removeTenant_spec ids tm d :
  tmInv tm →
  tmInv (removeTenant ids tm d) ∧ tm_cfg (removeTenant ids tm d) = tm_cfg tm ∧
  ∀ id, tenantManagers (removeTenant ids tm d) !! id
        = if bool_decide (id = d ∧ d ∉ ids) then None else tenantManagers tm !! id.
Proof.
  intros HI. unfold removeTenant. case_bool_decide as Hd.
  { split; [done|]. split; [done|]. intros id.
    rewrite bool_decide_eq_false_2; [done|]. by intros [_ H]. }
  destruct (tenantManagers tm !! d) as [i|] eqn:Hl.
  - split; [|split; [done|]].
    + intros id. simpl. destruct (decide (id = d)) as [->|Hne].
      * by rewrite !lookup_delete_eq.
      * rewrite !lookup_delete_ne by done. apply HI.
    + intros id. simpl. case_bool_decide as Hid.
      * destruct Hid as [-> _]. by rewrite lookup_delete_eq.
      * rewrite lookup_delete_ne; [done|]. intros <-. by apply Hid.
  - split; [done|]. split; [done|]. intros id.
    case_bool_decide as Hid; [|done]. destruct Hid as [-> _]. done.
Qed.

Lemma removeLoop_spec ids order tm :
  tmInv tm →
  tmInv (foldl (removeTenant ids) tm order) ∧
  tm_cfg (foldl (removeTenant ids) tm order) = tm_cfg tm ∧
  ∀ id, tenantManagers (foldl (removeTenant ids) tm order) !! id
        = if bool_decide (id ∈ order ∧ id ∉ ids) then None else tenantManagers tm !! id.
Proof.
  revert tm. induction order as [|d order IH]; intros tm HI.
  { split; [done|]. split; [done|]. intros id. cbn [foldl].
    rewrite bool_decide_eq_false_2; [done|]. intros [H _]. by apply elem_of_nil in H. }
  cbn [foldl].
  destruct (removeTenant_spec ids tm d HI) as (H1 & H2 & H3).
  destruct (IH (removeTenant ids tm d) H1) as (J1 & J2 & J3).
  split; [done|]. split; [congruence|]. intros id. rewrite J3, H3.
  destruct (decide (id ∈ ids)) as [Hin|Hnin].
  - rewrite (bool_decide_eq_false_2 (id ∈ order ∧ id ∉ ids)) by (by intros [_ H]).
    rewrite (bool_decide_eq_false_2 (id ∈ d :: order ∧ id ∉ ids)) by (by intros [_ H]).
    by rewrite (bool_decide_eq_false_2 (id = d ∧ d ∉ ids)) by (by intros [-> H]).
  - destruct (decide (id = d)) as [->|Hne].
    + rewrite (bool_decide_eq_true_2 (d ∈ d :: order ∧ d ∉ ids)) by (split; [left|done]).
      rewrite (bool_decide_eq_true_2 (d = d ∧ d ∉ ids)) by done. by case_bool_decide.
    + rewrite (bool_decide_eq_false_2 (id = d ∧ d ∉ ids)) by (by intros [H _]).
      apply (f_equal (λ b : bool, if b then None else tenantManagers tm !! id)).
      apply bool_decide_ext. by rewrite <- (elem_of_cons_ne id d order Hne).
Qed.

(** X19. A discovery of the active tenants, in a manager whose tenants
    marked active are those with an instance: afterwards the instances are
    those of the tenants listed; a listed tenant that had an instance keeps
    it as it is, a listed tenant without one gets a new instance when its
    settings can be loaded and none otherwise (it is tried again at the next
    discovery), and the instance of a tenant that is not listed is removed.
    A new instance has no messenger and no pipe. *)
Theorem discover_tenants (tm : TenantManager) (ids order : list Z) :
  tmInv tm →
  (∀ id, id ∈ order ↔ is_Some (activeTenants (foldl addTenant tm ids) !! id)) →
  let tm' := discover (Some ids) order tm in
  tmInv tm' ∧ tm_cfg tm' = tm_cfg tm ∧
  (∀ id, tenantManagers tm' !! id
         = if bool_decide (id ∈ ids) then
             match tenantManagers tm !! id with
             | Some t => Some t
             | None => freshInstance (tm_cfg tm) id
             end
           else None) ∧
  (∀ id t, tenantManagers tm !! id = None → tenantManagers tm' !! id = Some t →
           tim_tenantID t = id ∧ messengers t = ∅ ∧ objs t = [] ∧ trace t = []).
Proof.
  intros HI Horder tm'. unfold tm', discover.
  destruct (addLoop_spec ids tm HI) as (H1 & H2 & H3).
  destruct (removeLoop_spec ids order (foldl addTenant tm ids) H1) as (J1 & J2 & J3).
  assert (Hall : ∀ id, tenantManagers (foldl (removeTenant ids) (foldl addTenant tm ids) order) !! id
         = if bool_decide (id ∈ ids) then
             match tenantManagers tm !! id with
             | Some t => Some t
             | None => freshInstance (tm_cfg tm) id
             end
           else None).
  { intros id. rewrite J3, H3. destruct (decide (id ∈ ids)) as [Hin|Hnin].
    - rewrite (bool_decide_eq_false_2 (id ∈ order ∧ id ∉ ids)) by (by intros [_ H]).
      by rewrite (bool_decide_eq_true_2 (id ∈ ids)).
    - rewrite (bool_decide_eq_false_2 (id ∈ ids)) by done.
      case_bool_decide as Ho; [done|].
      assert (Hno : id ∉ order) by (intros H; apply Ho; by split).
      rewrite Horder, (H1 id), H3, (bool_decide_eq_false_2 (id ∈ ids)) in Hno by done.
      destruct (tenantManagers tm !! id) as [t|]; [|done].
      exfalso. apply Hno. by eexists. }
  split; [done|]. split; [congruence|]. split; [exact Hall|].
  intros id t Hnone Hsome. rewrite Hall, Hnone in Hsome.
  case_bool_decide; [|done]. unfold freshInstance in Hsome.
  destruct (loadTenantConfig float64 gt0 toInt (tm_cfg tm) (getSettings id) id)
    as [tc|]; [|done].
  simpl in Hsome. injection Hsome as <-. done.
Qed.

Lemma AddMessenger_Some name t :
  name ∉ messengers t →
  AddMessenger name t = Some (set_messengers ({[name]} ∪ messengers t) t).
Proof. intros H. unfold AddMessenger. by rewrite bool_decide_eq_false_2. Qed.

Lemma AddMessenger_None name t : name ∈ messengers t → AddMessenger name t = None.
Proof. intros H. unfold AddMessenger. by rewrite bool_decide_eq_true_2. Qed.

Lemma TenantManager_AddMessenger_spec name order tm :
  NoDup order →
  ((TenantManager_AddMessenger name order tm).2 = None ↔
   ∀ id t, id ∈ order → tenantManagers tm !! id = Some t → name ∉ messengers t) ∧
  ((TenantManager_AddMessenger name order tm).2 = None →
   ∀ id, tenantManagers (TenantManager_AddMessenger name order tm).1 !! id
         = if bool_decide (id ∈ order)
           then (λ t, set_messengers ({[name]} ∪ messengers t) t)
                  <$> tenantManagers tm !! id
           else tenantManagers tm !! id).
Proof.
  revert tm. induction order as [|d order IH]; intros tm Hnd.
  { cbn [TenantManager_AddMessenger snd fst].
    split; [split; [intros _ id t H; by apply elem_of_nil in H|done]|].
    intros _ id. rewrite bool_decide_eq_false_2; [done|]. apply not_elem_of_nil. }
  apply NoDup_cons in Hnd as [Hd Hnd]. cbn [TenantManager_AddMessenger].
  destruct (tenantManagers tm !! d) as [t|] eqn:Ht.
  - destruct (decide (name ∈ messengers t)) as [Hin|Hnin].
    + rewrite (AddMessenger_None name t Hin). simpl.
      split; [split; [done|]|done].
      intros H. exfalso. apply (H d t); [left|done|done].
    + rewrite (AddMessenger_Some name t Hnin).
      set (tm1 := mkTenantManager _ _ _).
      destruct (IH tm1 Hnd) as [H1 H2].
      assert (Hother : ∀ id, id ≠ d → tenantManagers tm1 !! id = tenantManagers tm !! id).
      { intros id Hne. unfold tm1. simpl. by rewrite lookup_insert_ne. }
      split.
      * rewrite H1. split.
        -- intros H id t0 Hid Hl. apply elem_of_cons in Hid as [->|Hid].
           ++ congruence.
           ++ apply (H id t0 Hid). rewrite Hother; [done|]. by intros ->.
        -- intros H id t0 Hid Hl. apply (H id t0); [by right|].
           rewrite <- Hother; [done|]. by intros ->.
      * intros Hok id. rewrite (H2 Hok id).
        destruct (decide (id = d)) as [->|Hne].
        -- rewrite (bool_decide_eq_false_2 (d ∈ order)) by done.
           rewrite (bool_decide_eq_true_2 (d ∈ d :: order)) by left.
           unfold tm1. simpl. by rewrite lookup_insert_eq, Ht.
        -- rewrite Hother by done.
           apply (f_equal (λ b : bool,
             if b then (λ t, set_messengers ({[name]} ∪ messengers t) t)
                         <$> tenantManagers tm !! id
             else tenantManagers tm !! id)).
           by apply bool_decide_ext, elem_of_cons_ne.
  - destruct (IH tm Hnd) as [H1 H2]. split.
    + rewrite H1. split.
      * intros H id t0 Hid Hl. apply elem_of_cons in Hid as [->|Hid]; [congruence|].
        by apply (H id t0).
      * intros H id t0 Hid Hl. apply (H id t0); [by right|done].
    + intros Hok id. rewrite (H2 Hok id).
      destruct (decide (id = d)) as [->|Hne].
      * rewrite Ht. by repeat case_bool_decide.
      * apply (f_equal (λ b : bool,
          if b then (λ t, set_messengers ({[name]} ∪ messengers t) t)
                      <$> tenantManagers tm !! id
          else tenantManagers tm !! id)).
        by apply bool_decide_ext, elem_of_cons_ne.
Qed.

(** X20. [TenantManager.AddMessenger], whatever the order in which it
    meets the instances: it returns no error exactly when no instance has
    a messenger of that name, and then every instance has gained it and is
    otherwise as it was; and in a manager without instances it does nothing,
    so that an instance discovered later has not got the messenger. *)
Theorem TenantManager_AddMessenger_all (name : string) (order : list Z)
    (tm : TenantManager) :
  NoDup order →
  (∀ id, id ∈ order ↔ is_Some (tenantManagers tm !! id)) →
  let r := TenantManager_AddMessenger name order tm in
  (r.2 = None ↔ ∀ id t, tenantManagers tm !! id = Some t → name ∉ messengers t) ∧
  (r.2 = None →
   ∀ id, tenantManagers r.1 !! id
         = (λ t, set_messengers ({[name]} ∪ messengers t) t) <$> tenantManagers tm !! id) ∧
  (tenantManagers tm = ∅ → r = (tm, None)).
Proof.
  intros Hnd Horder r.
  destruct (TenantManager_AddMessenger_spec name order tm Hnd) as [H1 H2].
  split; [|split].
  - unfold r. rewrite H1. split.
    + intros H id t Hl. apply (H id t); [|done]. apply Horder. by eexists.
    + intros H id t _ Hl. by apply (H id t).
  - intros Hok id. unfold r. rewrite (H2 Hok id).
    case_bool_decide as Hin; [done|].
    destruct (tenantManagers tm !! id) as [t|] eqn:Hl; [|done].
    exfalso. apply Hin, Horder. by eexists.
  - intros Hempty. assert (order = []) as ->; [|done].
    destruct order as [|d order]; [done|].
    assert (Hd : is_Some (tenantManagers tm !! d)) by (apply Horder; left).
    rewrite Hempty, lookup_empty in Hd. by destruct Hd.
Qed.

End TenantManagerOps.

(** The settings of tenant 1 can be loaded, those of the others cannot. *)
Definition exGetSettings (tenant : Z) : option (gmap string (value Z)) :=
  if tenant =? 1 then Some exSettings else None.

Lemma discover_tenants_witness :
  let tm' := discover Z (Z.ltb 0) id exGetSettings (λ _, 0) (Some [1; 2]) [1]
               (NewTenantManager (base exConfig)) in
  is_Some (tenantManagers tm' !! 1) ∧ tenantManagers tm' !! 2 = None.
Proof.
  intros tm'.
  assert (HI : tmInv (NewTenantManager (base exConfig))).
  { intros i. simpl. by rewrite !lookup_empty. }
  assert (E : activeTenants (foldl (addTenant Z (Z.ltb 0) id exGetSettings (λ _, 0))
                               (NewTenantManager (base exConfig)) [1; 2])
              = <[1 := true]> ∅) by (vm_compute; reflexivity).
  destruct (discover_tenants Z (Z.ltb 0) id exGetSettings (λ _, 0)
              (NewTenantManager (base exConfig)) [1; 2] [1] HI) as (_ & _ & H & _).
  { intros i. rewrite E. split.
    - intros Hi. apply list_elem_of_singleton in Hi as ->.
      rewrite lookup_insert_eq. by eexists.
    - intros Hi. destruct (decide (i = 1)) as [->|Hne]; [left|].
      rewrite lookup_insert_ne, lookup_empty in Hi by done. by destruct Hi. }
  fold tm' in H. rewrite (H 1), (H 2). split; [|vm_compute; reflexivity].
  vm_compute. by eexists.
Defined.

Lemma TenantManager_AddMessenger_all_witness :
  let tm := mkTenantManager (base exConfig) {[7 := createTenantInstance 7 exConfig 0]}
                            {[7 := true]} in
  (TenantManager_AddMessenger "email" [7] tm).2 = None.
Proof.
  intros tm.
  destruct (TenantManager_AddMessenger_all "email" [7] tm) as (H & _ & _).
  { apply NoDup_singleton. }
  { intros i. simpl. split.
    - intros Hi. apply list_elem_of_singleton in Hi as ->.
      rewrite lookup_singleton_eq. by eexists.
    - intros Hi. destruct (decide (i = 7)) as [->|Hne]; [left|].
      rewrite lookup_singleton_ne in Hi by done. by destruct Hi. }
  apply H. intros i t Hl. simpl in Hl.
  apply lookup_singleton_Some in Hl as [_ <-]. simpl. apply not_elem_of_empty.
Defined.

(** * When the with-errors flag of a pipe is set *)

(** The with-errors flag of the pipe at [a] is set only when the threshold
    is at least 1 and that many deliveries of the pipe have failed. *)
Definition pausedInv (t : tenantInstanceManager) : Prop :=
  ∀ a p, objs t !! a = Some p → withErrors p = true →
    1 ≤ TenantMaxSendErrors (cfg t) ∧
    TenantMaxSendErrors (cfg t) ≤ cnt (isFailed a) (trace t).

Lemma pipeOp_withErrors T e q q' :
  pipeOp T e q q' → (∀ k, e ≠ EvPush k true) → withErrors q' = withErrors q.
Proof.
  intros H Hne. destruct H; try done.
  - destruct err; [by destruct (Hne k)|done].
  - by destruct (workerStore_fields id cur p) as (_ & _ & _ & -> & _).
  - unfold Stop. by destruct (stopped p).
Qed.

(** The pipes that a scan creates have no flag set. *)
Lemma scanTick_new_pipes resp t a p' :
  objs (scanTick resp t) !! a = Some p' → (length (objs t) ≤ a)%nat →
  withErrors p' = false.
Proof.
  set (n := length (objs t)).
  set (K := λ t0 : tenantInstanceManager,
         ∀ b q, objs t0 !! b = Some q → (n ≤ b)%nat → withErrors q = false).
  assert (H0 : K t).
  { intros b q Hq Hb. apply lookup_lt_Some in Hq. unfold n in Hb. lia. }
  assert (H1 : ∀ l acc, K acc.1 → K (foldl collect acc l).1).
  { induction l as [|e l IH]; intros acc Hacc; simpl; [done|].
    apply IH. unfold collect. destruct (objs acc.1 !! e.2) eqn:E; [|done]. simpl.
    intros b q Hq Hb. simpl in Hq. destruct (decide (e.2 = b)) as [<-|Hne].
    - rewrite list_lookup_alter_eq, E in Hq. injection Hq as <-. simpl.
      by apply (Hacc e.2).
    - rewrite list_lookup_alter_ne in Hq by done. by apply (Hacc b). }
  assert (H2 : ∀ cs t0, K t0 → K (foldl startCampaign t0 cs)).
  { induction cs as [|d cs IH]; intros t0 Ht0; simpl; [done|].
    apply IH. unfold startCampaign, newTenantPipe.
    repeat case_match; simplify_eq; try done.
    all: intros b q.
    all: destruct (submit_frame (length (objs t0))
           (set_pipes (<[campID (dueCamp d) := length (objs t0)]> (pipes t0))
              (set_objs (objs t0 ++ [mkPipe (tim_tenantID t0)
                                       (withAttachments l (dueCamp d)) 0
                                       (wgAdd1 (mkWG 0 0)) 0 0 0 false false true]) t0)))
           as (_ & _ & _ & ->).
    all: simpl; intros Hq Hb.
    all: apply lookup_app_Some in Hq as [Hq|[_ Hq]]; [by apply (Ht0 b)|].
    all: apply list_lookup_singleton_Some in Hq as [_ <-]; done. }
  intros Hp' Ha. unfold scanTick, getCurrentCampaigns in Hp'. cbv zeta in Hp'.
  destruct resp as [cs|].
  - eapply (H2 cs); [|exact Hp'|exact Ha]. by apply H1.
  - eapply (H1 _ (t, ([], []))); [exact H0|exact Hp'|exact Ha].
Qed.

Lemma cnt_failed_added a e t :
  cnt (isFailed a) (trace t) ≤ cnt (isFailed a) (trace (step e t)).
Proof.
  destruct (step_added e t) as (l & -> & _). rewrite cnt_app.
  pose proof (cnt_nonneg (isFailed a) l). lia.
Qed.

Lemma pausedInv_step e t :
  TenantMaxSendErrors (cfg t) < two63 → Inv t → pausedInv t → pausedInv (step e t).
Proof.
  intros HT HI HP a p' Hp' Hw. rewrite step_cfg.
  set (T := TenantMaxSendErrors (cfg t)) in *.
  assert (Hold : ∀ p, objs t !! a = Some p → withErrors p = true →
                      1 ≤ T ∧ T ≤ cnt (isFailed a) (trace (step e t))).
  { intros p Hp Hwp. destruct (HP a p Hp Hwp) as [H1 H2]. split; [done|].
    pose proof (cnt_failed_added a e t). lia. }
  assert (Hcase : (∃ k, e = EvPush k true) ∨ ∀ k, e ≠ EvPush k true).
  { destruct e as [| | |k [|]| | | |]; try (by right); left; by eexists. }
  destruct Hcase as [[k ->]|Hne].
  - simpl in Hp'. unfold workerPush in Hp'.
    destruct (inflight t !! k) as [[msg [|cur]]|] eqn:Hk;
      try (by apply (Hold p' Hp' Hw)).
    destruct (msgPipe msg) as [b|] eqn:Hm; [|by apply (Hold p' Hp' Hw)].
    destruct (objs t !! b) as [tp|] eqn:Hb; [|by apply (Hold p' Hp' Hw)].
    destruct (workerPush_failed t k msg b tp Hk Hm Hb) as [_ ->].
    simpl in Hp'. rewrite cnt_app. simpl.
    destruct (decide (b = a)) as [->|Hba].
    + rewrite list_lookup_alter_eq, Hb in Hp'. injection Hp' as <-.
      rewrite bool_decide_eq_true_2 by done.
      assert (Hw' : withErrors (OnError T (set_wg (wgDone (wg tp)) tp)) = true)
        by exact Hw.
      destruct (OnError_flags T (set_wg (wgDone (wg tp)) tp)) as [H|H].
      * destruct H as (H1 & H2 & _). simpl in H2. split; [done|].
        destruct HI as (I1 & _).
        destruct (I1 a tp Hb) as (_ & _ & _ & _ & _ & _ & _ & E1 & _ & _ & _ & _ & N3).
        fold T in E1. simpl in E1, N3.
        assert (HT1 : (T <? 1) = false) by (apply Z.ltb_ge; lia).
        rewrite HT1 in E1. rewrite E1, uint64_succ in H2.
        change (nFailed (tallyOf t a)) with (cnt (isFailed a) (trace t)) in H2, N3.
        destruct (decide (cnt (isFailed a) (trace t) + 1 < two63)) as [Hs|Hb'].
        -- rewrite uint64_small in H2 by (unfold two64, two63 in *; lia).
           rewrite int64_small in H2 by (unfold two63 in *; lia). lia.
        -- lia.
      * destruct H as (_ & _ & Hwe). rewrite Hwe in Hw'. simpl in Hw'.
        destruct (HP a tp Hb Hw') as [H1 H2]. split; [done|]. lia.
    + rewrite list_lookup_alter_ne in Hp' by done.
      rewrite bool_decide_eq_false_2 by done.
      destruct (HP a p' Hp' Hw) as [H1 H2]. split; [done|]. lia.
  - destruct (decide (a < length (objs t))%nat) as [Hlt|Hge].
    + destruct (lookup_lt_is_Some_2 _ _ Hlt) as [p Hp].
      destruct (step_evolves e t) as [_ H]. destruct (H a p Hp) as (p'' & Hp'' & Hr).
      assert (p'' = p') as -> by congruence.
      apply (Hold p Hp). rewrite <- Hw. symmetry.
      clear Hp Hp' Hp'' H Hw Hold. induction Hr as [|x y z Hxy _ IH]; [done|].
      rewrite IH. by apply (pipeOp_withErrors _ _ _ _ Hxy).
    + assert (Hscan : ∃ resp, e = EvScan resp).
      { destruct e as [resp| | | | | | |]; try (by eexists).
        all: exfalso; apply Hge; apply lookup_lt_Some in Hp'.
        all: by rewrite step_length_objs in Hp' by done. }
      destruct Hscan as [resp ->]. simpl in Hp'.
      destruct (ScanCampaigns (base (cfg t))).
      * rewrite (scanTick_new_pipes resp t a p' Hp') in Hw by lia. done.
      * apply lookup_lt_Some in Hp'. lia.
Qed.

(** X21. The with-errors flag is set only after enough failures: in a
    reachable instance, when the with-errors flag of a pipe is set, the
    threshold is at least 1 and at least that many deliveries of the pipe
    have failed. With a threshold below 1 the with-errors flag of a pipe is
    never set. *)
Theorem paused_only_after_failures (t : tenantInstanceManager) (a : nat)
    (p : tenantPipe) :
  reachable t →
  TenantMaxSendErrors (cfg t) < two63 →
  objs t !! a = Some p →
  withErrors p = true →
  1 ≤ TenantMaxSendErrors (cfg t) ∧
  TenantMaxSendErrors (cfg t) ≤ cnt (isFailed a) (trace t).
Proof.
  intros Hr HT Hp Hw.
  pose proof (reachable_Inv t Hr HT) as HI.
  assert (HP : pausedInv t).
  { destruct Hr as (tenant & c & now & evs & ->). rewrite exec_cfg in HT.
    assert (H : ∀ evs t0, TenantMaxSendErrors (cfg t0) < two63 → Inv t0 → pausedInv t0 →
                          pausedInv (exec evs t0)).
    { clear. induction evs as [|e evs IH]; intros t0 HT H1 H2; [done|].
      change (exec (e :: evs) t0) with (exec evs (step e t0)).
      apply IH; [by rewrite step_cfg|by apply Inv_step|by apply pausedInv_step]. }
    apply H; [done|apply Inv_init|]. intros b q Hq. done. }
  exact (HP a p Hp Hw).
Qed.

(** Both messages being pushed in [exRunning] have failed. *)
Definition exFailedTwice : tenantInstanceManager :=
  exec [EvAddMessenger "email"; EvScan (Some [exDue]);
        EvRun (Some [exSub 5; exSub 10; exSub 11]); EvRecv; EvRecv;
        EvPush 0 true; EvPush 0 true]
       (createTenantInstance 7 exConfig 0).

Lemma paused_only_after_failures_witness :
  2 ≤ cnt (isFailed 0%nat) (trace exFailedTwice).
Proof.
  assert (Hr : reachable exFailedTwice).
  { exists 7, exConfig, 0. eexists. reflexivity. }
  assert (ET : TenantMaxSendErrors (cfg exFailedTwice) = 2) by (vm_compute; reflexivity).
  assert (HT : TenantMaxSendErrors (cfg exFailedTwice) < two63)
    by (rewrite ET; unfold two63; lia).
  destruct (paused_only_after_failures exFailedTwice 0%nat _ Hr HT
              ltac:(vm_compute; reflexivity) eq_refl) as [_ H].
  by rewrite ET in H.
Defined.
